(** * Pro Calculator ([src/app.js]): a shallow embedding and its properties

    The calculator keeps four module-level variables ([expressionTokens],
    [currentInput], [lastResult], [isError]) and mutates them from event
    handlers.  Numbers are IEEE-754 binary64 values, tokens are strings.

    The development has these parts:
    - [JS]: the parts of the ECMAScript runtime that [app.js] calls
      ([Number], [parseFloat], [toPrecision], [toFixed], [toString], the
      two regular expressions, [slice], ...), over binary64 values taken
      from the Standard Library's [SpecFloat];
    - the functions of [app.js] themselves, state passing over a record
      of the four variables and the two DOM nodes;
    - [Heap]: [evaluateTokens] once more, over a heap of arrays passed by
      reference, to state what it reads and writes;
    - the notions the properties are stated with (the precedence grammar,
      trailing zeros in words, ...), and the properties. *)

From Stdlib Require Import ZArith Bool List String Ascii Lia.
From Stdlib Require Import DecimalString DecimalN.
From Stdlib Require Import Floats.SpecFloat.
From stdpp Require Import base list strings.

Import ListNotations.
Local Open Scope string_scope.
Local Open Scope list_scope.
Local Open Scope Z_scope.

(** ** The ECMAScript runtime used by the program *)

Module JS.

(** *** Numbers: binary64 *)

Definition prec : Z := 53.
Definition emax : Z := 1024.

(** A JavaScript number.  [S754_finite s m e] is [(-1)^s * m * 2^e]. *)
Definition float : Type := spec_float.

Definition valid (x : float) : bool := valid_binary prec emax x.

Definition fadd : float -> float -> float := SFadd prec emax.
Definition fsub : float -> float -> float := SFsub prec emax.
Definition fmul : float -> float -> float := SFmul prec emax.
Definition fdiv : float -> float -> float := SFdiv prec emax.
Definition fneg : float -> float := SFopp.

(** [Number.isFinite] *)
Definition isFinite (x : float) : bool :=
  match x with
  | S754_zero _ | S754_finite _ _ _ => true
  | S754_infinity _ | S754_nan => false
  end.

(** [x === y] on numbers: [+0] and [-0] are equal, [NaN] equals nothing. *)
Definition strict_eq (x y : float) : bool := SFeqb x y.

Definition pos_zero : float := S754_zero false.

(** The number written as the integer literal [z] in the source. *)
Definition of_Z (z : Z) : float := binary_normalize prec emax z 0 false.

(** *** Decimal literals to numbers

    [of_decimal neg d k] is the binary64 value nearest to
    [(-1)^neg * d * 10^k] (ties to even), for [0 <= d]. *)
Definition of_decimal (neg : bool) (d k : Z) : float :=
  match d with
  | Zpos p =>
      match k with
      | Zneg q =>
          let '(mz, ez, lz) :=
            SFdiv_core_binary prec emax (Zpos p) 0 (Zpos (10 ^ q)) 0 in
          binary_round_aux prec emax neg mz ez lz
      | _ => binary_normalize prec emax
               (if neg then - (Zpos p * 10 ^ k) else Zpos p * 10 ^ k) 0 neg
      end
  | _ => S754_zero neg
  end.

(** *** Characters and strings

    A string is a sequence of code units; this model covers the code units
    below 256. *)

Definition code (c : ascii) : Z := Z.of_nat (nat_of_ascii c).

Definition is_digit (c : ascii) : bool := (48 <=? code c) && (code c <=? 57).

Definition digit_val (c : ascii) : Z := code c - 48.

(** [WhiteSpace] and [LineTerminator] code units below 256. *)
Definition is_space (c : ascii) : bool :=
  let n := code c in
  (n =? 9) || (n =? 10) || (n =? 11) || (n =? 12) || (n =? 13)
  || (n =? 32) || (n =? 160).

Fixpoint trim_start (s : string) : string :=
  match s with
  | String c r => if is_space c then trim_start r else s
  | EmptyString => s
  end.

Fixpoint trim_end (s : string) : string :=
  match s with
  | String c r =>
      match trim_end r with
      | EmptyString => if is_space c then EmptyString else String c EmptyString
      | r' => String c r'
      end
  | EmptyString => s
  end.

Definition trim (s : string) : string := trim_end (trim_start s).

(** The longest prefix of decimal digits, and what follows it. *)
Fixpoint span_digits (s : string) : string * string :=
  match s with
  | String c r =>
      if is_digit c
      then let '(d, rest) := span_digits r in (String c d, rest)
      else (EmptyString, s)
  | EmptyString => (EmptyString, EmptyString)
  end.

(** Value of a digit string, most significant digit first, in [base]. *)
Fixpoint digits_value (base : Z) (val : ascii -> Z) (acc : Z) (s : string) : Z :=
  match s with
  | String c r => digits_value base val (acc * base + val c) r
  | EmptyString => acc
  end.

Definition decimal_value (s : string) : Z := digits_value 10 digit_val 0 s.

(** [s.startsWith(p)], returning the remainder on success. *)
Fixpoint strip_prefix (p s : string) : option string :=
  match p, s with
  | EmptyString, _ => Some s
  | String a p', String b s' =>
      if Ascii.eqb a b then strip_prefix p' s' else None
  | String _ _, EmptyString => None
  end.

Definition startsWith (s p : string) : bool :=
  match strip_prefix p s with Some _ => true | None => false end.

(** [s.includes(c)] for a one-character needle. *)
Fixpoint includes (s : string) (c : ascii) : bool :=
  match s with
  | String a r => Ascii.eqb a c || includes r c
  | EmptyString => false
  end.

(** [s.slice(0, -1)]: everything but the last code unit. *)
Fixpoint slice_0_m1 (s : string) : string :=
  match s with
  | String _ EmptyString => EmptyString
  | String c r => String c (slice_0_m1 r)
  | EmptyString => EmptyString
  end.

(** [s.slice(1)] *)
Definition slice_1 (s : string) : string :=
  match s with
  | String _ r => r
  | EmptyString => EmptyString
  end.

(** [a.join(sep)] *)
Fixpoint join (sep : string) (a : list string) : string :=
  match a with
  | [] => ""
  | [x] => x
  | x :: r => x +:+ sep +:+ join sep r
  end.

(** *** [StrDecimalLiteral]

    A parsed literal: infinite, or sign, digits and decimal exponent. *)
Variant literal : Type :=
  | LitInfinity (neg : bool)
  | LitDecimal (neg : bool) (d k : Z).

Definition literal_value (l : literal) : float :=
  match l with
  | LitInfinity neg => S754_infinity neg
  | LitDecimal neg d k => of_decimal neg d k
  end.

(** [ExponentPart], if one starts [s]: its value and what follows. *)
Definition scan_exponent (s : string) : option (Z * string) :=
  match s with
  | String c r =>
      if Ascii.eqb c "e" || Ascii.eqb c "E" then
        let '(neg, r1) :=
          match r with
          | String "-" r' => (true, r')
          | String "+" r' => (false, r')
          | _ => (false, r)
          end in
        match span_digits r1 with
        | (EmptyString, _) => None
        | (ds, rest) =>
            Some (if neg then - decimal_value ds else decimal_value ds, rest)
        end
      else None
  | EmptyString => None
  end.

(** The longest [StrUnsignedDecimalLiteral] that starts [s]. *)
Definition scan_unsigned (neg : bool) (s : string) : option (literal * string) :=
  match strip_prefix "Infinity" s with
  | Some rest => Some (LitInfinity neg, rest)
  | None =>
      let '(ip, r1) := span_digits s in
      let '(fp, r2, dotted) :=
        match r1 with
        | String "." r' => let '(fp, r2) := span_digits r' in (fp, r2, true)
        | _ => (EmptyString, r1, false)
        end in
      match ip, fp with
      | EmptyString, EmptyString => None
      | _, _ =>
          let d := decimal_value (ip +:+ fp) in
          let k := - Z.of_nat (String.length fp) in
          let rest := if dotted then r2 else r1 in
          match scan_exponent rest with
          | Some (e, rest') => Some (LitDecimal neg d (k + e), rest')
          | None => Some (LitDecimal neg d k, rest)
          end
      end
  end.

(** The longest [StrDecimalLiteral] that starts [s]. *)
Definition scan_decimal (s : string) : option (literal * string) :=
  match s with
  | String "-" r => scan_unsigned true r
  | String "+" r => scan_unsigned false r
  | _ => scan_unsigned false s
  end.

(** [NonDecimalIntegerLiteral]: [0x], [0o], [0b] and their capitals. *)
Definition hex_val (c : ascii) : option Z :=
  let n := code c in
  if (48 <=? n) && (n <=? 57) then Some (n - 48)
  else if (97 <=? n) && (n <=? 102) then Some (n - 87)
  else if (65 <=? n) && (n <=? 70) then Some (n - 55)
  else None.

Fixpoint radix_value (base : Z) (acc : Z) (s : string) : option Z :=
  match s with
  | String c r =>
      match hex_val c with
      | Some v => if v <? base then radix_value base (acc * base + v) r else None
      | None => None
      end
  | EmptyString => Some acc
  end.

Definition scan_non_decimal (s : string) : option Z :=
  match s with
  | String "0" (String b (String c r)) =>
      let ds := String c r in
      if Ascii.eqb b "x" || Ascii.eqb b "X" then radix_value 16 0 ds
      else if Ascii.eqb b "o" || Ascii.eqb b "O" then radix_value 8 0 ds
      else if Ascii.eqb b "b" || Ascii.eqb b "B" then radix_value 2 0 ds
      else None
  | _ => None
  end.

(** [Number(s)] on a string: [StringToNumber]. *)
Definition Number (s : string) : float :=
  match trim s with
  | EmptyString => pos_zero
  | t =>
      match scan_decimal t with
      | Some (l, EmptyString) => literal_value l
      | _ =>
          match scan_non_decimal t with
          | Some z => of_decimal false z 0
          | None => S754_nan
          end
      end
  end.

(** [parseFloat(s)]: the longest literal prefix after leading white space. *)
Definition parseFloat (s : string) : float :=
  match scan_decimal (trim_start s) with
  | Some (l, _) => literal_value l
  | None => S754_nan
  end.

(** *** Numbers to strings *)

(** Decimal digits of a non-negative integer, no leading zeros ("0" for 0). *)
Definition digits (n : Z) : string := NilZero.string_of_uint (N.to_uint (Z.to_N n)).

Definition len (s : string) : Z := Z.of_nat (String.length s).

Fixpoint zeros_nat (n : nat) : string :=
  match n with
  | O => EmptyString
  | S n' => String "0" (zeros_nat n')
  end.

(** [n] occurrences of the digit zero. *)
Definition zeros (n : Z) : string := zeros_nat (Z.to_nat n).

(** [s.substring(i, i + n)] for in-range [i], [n]. *)
Definition sub (i n : Z) (s : string) : string :=
  String.substring (Z.to_nat i) (Z.to_nat n) s.

(** The mathematical value of a finite number: sign and a fraction [a / b]
    with [0 <= a], [0 < b].  Both zeros have the value [0]. *)
Definition real_of (x : float) : bool * Z * Z :=
  match x with
  | S754_finite s m (Zneg k) => (s, Zpos m, 2 ^ Zpos k)
  | S754_finite s m e => (s, Zpos m * 2 ^ e, 1)
  | _ => (false, 0, 1)
  end.

(** [(a / b) * 10^k] as a fraction. *)
Definition scale10 (a b k : Z) : Z * Z :=
  match k with
  | Zneg j => (a, b * 10 ^ Zpos j)
  | _ => (a * 10 ^ k, b)
  end.

(** The integer nearest to [a / b]; of two, the larger. *)
Definition round_half_up (a b : Z) : Z := (2 * a + b) / (2 * b).

(** [e] with [10^e <= a / b < 10^(e+1)], for [0 < a], [0 < b]. *)
Definition floor_log10 (a b : Z) : Z :=
  if b <=? a then len (digits (a / b)) - 1 else - len (digits ((b - 1) / a)).

(** The sign prefix of the number-to-string conversions. *)
Definition minus_if (neg : bool) : string := if neg then "-" else "".

(** **** [Number::toString]

    The shortest digit string [s] ([k] digits) and the exponent [n] with
    [s * 10^(n-k)] converting back to the number, nearest to it among the
    shortest. *)

(** The [k]-digit candidates around [a / b = x], [e = floor_log10 a b]:
    the nearest one that reads back as [x] (the even one of two equally
    near), with its [n]. *)
Definition shortest_at (x : float) (a b e k : Z) : option (Z * Z) :=
  let '(a', b') := scale10 a b (k - 1 - e) in
  let lo := a' / b' in
  let hi := lo + 1 in
  let back v := SFeqb (of_decimal false v (e - k + 1)) x in
  let pick := 
    match back lo, back hi with
    | true, true =>
        match (a' - lo * b') ?= (hi * b' - a') with
        | Lt => Some lo
        | Gt => Some hi
        | Eq => Some (if Z.even lo then lo else hi)
        end
    | true, false => Some lo
    | false, true => Some hi
    | false, false => None
    end in
  match pick with
  | Some v => Some (if v =? 10 ^ k then (10 ^ (k - 1), e + 2) else (v, e + 1))
  | None => None
  end.

Fixpoint shortest_from (fuel : nat) (x : float) (a b e k : Z) : Z * Z :=
  match fuel with
  | O => let '(a', b') := scale10 a b (k - 1 - e) in (round_half_up a' b', e + 1)
  | S fuel' =>
      match shortest_at x a b e k with
      | Some r => r
      | None => shortest_from fuel' x a b e (k + 1)
      end
  end.

(** [toString] of a positive finite number [m * 2^e]. *)
Definition toString_pos (m : positive) (e : Z) : string :=
  let x := S754_finite false m e in
  let '(_, a, b) := real_of x in
  let '(s, n) := shortest_from 17 x a b (floor_log10 a b) 1 in
  let ds := digits s in
  let k := len ds in
  if (k <=? n) && (n <=? 21) then ds +:+ zeros (n - k)
  else if (0 <? n) && (n <=? 21) then sub 0 n ds +:+ "." +:+ sub n (k - n) ds
  else if (-6 <? n) && (n <=? 0) then "0." +:+ zeros (- n) +:+ ds
  else
    let c := if n - 1 <? 0 then "-" else "+" in
    let ex := digits (Z.abs (n - 1)) in
    if k =? 1 then ds +:+ "e" +:+ c +:+ ex
    else sub 0 1 ds +:+ "." +:+ sub 1 (k - 1) ds +:+ "e" +:+ c +:+ ex.

(** [x.toString()] *)
Definition toString (x : float) : string :=
  match x with
  | S754_nan => "NaN"
  | S754_zero _ => "0"
  | S754_infinity s => minus_if s +:+ "Infinity"
  | S754_finite s m e => minus_if s +:+ toString_pos m e
  end.

(** **** [Number.prototype.toPrecision]

    The [p] digits [m] and the exponent [e] of step 10: [n * 10^(e-p+1)]
    nearest to [a / b], the larger of two. *)
Definition precision_digits (p a b : Z) : string * Z :=
  if a =? 0 then (zeros p, 0)
  else
    let e := floor_log10 a b in
    let '(a', b') := scale10 a b (p - 1 - e) in
    let n := round_half_up a' b' in
    if n =? 10 ^ p then (digits (10 ^ (p - 1)), e + 1) else (digits n, e).

(** [x.toPrecision(p)] for [1 <= p <= 100]. *)
Definition toPrecision (x : float) (p : Z) : string :=
  if negb (isFinite x) then toString x
  else
    let '(neg, a, b) := real_of x in
    let '(m, e) := precision_digits p a b in
    if (e <? -6) || (p <=? e) then
      let m' := if p =? 1 then m else sub 0 1 m +:+ "." +:+ sub 1 (p - 1) m in
      let '(c, e') := if 0 <? e then ("+", e) else ("-", - e) in
      minus_if neg +:+ m' +:+ "e" +:+ c +:+ digits e'
    else if e =? p - 1 then minus_if neg +:+ m
    else if 0 <=? e then
      minus_if neg +:+ sub 0 (e + 1) m +:+ "." +:+ sub (e + 1) (p - (e + 1)) m
    else minus_if neg +:+ "0." +:+ zeros (- (e + 1)) +:+ m.

(** **** [Number.prototype.toFixed]

    Steps 11.a to 11.c: the digits of the integer [n] nearest to
    [(a / b) * 10^f], padded and split by the decimal point. *)
Definition fixed_digits (f a b : Z) : string :=
  let n := round_half_up (a * 10 ^ f) b in
  let m := digits n in
  if f =? 0 then m
  else
    let m := if len m <=? f then zeros (f + 1 - len m) +:+ m else m in
    let k := len m in
    sub 0 (k - f) m +:+ "." +:+ sub (k - f) f m.

(** [x.toFixed(f)] for [0 <= f <= 100]. *)
Definition toFixed (x : float) (f : Z) : string :=
  if negb (isFinite x) then toString x
  else
    let '(neg, a, b) := real_of x in
    if b * 10 ^ 21 <=? a then minus_if neg +:+ toString (SFabs x)
    else minus_if neg +:+ fixed_digits f a b.

(** *** The regular expressions of the program *)

(** One or more ["0"], and nothing else: the whole of [s] matches [0+]. *)
Fixpoint zeros_only (s : string) : bool :=
  match s with
  | String c r =>
      Ascii.eqb c "0"
      && match r with
         | EmptyString => true
         | String _ _ => zeros_only r
         end
  | EmptyString => false
  end.

(** The whole of [s] matches [\.?0+]. *)
Definition dot_zeros (s : string) : bool :=
  match s with
  | String c r => if Ascii.eqb c "." then zeros_only r else zeros_only s
  | EmptyString => false
  end.

(** [s.replace(/\.?0+$/, "")]: the leftmost position from which the rest
    of the string matches is where the string is cut. *)
Fixpoint replace_dot_zeros_end (s : string) : string :=
  if dot_zeros s then EmptyString
  else
    match s with
    | String c r => String c (replace_dot_zeros_end r)
    | EmptyString => EmptyString
    end.

(** [/^\d|\./.test(s)]: [s] starts with a digit, or has a dot anywhere. *)
Definition test_digit_start_or_dot (s : string) : bool :=
  match s with
  | String c _ => is_digit c || includes s "."
  | EmptyString => false
  end.

End JS.

Import JS.

(** ** The program state

    The four module-level variables of [app.js], and the two DOM nodes it
    writes ([#expression], [#result] and the latter's [error] class). *)

Record Session : Type := mkSession {
  expressionTokens : list string;   (* tokens of numbers and operators *)
  currentInput : string;            (* active number being typed *)
  lastResult : option float;        (* [null] is [None] *)
  isError : bool
}.

Record Display : Type := mkDisplay {
  exprText : string;                (* exprEl.textContent *)
  resText : string;                 (* resEl.textContent *)
  resErrorClass : bool              (* resEl has the class "error" *)
}.

Record Calc : Type := mkCalc {
  vars : Session;
  screen : Display
}.

Definition set_vars (s : Session) (c : Calc) : Calc :=
  {| vars := s; screen := screen c |}.

Definition with_tokens (t : list string) (s : Session) : Session :=
  {| expressionTokens := t; currentInput := currentInput s;
     lastResult := lastResult s; isError := isError s |}.

Definition with_input (i : string) (s : Session) : Session :=
  {| expressionTokens := expressionTokens s; currentInput := i;
     lastResult := lastResult s; isError := isError s |}.

Definition with_result (r : option float) (s : Session) : Session :=
  {| expressionTokens := expressionTokens s; currentInput := currentInput s;
     lastResult := r; isError := isError s |}.

Definition with_error (e : bool) (s : Session) : Session :=
  {| expressionTokens := expressionTokens s; currentInput := currentInput s;
     lastResult := lastResult s; isError := e |}.

(** *** Arrays and strings as the program uses them *)

(** A string in a condition: true when not empty. *)
Definition truthy (s : string) : bool :=
  match s with
  | EmptyString => false
  | String _ _ => true
  end.

(** [a.length] *)
Definition alen (a : list string) : Z := Z.of_nat (length a).

(** [a[i]]; [None] is [undefined]. *)
Definition aget (a : list string) (i : Z) : option string :=
  if i <? 0 then None else a !! Z.to_nat i.

(** [a[i] = v].  The program assigns only at [a.length - 1] of a non-empty
    array; an assignment at [a.length] appends, and the other indices
    (which would create a property or holes) leave the elements alone. *)
Definition aset (a : list string) (i : Z) (v : string) : list string :=
  if i <? 0 then a
  else if i =? alen a then a ++ [v]
  else <[Z.to_nat i := v]> a.

(** [a.pop()], for its effect on [a]. *)
Definition apop (a : list string) : list string := removelast a.

(** [["+", "-", "*", "/"].includes(t)] *)
Definition is_operator (t : string) : bool :=
  String.eqb t "+" || String.eqb t "-" || String.eqb t "*" || String.eqb t "/".

(** The same test on the result of an array read. *)
Definition is_operator_at (t : option string) : bool :=
  match t with
  | Some t => is_operator t
  | None => false
  end.

(** *** roundSmart *)

Definition maxDigits_default : Z := 12.

(** [roundSmart(n, maxDigits)] *)
Definition roundSmart_digits (n : float) (maxDigits : Z) : string :=
  let s := toPrecision n (Z.min maxDigits 15) in
  let num := Number s in
  if negb (isFinite num) then toString n
  else
    let fixed := toFixed num 12 in
    replace_dot_zeros_end fixed.

(** [roundSmart(n)] *)
Definition roundSmart (n : float) : string := roundSmart_digits n maxDigits_default.

(** *** Display helpers *)

Definition updateDisplay (c : Calc) : Calc :=
  let s := vars c in
  let exprText := join " " (expressionTokens s) in
  {| vars := s;
     screen :=
       {| exprText := exprText;
          resText :=
            if isError s then "Error"
            else if truthy (currentInput s) then currentInput s
            else match lastResult s with
                 | Some r => roundSmart r
                 | None => "0"
                 end;
          resErrorClass := isError s |} |}.

Definition clearAll (c : Calc) : Calc :=
  updateDisplay
    (set_vars {| expressionTokens := []; currentInput := "";
                 lastResult := None; isError := false |} c).

Definition clearEntry (c : Calc) : Calc :=
  if isError (vars c) then c
  else updateDisplay (set_vars (with_input "" (vars c)) c).

Definition backspace (c : Calc) : Calc :=
  let s := vars c in
  if isError s then c
  else
    let s' :=
      if truthy (currentInput s) then with_input (slice_0_m1 (currentInput s)) s
      else if negb (alen (expressionTokens s) =? 0) then
        match aget (expressionTokens s) (alen (expressionTokens s) - 1) with
        | Some last =>
            if test_digit_start_or_dot last
            then with_tokens (apop (expressionTokens s))
                   (with_input (slice_0_m1 last) s)
            else with_tokens (apop (expressionTokens s)) s
        | None => s
        end
      else s in
    updateDisplay (set_vars s' c).

Definition appendDigit (d : string) (c : Calc) : Calc :=
  let s := vars c in
  if isError s then c
  else
    (* Prevent leading zeros like "00" *)
    let s' :=
      if String.eqb (currentInput s) "0" && negb (String.eqb d ".")
      then with_input d s
      else with_input (currentInput s +:+ d) s in
    updateDisplay (set_vars s' c).

Definition appendDot (c : Calc) : Calc :=
  let s := vars c in
  if isError s then c
  else if negb (includes (currentInput s) ".") then
    updateDisplay
      (set_vars
         (with_input (if truthy (currentInput s) then currentInput s +:+ "."
                      else "0.") s) c)
  else c.

Definition negate (c : Calc) : Calc :=
  let s := vars c in
  if isError s then c
  else
    let s' :=
      if truthy (currentInput s) then
        if startsWith (currentInput s) "-"
        then with_input (slice_1 (currentInput s)) s
        else with_input ("-" +:+ currentInput s) s
      else
        (* If no current input, toggle last result (preview) *)
        match lastResult s with
        | Some r => with_result (Some (fneg r)) s
        | None => s
        end in
    updateDisplay (set_vars s' c).

(** Commit current input to tokens *)
Definition commitCurrent (s : Session) : Session :=
  if negb (String.eqb (currentInput s) "")
  then with_input "" (with_tokens (expressionTokens s ++ [currentInput s]) s)
  else s.

(** *** Percentage *)

(** [parseFloat(a[i])]; [parseFloat(undefined)] is [NaN]. *)
Definition parseFloat_at (t : option string) : float :=
  match t with
  | Some t => parseFloat t
  | None => S754_nan
  end.

(** [A] and [op] after the test on [prevNum] and [prevOp]; [None] when
    both are left [null]. *)
Definition governing (prevOp prevTok : option string) : option (float * string) :=
  let prevNum := parseFloat_at prevTok in
  match prevOp with
  | Some op => if isFinite prevNum && is_operator op then Some (prevNum, op) else None
  | None => None
  end.

Definition hundred : float := of_Z 100.

(** [transformed] of [applyPercent], from the context and [B]. *)
Definition percent_of (ctx : option (float * string)) (B : float) : float :=
  match ctx with
  | Some (A, op) =>
      if String.eqb op "+" || String.eqb op "-"
      then fmul A (fdiv B hundred)      (* percentage of A *)
      else fdiv B hundred               (* with * or / *)
  | None => fdiv B hundred              (* standalone *)
  end.

Definition applyPercent (c : Calc) : Calc :=
  let s := vars c in
  let tokens := expressionTokens s in
  if isError s then c
  else if negb (String.eqb (currentInput s) "") then
    (* We have B in currentInput *)
    let B := parseFloat (currentInput s) in
    if negb (isFinite B) then c
    else
      let ctx :=
        if 2 <=? alen tokens
        then governing (aget tokens (alen tokens - 1))
                       (aget tokens (alen tokens - 2))
        else None in
      updateDisplay
        (set_vars (with_input (roundSmart (percent_of ctx B)) s) c)
  else if negb (alen tokens =? 0) then
    (* If no current input, apply to last numeric token *)
    match aget tokens (alen tokens - 1) with
    | Some last =>
        if negb (is_operator last) then
          let B := parseFloat last in
          if negb (isFinite B) then c
          else
            let ctx :=
              if 3 <=? alen tokens
              then governing (aget tokens (alen tokens - 2))
                             (aget tokens (alen tokens - 3))
              else None in
            updateDisplay
              (set_vars
                 (with_tokens
                    (aset tokens (alen tokens - 1) (roundSmart (percent_of ctx B))) s)
                 c)
        else c
    | None => c
    end
  else c.

(** Operator handling including % *)
Definition pushOperator (op : string) (c : Calc) : Calc :=
  let s := vars c in
  if isError s then c
  else if String.eqb op "%" then applyPercent c
  else if (alen (expressionTokens s) =? 0) && negb (truthy (currentInput s)) then
    (* If there's no number yet, allow leading minus for negative *)
    if String.eqb op "-" then updateDisplay (set_vars (with_input "-" s) c)
    else c
  else
    (* Commit any current number *)
    let s1 := commitCurrent s in
    let tokens := expressionTokens s1 in
    (* Avoid duplicate operators *)
    let last := aget tokens (alen tokens - 1) in
    let tokens' :=
      if is_operator_at last then aset tokens (alen tokens - 1) op
      else tokens ++ [op] in
    updateDisplay (set_vars (with_tokens tokens' s1) c).

(** *** Expression evaluation

    [{ ok: false, error }] and [{ ok: true, ... }]. *)

Variant error : Type :=
  | MalformedExpression      (* "Malformed expression" *)
  | InvalidNumber            (* "Invalid number" *)
  | DivisionByZero           (* "Division by zero" *)
  | UnknownOperator          (* "Unknown operator" *)
  | Overflow.                (* "Overflow" *)

Inductive res (A : Type) : Type :=
  | Done (a : A)
  | Fail (e : error).

Arguments Done {A} a.
Arguments Fail {A} e.

(** Failures propagate: [if (!res.ok) return res]. *)
#[global] Instance res_bind : MBind res := fun A B k r =>
  match r with
  | Done a => k a
  | Fail e => Fail e
  end.

(** [precedence[op]].  The program looks up operators only; [None] is what
    any other look-up gives ([undefined], or a property inherited from
    [Object.prototype]), which compares false with every number. *)
Definition precedence (op : string) : option Z :=
  if String.eqb op "+" then Some 1
  else if String.eqb op "-" then Some 1
  else if String.eqb op "*" then Some 2
  else if String.eqb op "/" then Some 2
  else None.

(** [x >= y] on two precedence look-ups; false when one is [undefined]. *)
Definition prec_ge (x y : option Z) : bool :=
  match x, y with
  | Some a, Some b => b <=? a
  | _, _ => false
  end.

(** The two stacks [output] and [ops] are lists whose head is the top
    (the last element of the array). *)

(** [applyOp(op)] as a function of [output]: the new [output], or the
    failure returned. *)
Definition applyOp (op : string) (output : list float) : res (list float) :=
  match output with
  | b :: a :: output' =>
      if negb (isFinite a) || negb (isFinite b) then Fail InvalidNumber
      else if String.eqb op "+" then Done (fadd a b :: output')
      else if String.eqb op "-" then Done (fsub a b :: output')
      else if String.eqb op "*" then Done (fmul a b :: output')
      else if String.eqb op "/" then
        if strict_eq b pos_zero then Fail DivisionByZero
        else Done (fdiv a b :: output')
      else Fail UnknownOperator
  | _ => Fail MalformedExpression
  end.

(** The [while] loop run when the operator [t] is read. *)
Fixpoint unwind (t : string) (output : list float) (ops : list string)
  : res (list float * list string) :=
  match ops with
  | top :: ops' =>
      if prec_ge (precedence top) (precedence t) then
        output' ← applyOp top output;
        unwind t output' ops'
      else Done (output, ops)
  | [] => Done (output, ops)
  end.

(** One turn of the [for] loop. *)
Definition scan_token (t : string) (st : list float * list string)
  : res (list float * list string) :=
  let '(output, ops) := st in
  if is_operator t then
    '(output', ops') ← unwind t output ops;
    Done (output', t :: ops')
  else
    let n := Number t in
    if negb (isFinite n) then Fail InvalidNumber
    else Done (n :: output, ops).

(** The [for] loop over [tokens]. *)
Fixpoint scan (tokens : list string) (st : list float * list string)
  : res (list float * list string) :=
  match tokens with
  | t :: tokens' => st' ← scan_token t st; scan tokens' st'
  | [] => Done st
  end.

(** The final [while (ops.length)] loop. *)
Fixpoint drain (output : list float) (ops : list string) : res (list float) :=
  match ops with
  | top :: ops' => output' ← applyOp top output; drain output' ops'
  | [] => Done output
  end.

Definition evaluateTokens (tokens : list string) : res float :=
  '(output, ops) ← scan tokens ([], []);
  output ← drain output ops;
  match output with
  | [value] => if negb (isFinite value) then Fail Overflow else Done value
  | _ => Fail MalformedExpression
  end.

Definition equals (c : Calc) : Calc :=
  let s := vars c in
  if isError s then c
  else
    (* Commit any pending number *)
    let s := commitCurrent s in
    (* Avoid trailing operator *)
    let last := aget (expressionTokens s) (alen (expressionTokens s) - 1) in
    let s := if is_operator_at last then with_tokens (apop (expressionTokens s)) s
             else s in
    if alen (expressionTokens s) =? 0 then
      updateDisplay
        (set_vars
           (with_result (Some (match lastResult s with
                               | Some r => r
                               | None => pos_zero
                               end)) s) c)
    else
      match evaluateTokens (expressionTokens s) with
      | Fail _ =>
          updateDisplay (set_vars (with_result None (with_error true s)) c)
      | Done value =>
          (* After equals, set expression to the result *)
          updateDisplay
            (set_vars
               (with_input ""
                  (with_tokens [roundSmart value] (with_result (Some value) s)))
               c)
      end.

(** *** Keyboard support *)

(** [/\d/.test(k)]: a digit anywhere in [k]. *)
Fixpoint test_digit (k : string) : bool :=
  match k with
  | String c r => is_digit c || test_digit r
  | EmptyString => false
  end.

(** [handleKey(e)], as a function of [e.key]. *)
Definition handleKey (k : string) (c : Calc) : Calc :=
  if test_digit k then appendDigit k c
  else if String.eqb k "." then appendDot c
  else if String.eqb k "+" then pushOperator "+" c
  else if String.eqb k "-" then pushOperator "-" c
  else if String.eqb k "*" then pushOperator "*" c
  else if String.eqb k "/" then pushOperator "/" c
  else if String.eqb k "%" then applyPercent c
  else if String.eqb k "Enter" || String.eqb k "=" then equals c
  else if String.eqb k "Escape" then clearAll c
  else if String.eqb k "Backspace" then backspace c
  else c.

(** *** Click handling

    The listener of a button, as a function of its [data-action] and
    [data-value] ([None] is [undefined]). *)
Definition click (action val : option string) (c : Calc) : Calc :=
  let action_is a := match action with
              | Some x => String.eqb x a
              | None => false
              end in
  if action_is "ac" then clearAll c
  else if action_is "clear" then clearEntry c
  else if action_is "backspace" then backspace c
  else if action_is "dot" then appendDot c
  else if action_is "negate" then negate c
  else if action_is "equals" then equals c
  else
    match val with
    | Some v =>
        if is_operator v || String.eqb v "%" then pushOperator v c
        else appendDigit v c
    | None => c
    end.

(** *** Events

    The buttons of the keypad: the digits, the dot, the four operators,
    percent, equals, clear-all, clear-entry, backspace and the sign
    toggle.  A digit or operator button carries it as its [data-value],
    the other buttons have a [data-action]. *)

Variant event : Type :=
  | EvDigit (d : ascii)
  | EvDot
  | EvOperator (op : string)
  | EvPercent
  | EvEquals
  | EvClearAll
  | EvClearEntry
  | EvBackspace
  | EvNegate.

Definition string_of_char (c : ascii) : string := String c EmptyString.

Definition handle (e : event) (c : Calc) : Calc :=
  match e with
  | EvDigit d => click None (Some (string_of_char d)) c
  | EvDot => click (Some "dot") None c
  | EvOperator op => click None (Some op) c
  | EvPercent => click None (Some "%") c
  | EvEquals => click (Some "equals") None c
  | EvClearAll => click (Some "ac") None c
  | EvClearEntry => click (Some "clear") None c
  | EvBackspace => click (Some "backspace") None c
  | EvNegate => click (Some "negate") None c
  end.

(** An event the page can send: digits are [0]..[9], operators are the
    four of the keypad. *)
Definition event_ok (e : event) : bool :=
  match e with
  | EvDigit d => is_digit d
  | EvOperator op => is_operator op
  | _ => true
  end.

(** The state after the events of [es], oldest first. *)
Definition run (es : list event) (c : Calc) : Calc :=
  fold_left (fun c e => handle e c) es c.

(** The page before the script runs: the variables as initialised, the
    two nodes empty. *)
Definition loaded : Calc :=
  {| vars := {| expressionTokens := []; currentInput := "";
                lastResult := None; isError := false |};
     screen := {| exprText := ""; resText := ""; resErrorClass := false |} |}.

(** [// Initialize]: the state once the script has run. *)
Definition initial : Calc := clearAll loaded.

(** ** The evaluator on the heap

    A second embedding of [evaluateTokens], for what it reads and writes.
    Arrays live on a heap and are passed by reference: [expressionTokens]
    holds the address of its array, and [evaluateTokens(tokens)] receives
    an address.  The two arrays it creates, [output] and [ops], are
    allocated on the same heap, and [push] and [pop] write there. *)

Module Heap.

(** What an array element or an array read can be. *)
Variant jsval : Type :=
  | VUndefined
  | VStr (s : string)
  | VNum (x : float).

Record World : Type := mkWorld {
  arrays : list (list jsval);        (* the arrays, by address *)
  ref_expressionTokens : nat;        (* the address the variable holds *)
  var_currentInput : string;
  var_lastResult : option float;
  var_isError : bool
}.

Definition with_arrays (h : list (list jsval)) (w : World) : World :=
  {| arrays := h; ref_expressionTokens := ref_expressionTokens w;
     var_currentInput := var_currentInput w;
     var_lastResult := var_lastResult w; var_isError := var_isError w |}.

(** A computation on the world that returns a value or fails
    ([return { ok: false, error }]); the world goes on either way. *)
Definition M (A : Type) : Type := World -> res A * World.

Definition ret {A : Type} (a : A) : M A := fun w => (Done a, w).

Definition fail {A : Type} (e : error) : M A := fun w => (Fail e, w).

Definition bindM {A B : Type} (m : M A) (k : A -> M B) : M B :=
  fun w =>
    match m w with
    | (Done a, w') => k a w'
    | (Fail e, w') => (Fail e, w')
    end.

Notation "x <~ m ;; k" := (bindM m (fun x => k))
  (at level 62, m at next level, right associativity).

Definition content (w : World) (a : nat) : list jsval :=
  match arrays w !! a with
  | Some l => l
  | None => []
  end.

(** [[]]: a new array at the next address. *)
Definition new_array : M nat :=
  fun w => (Done (length (arrays w)), with_arrays (arrays w ++ [[]]) w).

(** [a.length] *)
Definition array_length (a : nat) : M Z :=
  fun w => (Done (Z.of_nat (length (content w a))), w).

(** [a[i]] *)
Definition array_get (a : nat) (i : Z) : M jsval :=
  fun w =>
    (Done (if i <? 0 then VUndefined
           else match content w a !! Z.to_nat i with
                | Some v => v
                | None => VUndefined
                end), w).

(** [a.push(v)] *)
Definition array_push (a : nat) (v : jsval) : M unit :=
  fun w => (Done tt, with_arrays (alter (fun l => l ++ [v]) a (arrays w)) w).

(** [a.pop()] *)
Definition array_pop (a : nat) : M jsval :=
  fun w =>
    (Done (match last (content w a) with
           | Some v => v
           | None => VUndefined
           end),
     with_arrays (alter (fun l => removelast l) a (arrays w)) w).

(** [Number(v)] *)
Definition to_number (v : jsval) : float :=
  match v with
  | VNum x => x
  | VStr s => Number s
  | VUndefined => S754_nan
  end.

(** [Number.isFinite(v)]: false for what is not a number. *)
Definition is_finite_number (v : jsval) : bool :=
  match v with
  | VNum x => isFinite x
  | _ => false
  end.

(** [["+", "-", "*", "/"].includes(v)] *)
Definition is_operator_val (v : jsval) : bool :=
  match v with
  | VStr s => is_operator s
  | _ => false
  end.

(** [precedence[v]] *)
Definition precedence_val (v : jsval) : option Z :=
  match v with
  | VStr s => precedence s
  | _ => None
  end.

(** [v === s] for a string literal [s]. *)
Definition is_string (v : jsval) (s : string) : bool :=
  match v with
  | VStr t => String.eqb t s
  | _ => false
  end.

Definition applyOp (output : nat) (op : jsval) : M unit :=
  n <~ array_length output ;;
  if n <? 2 then fail MalformedExpression
  else
    b <~ array_pop output ;;
    a <~ array_pop output ;;
    let b := to_number b in
    let a := to_number a in
    if negb (isFinite a) || negb (isFinite b) then fail InvalidNumber
    else if is_string op "+" then array_push output (VNum (fadd a b))
    else if is_string op "-" then array_push output (VNum (fsub a b))
    else if is_string op "*" then array_push output (VNum (fmul a b))
    else if is_string op "/" then
      if strict_eq b pos_zero then fail DivisionByZero
      else array_push output (VNum (fdiv a b))
    else fail UnknownOperator.

(** [while (ops.length && precedence[ops[ops.length - 1]] >= precedence[t])];
    every turn pops [ops], so its length bounds the turns. *)
Fixpoint unwind (turns : nat) (output ops : nat) (t : jsval) : M unit :=
  match turns with
  | O => ret tt
  | S turns' =>
      n <~ array_length ops ;;
      if n =? 0 then ret tt
      else
        top <~ array_get ops (n - 1) ;;
        if prec_ge (precedence_val top) (precedence_val t) then
          op <~ array_pop ops ;;
          _ <~ applyOp output op ;;
          unwind turns' output ops t
        else ret tt
  end.

(** [for (let i = 0; i < tokens.length; i++)], from [i]; the length of
    [tokens] bounds the turns. *)
Fixpoint scan (turns : nat) (tokens output ops : nat) (i : Z) : M unit :=
  match turns with
  | O => ret tt
  | S turns' =>
      n <~ array_length tokens ;;
      if i <? n then
        t <~ array_get tokens i ;;
        _ <~ (if is_operator_val t then
                k <~ array_length ops ;;
                _ <~ unwind (Z.to_nat k) output ops t ;;
                array_push ops t
              else
                let n := to_number t in
                if negb (isFinite n) then fail InvalidNumber
                else array_push output (VNum n)) ;;
        scan turns' tokens output ops (i + 1)
      else ret tt
  end.

(** [while (ops.length)] *)
Fixpoint drain (turns : nat) (output ops : nat) : M unit :=
  match turns with
  | O => ret tt
  | S turns' =>
      n <~ array_length ops ;;
      if n =? 0 then ret tt
      else
        op <~ array_pop ops ;;
        _ <~ applyOp output op ;;
        drain turns' output ops
  end.

Definition evaluateTokens (tokens : nat) : M float :=
  output <~ new_array ;;
  ops <~ new_array ;;
  n <~ array_length tokens ;;
  _ <~ scan (Z.to_nat n) tokens output ops 0 ;;
  k <~ array_length ops ;;
  _ <~ drain (Z.to_nat k) output ops ;;
  m <~ array_length output ;;
  if negb (m =? 1) then fail MalformedExpression
  else
    value <~ array_get output 0 ;;
    if negb (is_finite_number value) then fail Overflow
    else ret (to_number value).

(** The world in which [expressionTokens] is the array [tokens], alone on
    the heap. *)
Definition world_of (s : Session) : World :=
  {| arrays := [map VStr (expressionTokens s)];
     ref_expressionTokens := 0%nat;
     var_currentInput := currentInput s;
     var_lastResult := lastResult s;
     var_isError := isError s |}.

(** The world [w0] with the two arrays of a call in progress behind its
    own: [output] at the address [length (arrays w0)] and [ops] at the
    next, holding the stacks [out] and [stack] (the head of a stack is the
    end of its array). *)
Definition during (w0 : World) (out : list float) (stack : list string) : World :=
  with_arrays (arrays w0 ++ [map VNum (rev out); map VStr (rev stack)]) w0.

(** The run [r] of a heap computation does what the stack computation [p]
    does: the same failure, or the stacks [p] returns in the two arrays. *)
Definition tracks (w0 : World) (r : res unit * World)
    (p : res (list float * list string)) : Prop :=
  match p with
  | Done (out, stack) => r = (Done tt, during w0 out stack)
  | Fail e => exists out stack, r = (Fail e, during w0 out stack)
  end.

End Heap.

(** ** Notions used to state the properties *)

(** The variables as [clearAll] leaves them. *)
Definition cleared : Session :=
  {| expressionTokens := []; currentInput := "";
     lastResult := None; isError := false |}.

(** The token sequence [equals] evaluates: the pending number committed,
    a trailing operator removed. *)
Definition finalTokens (s : Session) : list string :=
  let s := commitCurrent s in
  let tokens := expressionTokens s in
  if is_operator_at (aget tokens (alen tokens - 1)) then apop tokens else tokens.

(** Two operator tokens next to each other. *)
Fixpoint adjacent_operators (tokens : list string) : bool :=
  match tokens with
  | a :: (b :: _) as rest => (is_operator a && is_operator b) || adjacent_operators rest
  | _ => false
  end.

(** What is left to delete: the code units of the pending number and, for
    every committed token, its code units and the token itself. *)
Definition weight (s : Session) : nat :=
  (String.length (currentInput s)
   + list_sum (map (fun t => S (String.length t)) (expressionTokens s)))%nat.

(** *** The expression a token sequence stands for

    The grammar of the precedence rules, as trees:
    [term ::= number | term mulop number] and
    [sum ::= term | sum addop term], with [mulop] one of [*], [/] and
    [addop] one of [+], [-].  A [+] or [-] never sits under a
    [*] or [/] (these bind tighter), and the right operand of an operator
    is never an operator of the same level (equal levels associate to the
    left). *)

Inductive expr : Type :=
  | Num (t : string)
  | Bin (op : string) (l r : expr).

Definition multiplicative (op : string) : bool :=
  String.eqb op "*" || String.eqb op "/".

Definition additive (op : string) : bool :=
  String.eqb op "+" || String.eqb op "-".

Fixpoint term_shape (e : expr) : bool :=
  match e with
  | Num t => negb (is_operator t)
  | Bin op l (Num t) => multiplicative op && term_shape l && negb (is_operator t)
  | Bin _ _ (Bin _ _ _) => false
  end.

Fixpoint sum_shape (e : expr) : bool :=
  term_shape e
  || match e with
     | Bin op l r => additive op && sum_shape l && term_shape r
     | Num _ => false
     end.

(** The tokens of an expression, left to right. *)
Fixpoint tokens_of (e : expr) : list string :=
  match e with
  | Num t => [t]
  | Bin op l r => tokens_of l ++ op :: tokens_of r
  end.

(** [a op b], with the failures of an application: an operand that is not
    finite, a division by zero. *)
Definition apply_binary (op : string) (a b : float) : res float :=
  if negb (isFinite a) || negb (isFinite b) then Fail InvalidNumber
  else if String.eqb op "+" then Done (fadd a b)
  else if String.eqb op "-" then Done (fsub a b)
  else if String.eqb op "*" then Done (fmul a b)
  else if String.eqb op "/" then
    if strict_eq b pos_zero then Fail DivisionByZero else Done (fdiv a b)
  else Fail UnknownOperator.

(** The value of an expression: left operand, right operand, then the
    operator. *)
Fixpoint value (e : expr) : res float :=
  match e with
  | Num t => if isFinite (Number t) then Done (Number t) else Fail InvalidNumber
  | Bin op l r => a ← value l; b ← value r; apply_binary op a b
  end.

(** The result of an expression: its value, which has to be finite. *)
Definition result_of (e : expr) : res float :=
  v ← value e; if isFinite v then Done v else Fail Overflow.

(** *** Reading an infix sequence as an expression

    [number (operator number)*], read left to right: [sum] is the sum read
    so far with the [+] or [-] after it, [term] the term being read. *)

Definition close_sum (sum : option (expr * string)) (term : expr) : expr :=
  match sum with
  | Some (e, op) => Bin op e term
  | None => term
  end.

Fixpoint parse_rest (sum : option (expr * string)) (term : expr)
    (rest : list string) : option expr :=
  match rest with
  | [] => Some (close_sum sum term)
  | op :: t :: rest' =>
      if is_operator t then None
      else if multiplicative op then parse_rest sum (Bin op term (Num t)) rest'
      else if additive op then
        parse_rest (Some (close_sum sum term, op)) (Num t) rest'
      else None
  | [_] => None
  end.

Definition parse (tokens : list string) : option expr :=
  match tokens with
  | t :: rest => if is_operator t then None else parse_rest None (Num t) rest
  | [] => None
  end.

(** [operator number] pairs, to the end. *)
Fixpoint operator_number_pairs (rest : list string) : bool :=
  match rest with
  | [] => true
  | op :: t :: rest' =>
      is_operator op && negb (is_operator t) && operator_number_pairs rest'
  | [_] => false
  end.

(** A number, then [operator number] pairs. *)
Definition infix (tokens : list string) : bool :=
  match tokens with
  | t :: rest => negb (is_operator t) && operator_number_pairs rest
  | [] => false
  end.

(** The tokens before the operand of a percentage give it no [A]: there
    are fewer than two, or the two last are not a finite number followed
    by an operator. *)
Definition ungoverned (before : list string) : Prop :=
  (length before < 2)%nat
  \/ exists pre a op,
       before = pre ++ [a; op]
       /\ (isFinite (parseFloat a) = false \/ is_operator op = false).

(** *** Trailing zeros, in words *)

(** [s] without the ["0"]s at its end. *)
Fixpoint strip_zeros_end (s : string) : string :=
  match s with
  | String c r =>
      match strip_zeros_end r with
      | EmptyString =>
          if Ascii.eqb c "0" then EmptyString else String c EmptyString
      | r' => String c r'
      end
  | EmptyString => EmptyString
  end.

(** [s] without a ["."] at its end. *)
Fixpoint strip_point_end (s : string) : string :=
  match s with
  | String c EmptyString => if Ascii.eqb c "." then EmptyString else s
  | String c r => String c (strip_point_end r)
  | EmptyString => EmptyString
  end.

(** A number written with a decimal point, without the zeros at the end
    of its fraction and without a decimal point left at its end. *)
Definition drop_trailing_zeros_and_point (s : string) : string :=
  if includes s "." then strip_point_end (strip_zeros_end s) else s.

Fixpoint all_digits (s : string) : bool :=
  match s with
  | String c r => is_digit c && all_digits r
  | EmptyString => true
  end.

(** [|x| < 10^21]: where [toFixed] writes all the digits. *)
Definition below_1e21 (x : float) : bool :=
  let '(_, a, b) := real_of x in a <? b * 10 ^ 21.

(** The significant digits of a number written in digits with an optional
    sign and decimal point: its digits, between the first and the last
    that is not zero. *)
Fixpoint digits_only (s : string) : string :=
  match s with
  | String c r => if is_digit c then String c (digits_only r) else digits_only r
  | EmptyString => EmptyString
  end.

Fixpoint strip_zeros_start (s : string) : string :=
  match s with
  | String c r => if Ascii.eqb c "0" then strip_zeros_start r else s
  | EmptyString => EmptyString
  end.

Definition significant_digits (s : string) : nat :=
  String.length (strip_zeros_end (strip_zeros_start (digits_only s))).

(** *** What the page can send

    A click on a button, with the button's [data-action] and [data-value],
    or a key pressed, with its name. *)
Variant input : Type :=
  | Pressed (action val : option string)
  | Typed (k : string).

Definition react (i : input) (c : Calc) : Calc :=
  match i with
  | Pressed action val => click action val c
  | Typed k => handleKey k c
  end.

(** The state after the inputs of [inputs], oldest first, from the state
    the script starts in. *)
Definition reach (inputs : list input) : Calc :=
  fold_left (fun c i => react i c) inputs initial.

(** An input that calls [equals]. *)
Definition calls_equals (i : input) : bool :=
  match i with
  | Pressed (Some a) _ => String.eqb a "equals"
  | Pressed None _ => false
  | Typed k => String.eqb k "Enter" || String.eqb k "="
  end.

(** *** The number typed *)

(** The digits typed into an empty pending number, as the program keeps
    them: without the zeros typed first, one zero when only zeros were
    typed. *)
Definition typed (ds : list ascii) : string :=
  match ds with
  | [] => ""
  | _ :: _ =>
      match strip_zeros_start (string_of_list_ascii ds) with
      | EmptyString => "0"
      | r => r
      end
  end.

(** The integer part once the dot is pressed: ["0"] when no digit was
    typed. *)
Definition typed_integer (ds : list ascii) : string :=
  match ds with
  | [] => "0"
  | _ :: _ => typed ds
  end.

(** Events that write to the pending number only. *)
Definition types (e : event) : bool :=
  match e with
  | EvDigit d => is_digit d
  | EvDot => true
  | _ => false
  end.

(** *** Counting tokens *)

Definition count_operators (tokens : list string) : nat :=
  length (List.filter is_operator tokens).

Definition count_numbers (tokens : list string) : nat :=
  length (List.filter (fun t => negb (is_operator t)) tokens).

(** Every token is an operator or reads as a finite number. *)
Definition well_read (tokens : list string) : bool :=
  forallb (fun t => is_operator t || isFinite (Number t)) tokens.

(** [lastResult !== null ? lastResult : 0] *)
Definition result_or_zero (r : option float) : float :=
  match r with
  | Some r => r
  | None => pos_zero
  end.

(** *** The numeral [roundSmart] writes below 10^21

    A sign, digits, and a fraction after a point when there is one. *)
Definition numeral (sign int frac : string) : string :=
  sign +:+ int +:+ match frac with
                   | EmptyString => ""
                   | String _ _ => "." +:+ frac
                   end.

(** *** Sessions and expressions used as examples *)

(** 6 / 0 = *)
Definition after_division_by_zero : Calc :=
  run [EvDigit "6"; EvOperator "/"; EvDigit "0"; EvEquals] initial.

(** 5 typed, nothing committed yet. *)
Definition after_five : Calc := run [EvDigit "5"] initial.

(** 5 = *)
Definition after_five_equals : Calc := run [EvDigit "5"; EvEquals] initial.

(** 12 + 3, the 3 still pending. *)
Definition after_twelve_plus_three : Calc :=
  run [EvDigit "1"; EvDigit "2"; EvOperator "+"; EvDigit "3"] initial.

(** 3 + 5, sign toggled, one backspace, then the multiplication key. *)
Definition lone_minus_events : list event :=
  [EvDigit "3"; EvOperator "+"; EvDigit "5"; EvNegate; EvBackspace;
   EvOperator "*"].

(** - 5 + and one backspace: the committed tokens are ["-5"]. *)
Definition negative_token_events : list event :=
  [EvOperator "-"; EvDigit "5"; EvOperator "+"; EvBackspace].

(** 200 + 10, the 10 still pending. *)
Definition after_200_plus_10 : Calc :=
  run [EvDigit "2"; EvDigit "0"; EvDigit "0"; EvOperator "+";
       EvDigit "1"; EvDigit "0"] initial.

(** 50 pending, nothing committed. *)
Definition after_50 : Calc := run [EvDigit "5"; EvDigit "0"] initial.

(** The minus key pressed first: a lone "-" is pending. *)
Definition after_lone_minus : Calc := run [EvOperator "-"] initial.

(** . 0 0 0 0 0 0 0 0 0 0 1: the pending number is 0.00000000001. *)
Definition after_tiny_number : Calc :=
  run [EvDot; EvDigit "0"; EvDigit "0"; EvDigit "0"; EvDigit "0"; EvDigit "0";
       EvDigit "0"; EvDigit "0"; EvDigit "0"; EvDigit "0"; EvDigit "0";
       EvDigit "1"] initial.

(** 100000.1 typed, then equals. *)
Definition after_100000_1_equals : Calc :=
  run [EvDigit "1"; EvDigit "0"; EvDigit "0"; EvDigit "0"; EvDigit "0";
       EvDigit "0"; EvDot; EvDigit "1"; EvEquals] initial.

(** 12 + 75 and an operator, which backspace has removed: the committed
    tokens end with the number 75, nothing is pending. *)
Definition after_12_plus_75 : Calc :=
  run [EvDigit "1"; EvDigit "2"; EvOperator "+"; EvDigit "7"; EvDigit "5";
       EvOperator "*"; EvBackspace] initial.

(** 1e308 + 1e308 / 0 as the committed tokens: the sum overflows, the
    division comes first. *)
Definition overflowing_sum_then_division : Calc :=
  set_vars {| expressionTokens := ["1e308"; "+"; "1e308"; "/"; "0"];
              currentInput := ""; lastResult := None; isError := false |}
    initial.

(** 1e308 * 10 - 5 + 1 / 0: a sum of the grammar with a division by
    zero at its end, and an overflow before it. *)
Definition overflow_then_division : expr :=
  Bin "+" (Bin "-" (Bin "*" (Num "1e308") (Num "10")) (Num "5"))
          (Bin "/" (Num "1") (Num "0")).

(** *** The number a numeral stands for

    [value * 10^f] of the numeral [int . frac], for [frac] of at most [f]
    digits. *)
Definition scaled_value (int frac : string) (f : Z) : Z :=
  decimal_value (int +:+ frac) * 10 ^ (f - len frac).

(** [|x| * 10^12] rounded to the nearest integer, the larger of two. *)
Definition twelve_decimals (x : float) : Z :=
  let '(_, a, b) := real_of x in round_half_up (a * 10 ^ 12) b.

(** The sign of [x], as [real_of] gives it. *)
Definition negative (x : float) : bool := fst (fst (real_of x)).

(** *** A division by zero

    What [applyOp] returns for a division by zero, from the dividend:
    the operands are tested before the divisor is. *)
Definition divided_by_zero (a : float) : res float :=
  if isFinite a then Fail DivisionByZero else Fail InvalidNumber.

(** *** Notions used in the proofs *)

(** The end of the tokens, or an operator: where a pending [*] or [/] is
    applied. *)
Definition at_operator (rest : list string) : bool :=
  match rest with
  | t :: _ => is_operator t
  | [] => true
  end.

(** The end of the tokens, or [+] or [-]: where every pending operator is
    applied. *)
Definition at_additive (rest : list string) : bool :=
  match rest with
  | t :: _ => additive t
  | [] => true
  end.

(** No [*] or [/] on top of [ops]. *)
Definition quiet (ops : list string) : bool :=
  match ops with
  | top :: _ => negb (prec_ge (precedence top) (Some 2))
  | [] => true
  end.

(** The two last steps of [evaluateTokens], from the stacks after the
    [for] loop. *)
Definition finish (st : list float * list string) : res float :=
  let '(output, ops) := st in
  output ← drain output ops;
  match output with
  | [value] => if negb (isFinite value) then Fail Overflow else Done value
  | _ => Fail MalformedExpression
  end.

(** The operator [top], pending on [ops], is applied at [rest]: at the end
    of the tokens, or at an operator that does not bind tighter. *)
Definition yields (top : string) (rest : list string) : bool :=
  match rest with
  | t :: _ => is_operator t && prec_ge (precedence top) (precedence t)
  | [] => true
  end.

(** The parser's state: a sum and a [+] or [-], if any, and a term. *)
Definition parser_state (sum : option (expr * string)) (term : expr) : Prop :=
  term_shape term = true
  /\ match sum with
     | Some (e, op) => sum_shape e = true /\ additive op = true
     | None => True
     end.

(** * Properties *)

(** ** Arrays *)

Lemma alen_snoc (a : list string) (x : string) : alen (a ++ [x]) = alen a + 1.
Proof. unfold alen. rewrite length_app. simpl. lia. Qed.

Lemma aget_last (a : list string) (x : string) :
  aget (a ++ [x]) (alen (a ++ [x]) - 1) = Some x.
Proof.
  rewrite alen_snoc. unfold aget, alen.
  replace (Z.of_nat (length a) + 1 - 1) with (Z.of_nat (length a)) by lia.
  destruct (Z.ltb_spec (Z.of_nat (length a)) 0) as [Hneg|_]; [lia|].
  rewrite Nat2Z.id. apply list_lookup_middle. reflexivity.
Qed.

Lemma apop_snoc (a : list string) (x : string) : apop (a ++ [x]) = a.
Proof. apply removelast_last. Qed.

Lemma aset_last (a : list string) (x v : string) :
  aset (a ++ [x]) (alen (a ++ [x]) - 1) v = a ++ [v].
Proof.
  rewrite alen_snoc. unfold aset.
  replace (alen a + 1 - 1) with (alen a) by lia.
  destruct (Z.ltb_spec (alen a) 0) as [Hneg|_]; [unfold alen in Hneg; lia|].
  rewrite alen_snoc.
  destruct (Z.eqb_spec (alen a) (alen a + 1)) as [Heq|_]; [lia|].
  unfold alen. rewrite Nat2Z.id.
  replace (length a) with (length a + 0)%nat by lia.
  rewrite insert_app_r. reflexivity.
Qed.

Lemma alen_zero (a : list string) : (alen a =? 0) = true <-> a = [].
Proof.
  unfold alen. destruct a as [|x a]; simpl; split; intros H;
    try reflexivity; discriminate.
Qed.

(** A non-empty array is its [pop] followed by its last element. *)
Lemma array_snoc_cases (a : list string) :
  a = [] \/ exists a' x, a = a' ++ [x].
Proof.
  destruct a as [|y a] using rev_ind; [left; reflexivity|].
  right. exists a, y. reflexivity.
Qed.

(** Unfolding the record updates. *)
Ltac updates :=
  unfold set_vars, with_input, with_tokens, with_result, with_error in *;
  simpl in *.

(** ** The error state *)

(** C4.  While [isError] is set, every operation but [clearAll] returns at
    its first line: the variables and the display stay as they are.
    [clearAll] resets the variables, and so is the one way out. *)
Theorem error_state_is_absorbing (c : Calc) :
  isError (vars c) = true ->
  (forall d, appendDigit d c = c)
  /\ appendDot c = c
  /\ negate c = c
  /\ (forall op, pushOperator op c = c)
  /\ applyPercent c = c
  /\ equals c = c
  /\ clearEntry c = c
  /\ backspace c = c
  /\ (forall e, e <> EvClearAll -> handle e c = c)
  /\ vars (clearAll c) = cleared.
Proof.
  intros Herr.
  assert (Hdigit : forall d, appendDigit d c = c)
    by (intros d; unfold appendDigit; rewrite Herr; reflexivity).
  assert (Hop : forall op, pushOperator op c = c)
    by (intros op; unfold pushOperator; rewrite Herr; reflexivity).
  assert (Hdot : appendDot c = c) by (unfold appendDot; now rewrite Herr).
  assert (Hneg : negate c = c) by (unfold negate; now rewrite Herr).
  assert (Hpct : applyPercent c = c) by (unfold applyPercent; now rewrite Herr).
  assert (Heq : equals c = c) by (unfold equals; now rewrite Herr).
  assert (Hce : clearEntry c = c) by (unfold clearEntry; now rewrite Herr).
  assert (Hbs : backspace c = c) by (unfold backspace; now rewrite Herr).
  repeat split; try assumption.
  intros e Hne. destruct e; try contradiction; simpl; unfold click; simpl;
    try assumption; try apply Hop.
  destruct (is_operator (string_of_char d) || _); [apply Hop | apply Hdigit].
  destruct (is_operator op || _); [apply Hop | apply Hdigit].
Qed.

(** ** equals *)

Lemma commitCurrent_isError (s : Session) :
  isError (commitCurrent s) = isError s.
Proof. unfold commitCurrent. destruct (negb _); reflexivity. Qed.

Lemma evaluateTokens_nil : evaluateTokens [] = Fail MalformedExpression.
Proof. reflexivity. Qed.

(** C7.  When the finalised tokens evaluate to [v], [equals] stores [v] in
    [lastResult], leaves the single token [roundSmart v] and empties the
    pending number; typing 5 = + 3 = from the start ends with the result 8. *)
Theorem equals_keeps_the_result (c : Calc) (v : float) :
  isError (vars c) = false ->
  evaluateTokens (finalTokens (vars c)) = Done v ->
  vars (equals c)
  = {| expressionTokens := [roundSmart v]; currentInput := "";
       lastResult := Some v; isError := false |}
  /\ resText (screen (equals c)) = roundSmart v
  /\ vars (run [EvDigit "5"; EvEquals; EvOperator "+"; EvDigit "3"; EvEquals]
             initial)
     = {| expressionTokens := ["8"]; currentInput := "";
          lastResult := Some (of_Z 8); isError := false |}.
Proof.
  intros Hok Hev.
  assert (Hne : (alen (finalTokens (vars c)) =? 0) = false).
  { destruct (alen (finalTokens (vars c)) =? 0) eqn:E; [|reflexivity].
    apply alen_zero in E. rewrite E, evaluateTokens_nil in Hev. discriminate. }
  assert (Heq : vars (equals c)
                = {| expressionTokens := [roundSmart v]; currentInput := "";
                     lastResult := Some v; isError := false |}).
  { unfold equals. rewrite Hok. unfold finalTokens in Hev, Hne.
    destruct (is_operator_at _); simpl expressionTokens in *;
      rewrite Hne, Hev; updates; rewrite commitCurrent_isError, Hok; reflexivity. }
  split; [exact Heq|]. split.
  - unfold equals in *. rewrite Hok in *. unfold finalTokens in Hev, Hne.
    destruct (is_operator_at _); simpl expressionTokens in *;
      rewrite Hne, Hev; updates; rewrite commitCurrent_isError, Hok; reflexivity.
  - vm_compute. reflexivity.
Qed.

(** ** backspace *)

Lemma length_slice_0_m1 (s : string) :
  String.length (slice_0_m1 s) = pred (String.length s).
Proof.
  induction s as [|c r IH]; [reflexivity|].
  destruct r as [|c' r']; [reflexivity|].
  change (slice_0_m1 (String c (String c' r')))
    with (String c (slice_0_m1 (String c' r'))).
  simpl String.length in *. rewrite IH. reflexivity.
Qed.

Lemma truthy_length (s : string) : truthy s = true <-> (0 < String.length s)%nat.
Proof. destruct s; simpl; split; intros H; try reflexivity; try discriminate; lia. Qed.

Lemma weight_snoc (a : list string) (x i : string) (r : option float) (e : bool) :
  weight (mkSession (a ++ [x]) i r e)
  = (weight (mkSession a i r e) + S (String.length x))%nat.
Proof.
  unfold weight. simpl. rewrite map_app, list_sum_app. simpl. lia.
Qed.

(** One [backspace] outside the error state removes something, if there is
    anything left, and touches neither [lastResult] nor [isError]. *)
Lemma backspace_step (c : Calc) :
  isError (vars c) = false ->
  (weight (vars (backspace c)) <= pred (weight (vars c)))%nat
  /\ lastResult (vars (backspace c)) = lastResult (vars c)
  /\ isError (vars (backspace c)) = false.
Proof.
  intros Hok. unfold backspace. rewrite Hok.
  destruct c as [[tokens input result err] scr]. simpl in *. subst err.
  destruct (truthy input) eqn:Hin.
  - simpl. repeat split. unfold weight. simpl.
    rewrite length_slice_0_m1. apply truthy_length in Hin. lia.
  - assert (Hlen : String.length input = 0%nat).
    { destruct input; [reflexivity|discriminate]. }
    destruct (array_snoc_cases tokens) as [->|(pre & last & ->)].
    + simpl. repeat split. unfold weight. simpl. lia.
    + rewrite aget_last, apop_snoc.
      destruct (alen (pre ++ [last]) =? 0) eqn:E.
      { apply alen_zero in E. destruct pre; discriminate. }
      simpl negb. cbv iota.
      destruct (test_digit_start_or_dot last); simpl; repeat split.
      * rewrite weight_snoc. unfold weight. simpl.
        rewrite length_slice_0_m1, Hlen. lia.
      * rewrite weight_snoc. unfold weight. simpl. lia.
Qed.

Lemma weight_zero (s : Session) :
  weight s = 0%nat -> expressionTokens s = [] /\ currentInput s = "".
Proof.
  destruct s as [tokens input result err]. unfold weight. simpl. intros H.
  split.
  - destruct tokens; [reflexivity|]. simpl in H. lia.
  - destruct input; [reflexivity|]. simpl in H. lia.
Qed.

(** C8 (amended).  Outside the error state, [backspace] repeated as often
    as there are code units and tokens left (or more often) empties the
    pending number and the committed tokens; [lastResult] is kept. *)
Theorem backspace_empties_the_input (c : Calc) (n : nat) :
  isError (vars c) = false ->
  (weight (vars c) <= n)%nat ->
  vars (Nat.iter n backspace c)
  = {| expressionTokens := []; currentInput := "";
       lastResult := lastResult (vars c); isError := false |}.
Proof.
  revert c. induction n as [|n IH]; intros c Hok Hw.
  - simpl. assert (Hz : weight (vars c) = 0%nat) by lia.
    destruct (weight_zero _ Hz) as [Ht Hi].
    destruct c as [[tokens input result err] scr]. simpl in *.
    subst. reflexivity.
  - rewrite Nat.iter_succ_r.
    destruct (backspace_step c Hok) as (Hdec & Hres & Hok').
    rewrite IH; [rewrite Hres; reflexivity | exact Hok' | lia].
Qed.

(** [lastResult] after any number of [backspace]. *)
Lemma backspace_iter_lastResult (n : nat) (c : Calc) :
  lastResult (vars (Nat.iter n backspace c)) = lastResult (vars c).
Proof.
  induction n as [|n IH]; [reflexivity|]. simpl.
  destruct (isError (vars (Nat.iter n backspace c))) eqn:E.
  - unfold backspace at 1. rewrite E. exact IH.
  - destruct (backspace_step _ E) as (_ & Hres & _). rewrite Hres. exact IH.
Qed.

(** In the session after 5 =, no number of [backspace] brings back the
    cleared variables: [lastResult] stays 5. *)
Lemma backspace_does_not_clear_lastResult :
  isError (vars after_five_equals) = false
  /\ ~ exists n, vars (Nat.iter n backspace after_five_equals) = cleared.
Proof.
  split; [reflexivity|]. intros [n Hn].
  pose proof (backspace_iter_lastResult n after_five_equals) as Hres.
  rewrite Hn in Hres. vm_compute in Hres. discriminate.
Qed.

Lemma backspace_empties_the_input_witness :
  isError (vars after_twelve_plus_three) = false
  /\ (weight (vars after_twelve_plus_three) <= 6)%nat
  /\ vars (Nat.iter 6 backspace after_twelve_plus_three)
     = {| expressionTokens := []; currentInput := "";
          lastResult := lastResult (vars after_twelve_plus_three);
          isError := false |}.
Proof.
  split; [reflexivity|]. split; [vm_compute; lia|].
  apply (backspace_empties_the_input after_twelve_plus_three 6);
    [reflexivity | vm_compute; lia].
Defined.

Lemma error_state_is_absorbing_witness :
  isError (vars after_division_by_zero) = true
  /\ (forall d, appendDigit d after_division_by_zero = after_division_by_zero)
  /\ appendDot after_division_by_zero = after_division_by_zero
  /\ negate after_division_by_zero = after_division_by_zero
  /\ (forall op, pushOperator op after_division_by_zero = after_division_by_zero)
  /\ applyPercent after_division_by_zero = after_division_by_zero
  /\ equals after_division_by_zero = after_division_by_zero
  /\ clearEntry after_division_by_zero = after_division_by_zero
  /\ backspace after_division_by_zero = after_division_by_zero
  /\ (forall e, e <> EvClearAll ->
        handle e after_division_by_zero = after_division_by_zero)
  /\ vars (clearAll after_division_by_zero) = cleared.
Proof.
  split; [reflexivity|].
  apply (error_state_is_absorbing after_division_by_zero). reflexivity.
Defined.

Lemma equals_keeps_the_result_witness :
  isError (vars after_five) = false
  /\ evaluateTokens (finalTokens (vars after_five)) = Done (of_Z 5)
  /\ vars (equals after_five)
     = {| expressionTokens := [roundSmart (of_Z 5)]; currentInput := "";
          lastResult := Some (of_Z 5); isError := false |}.
Proof.
  split; [reflexivity|]. split; [vm_compute; reflexivity|].
  apply (equals_keeps_the_result after_five (of_Z 5));
    [reflexivity | vm_compute; reflexivity].
Defined.

(** ** Operators in a row *)

(** C5 (the code departs from it).  3 + 5, the sign toggled and one
    backspace leave the pending number ["-"]; the next operator commits it
    and then takes it for the operator to overwrite.  The committed tokens
    are then 3 + *, two operators in a row. *)
Theorem operator_after_lone_minus :
  forallb event_ok lone_minus_events = true
  /\ currentInput (vars (run (removelast lone_minus_events) initial)) = "-"
  /\ expressionTokens (vars (run lone_minus_events initial)) = ["3"; "+"; "*"]
  /\ adjacent_operators (expressionTokens (vars (run lone_minus_events initial)))
     = true.
Proof.
  split; [reflexivity|].
  split; [vm_compute; reflexivity|].
  split; vm_compute; reflexivity.
Qed.

(** ** backspace on a committed token *)

(** C6 (the code departs from it).  The committed token ["-5"] neither
    starts with a digit nor has a dot, so [backspace] takes it for an
    operator: the token goes and nothing comes back into the pending
    number. *)
Theorem backspace_drops_negative_token :
  forallb event_ok negative_token_events = true
  /\ vars (run negative_token_events initial)
     = {| expressionTokens := ["-5"]; currentInput := "";
          lastResult := None; isError := false |}
  /\ vars (backspace (run negative_token_events initial))
     = {| expressionTokens := []; currentInput := "";
          lastResult := None; isError := false |}.
Proof.
  split; [reflexivity|].
  split; vm_compute; reflexivity.
Qed.

(** ** The evaluator and the precedence grammar *)

Lemma bind_Done {A B : Type} (a : A) (k : A -> res B) : (Done a ≫= k) = k a.
Proof. reflexivity. Qed.

Lemma bind_Fail {A B : Type} (e : error) (k : A -> res B) : (Fail e ≫= k) = Fail e.
Proof. reflexivity. Qed.

Lemma bind_bind {A B C : Type} (r : res A) (f : A -> res B) (g : B -> res C) :
  ((r ≫= f) ≫= g) = (r ≫= fun a => f a ≫= g).
Proof. destruct r; reflexivity. Qed.

Lemma evaluateTokens_finish (tokens : list string) :
  evaluateTokens tokens = (scan tokens ([], []) ≫= finish).
Proof.
  unfold evaluateTokens. destruct (scan tokens ([], [])) as [[out ops]|e];
    reflexivity.
Qed.

Lemma scan_app (l1 l2 : list string) (st : list float * list string) :
  scan (l1 ++ l2) st = (scan l1 st ≫= scan l2).
Proof.
  revert st. induction l1 as [|t l1 IH]; intros st; [reflexivity|].
  simpl. destruct (scan_token t st) as [st'|e]; [|reflexivity].
  rewrite !bind_Done. apply IH.
Qed.

Lemma scan_cons (t : string) (l : list string) (st : list float * list string) :
  scan (t :: l) st = (scan_token t st ≫= scan l).
Proof. reflexivity. Qed.

(** The operators and their levels. *)
Lemma operator_cases (t : string) :
  is_operator t = additive t || multiplicative t.
Proof.
  unfold is_operator, additive, multiplicative.
  destruct (String.eqb t "+"), (String.eqb t "-"), (String.eqb t "*"),
    (String.eqb t "/"); reflexivity.
Qed.

Lemma precedence_multiplicative (op : string) :
  multiplicative op = true -> precedence op = Some 2.
Proof.
  unfold multiplicative. intros H.
  apply orb_true_iff in H as [H|H]; apply String.eqb_eq in H; subst op;
    reflexivity.
Qed.

Lemma precedence_additive (op : string) :
  additive op = true -> precedence op = Some 1.
Proof.
  unfold additive. intros H.
  apply orb_true_iff in H as [H|H]; apply String.eqb_eq in H; subst op;
    reflexivity.
Qed.

Lemma multiplicative_operator (op : string) :
  multiplicative op = true -> is_operator op = true.
Proof. intros H. rewrite operator_cases, H. apply orb_true_r. Qed.

Lemma additive_operator (op : string) :
  additive op = true -> is_operator op = true.
Proof. intros H. rewrite operator_cases, H. reflexivity. Qed.

(** An operator that is read applies a pending operator of its own level
    or above. *)
Lemma precedence_operator (op : string) :
  is_operator op = true -> precedence op = Some 1 \/ precedence op = Some 2.
Proof.
  rewrite operator_cases. intros H. apply orb_true_iff in H as [H|H].
  - left. now apply precedence_additive.
  - right. now apply precedence_multiplicative.
Qed.

#[local] Arguments applyOp : simpl never.
#[local] Arguments apply_binary : simpl never.

Lemma applyOp_binary (op : string) (a b : float) (output : list float) :
  applyOp op (b :: a :: output)
  = (apply_binary op a b ≫= fun v => Done (v :: output)).
Proof.
  unfold applyOp, apply_binary.
  destruct (negb (isFinite a) || negb (isFinite b)); [reflexivity|].
  repeat (match goal with |- context [if ?b then _ else _] => destruct b end;
          try reflexivity).
Qed.

(** A [*] or [/] that is read leaves a quiet stack alone. *)
Lemma unwind_quiet (op : string) (output : list float) (ops : list string) :
  multiplicative op = true -> quiet ops = true ->
  unwind op output ops = Done (output, ops).
Proof.
  intros Hop Hq. destruct ops as [|top ops]; [reflexivity|].
  simpl in *. rewrite (precedence_multiplicative op Hop).
  apply negb_true_iff in Hq. rewrite Hq. reflexivity.
Qed.

Lemma yields_multiplicative (top : string) (rest : list string) :
  multiplicative top = true -> at_operator rest = true -> yields top rest = true.
Proof.
  intros Htop Hrest. destruct rest as [|t rest]; [reflexivity|].
  simpl in *. rewrite Hrest, (precedence_multiplicative top Htop).
  destruct (precedence_operator t Hrest) as [-> | ->]; reflexivity.
Qed.

Lemma yields_additive (top : string) (rest : list string) :
  additive top = true -> at_additive rest = true -> yields top rest = true.
Proof.
  intros Htop Hrest. destruct rest as [|t rest]; [reflexivity|].
  simpl in *. rewrite (additive_operator t Hrest).
  rewrite (precedence_additive top Htop), (precedence_additive t Hrest).
  reflexivity.
Qed.

Lemma at_additive_operator (rest : list string) :
  at_additive rest = true -> at_operator rest = true.
Proof. destruct rest as [|t rest]; [reflexivity|]. apply additive_operator. Qed.

(** A pending operator with its two operands on top is worth its result,
    when what follows makes the evaluator apply it first. *)
Lemma absorb (top : string) (a b : float) (output : list float)
    (ops rest : list string) :
  yields top rest = true ->
  (scan rest (b :: a :: output, top :: ops) ≫= finish)
  = (apply_binary top a b ≫= fun v => scan rest (v :: output, ops) ≫= finish).
Proof.
  intros Hy. destruct rest as [|t rest].
  - simpl scan. rewrite bind_Done. unfold finish at 1. simpl drain.
    rewrite applyOp_binary.
    destruct (apply_binary top a b) as [v|e]; reflexivity.
  - simpl in Hy. apply andb_true_iff in Hy as [Ht Hge].
    rewrite !scan_cons. unfold scan_token at 1. rewrite Ht.
    simpl unwind. rewrite Hge, applyOp_binary.
    destruct (apply_binary top a b) as [v|e]; [|reflexivity].
    rewrite !bind_Done, scan_cons. unfold scan_token. rewrite Ht.
    reflexivity.
Qed.

(** Reading a term and going on is pushing its value and going on. *)
Lemma scan_term (e : expr) :
  term_shape e = true ->
  forall (output : list float) (ops rest : list string),
    quiet ops = true -> at_operator rest = true ->
    (scan (tokens_of e ++ rest) (output, ops) ≫= finish)
    = (value e ≫= fun v => scan rest (v :: output, ops) ≫= finish).
Proof.
  induction e as [t | op l IHl r _]; intros Hshape output ops rest Hq Hrest.
  - simpl in Hshape. apply negb_true_iff in Hshape.
    simpl tokens_of. simpl app. rewrite scan_cons.
    unfold scan_token, value. rewrite Hshape.
    destruct (isFinite (Number t)); reflexivity.
  - destruct r as [t|]; [|discriminate]. simpl in Hshape.
    apply andb_true_iff in Hshape as [Hshape Ht].
    apply andb_true_iff in Hshape as [Hop Hl].
    apply negb_true_iff in Ht.
    simpl tokens_of. rewrite <- app_assoc. simpl app.
    rewrite (IHl Hl output ops (op :: t :: rest) Hq (multiplicative_operator op Hop)).
    simpl value. rewrite bind_bind.
    destruct (value l) as [a|err]; [|reflexivity].
    rewrite !bind_Done, scan_cons. unfold scan_token at 1.
    rewrite (multiplicative_operator op Hop), (unwind_quiet op _ _ Hop Hq).
    rewrite !bind_Done, scan_cons. unfold scan_token at 1. rewrite Ht.
    destruct (isFinite (Number t)); [|reflexivity].
    simpl negb. cbv iota. rewrite !bind_Done.
    apply absorb. now apply yields_multiplicative.
Qed.

(** The same for a sum, read with nothing pending. *)
Lemma scan_sum (e : expr) :
  sum_shape e = true ->
  forall (output : list float) (rest : list string),
    at_additive rest = true ->
    (scan (tokens_of e ++ rest) (output, []) ≫= finish)
    = (value e ≫= fun v => scan rest (v :: output, []) ≫= finish).
Proof.
  induction e as [t | op l IHl r _]; intros Hshape output rest Hrest.
  - simpl in Hshape. rewrite orb_false_r in Hshape.
    apply scan_term; [exact Hshape | reflexivity | now apply at_additive_operator].
  - destruct (term_shape (Bin op l r)) eqn:Hterm.
    + apply scan_term; [exact Hterm | reflexivity | now apply at_additive_operator].
    + simpl in Hshape. simpl in Hterm.
      assert (Hsum : additive op && sum_shape l && term_shape r = true).
      { destruct r; simpl in *; rewrite ?Hterm in Hshape; exact Hshape. }
      clear Hshape Hterm.
      apply andb_true_iff in Hsum as [Hsum Hr].
      apply andb_true_iff in Hsum as [Hop Hl].
      simpl tokens_of. rewrite <- app_assoc. simpl app.
      rewrite (IHl Hl output (op :: tokens_of r ++ rest) Hop).
      simpl value. rewrite bind_bind.
      destruct (value l) as [a|err]; [|reflexivity].
      rewrite !bind_Done, scan_cons. unfold scan_token at 1.
      rewrite (additive_operator op Hop). simpl unwind. rewrite !bind_Done.
      rewrite (scan_term r Hr (a :: output) [op] rest).
      * rewrite bind_bind. destruct (value r) as [b|err]; [|reflexivity].
        rewrite !bind_Done. apply absorb. now apply yields_additive.
      * simpl. now rewrite (precedence_additive op Hop).
      * now apply at_additive_operator.
Qed.

(** The evaluator on the tokens of a sum returns the result of the sum. *)
Lemma evaluateTokens_of_sum (e : expr) :
  sum_shape e = true -> evaluateTokens (tokens_of e) = result_of e.
Proof.
  intros Hshape. rewrite evaluateTokens_finish.
  rewrite <- (app_nil_r (tokens_of e)).
  rewrite (scan_sum e Hshape [] [] eq_refl).
  unfold result_of. destruct (value e) as [v|err]; [|reflexivity].
  rewrite !bind_Done. simpl. destruct (isFinite v); reflexivity.
Qed.

(** *** Every infix sequence is the tokens of one sum *)

Lemma term_is_sum (e : expr) : term_shape e = true -> sum_shape e = true.
Proof. intros H. destruct e; simpl in *; now rewrite H. Qed.

Lemma close_sum_shape (sum : option (expr * string)) (term : expr) :
  parser_state sum term -> sum_shape (close_sum sum term) = true.
Proof.
  intros [Hterm Hsum]. destruct sum as [[e op]|]; simpl close_sum.
  - destruct Hsum as [He Hop]. simpl. rewrite Hop, He, Hterm.
    now rewrite orb_true_r.
  - now apply term_is_sum.
Qed.

Lemma parse_rest_sound (rest : list string) :
  forall sum term e,
    parser_state sum term ->
    parse_rest sum term rest = Some e ->
    sum_shape e = true
    /\ tokens_of e = tokens_of (close_sum sum term) ++ rest.
Proof.
  induction rest as [rest IH] using (induction_ltof1 _ (@length string)).
  unfold ltof in IH. intros sum term e Hstate Hparse.
  destruct rest as [|op [|t rest]]; simpl in Hparse; try discriminate.
  - injection Hparse as <-. split; [now apply close_sum_shape|].
    now rewrite app_nil_r.
  - destruct Hstate as [Hterm Hsum].
    destruct (is_operator t) eqn:Ht; [discriminate|].
    destruct (multiplicative op) eqn:Hmul.
    + apply IH in Hparse; [|simpl; lia|].
      * destruct Hparse as [Hshape Htokens]. split; [exact Hshape|].
        rewrite Htokens. destruct sum as [[e' op']|]; simpl;
          repeat (rewrite <- app_assoc; simpl); reflexivity.
      * split; [|exact Hsum]. simpl. now rewrite Hmul, Hterm, Ht.
    + destruct (additive op) eqn:Hadd; [|discriminate].
      apply IH in Hparse; [|simpl; lia|].
      * destruct Hparse as [Hshape Htokens]. split; [exact Hshape|].
        rewrite Htokens. simpl. repeat (rewrite <- app_assoc; simpl).
        reflexivity.
      * split; [simpl; now rewrite Ht|].
        split; [now apply close_sum_shape | exact Hadd].
Qed.

Lemma parse_rest_complete (rest : list string) :
  forall sum term,
    operator_number_pairs rest = true ->
    exists e, parse_rest sum term rest = Some e.
Proof.
  induction rest as [rest IH] using (induction_ltof1 _ (@length string)).
  unfold ltof in IH. intros sum term Hpairs.
  destruct rest as [|op [|t rest]]; simpl in *; try discriminate.
  - eexists. reflexivity.
  - apply andb_true_iff in Hpairs as [Hpairs Hrest].
    apply andb_true_iff in Hpairs as [Hop Ht].
    apply negb_true_iff in Ht. rewrite Ht.
    rewrite operator_cases in Hop.
    destruct (multiplicative op); [apply IH; [simpl; lia | exact Hrest]|].
    rewrite orb_false_r in Hop. rewrite Hop.
    apply IH; [simpl; lia | exact Hrest].
Qed.

(** A number followed by [operator number] pairs is read as one sum of
    the grammar, whose tokens it is; the evaluator returns the result of
    that sum. *)
Lemma infix_sequences_are_sums (tokens : list string) :
  infix tokens = true ->
  exists e,
    parse tokens = Some e
    /\ sum_shape e = true
    /\ tokens_of e = tokens
    /\ evaluateTokens tokens = result_of e.
Proof.
  destruct tokens as [|t rest]; [discriminate|]. simpl. intros H.
  apply andb_true_iff in H as [Ht Hrest].
  destruct (parse_rest_complete rest None (Num t) Hrest) as [e He].
  apply negb_true_iff in Ht. rewrite Ht.
  exists e. split; [exact He|].
  destruct (parse_rest_sound rest None (Num t) e) as [Hshape Htokens];
    [split; [simpl; now rewrite Ht | exact I] | exact He |].
  simpl in Htokens.
  split; [exact Hshape|]. split; [exact Htokens|].
  rewrite <- Htokens. now apply evaluateTokens_of_sum.
Qed.

(** C1.  When a token sequence is the tokens of an expression of the
    grammar in which [*] and [/] bind tighter than [+] and [-] and equal
    levels associate to the left, the evaluator returns the result of that
    expression: its operators applied in the order of the grammar, the
    first failure returned.  On 2 + 3 * 4 it returns 14. *)
Theorem evaluateTokens_respects_precedence (tokens : list string) (e : expr) :
  sum_shape e = true ->
  tokens_of e = tokens ->
  evaluateTokens tokens = result_of e
  /\ evaluateTokens ["2"; "+"; "3"; "*"; "4"] = Done (of_Z 14)
  /\ evaluateTokens ["8"; "-"; "3"; "-"; "2"] = Done (of_Z 3)
  /\ evaluateTokens ["8"; "/"; "4"; "*"; "2"] = Done (of_Z 4).
Proof.
  intros Hshape Htokens. split.
  - rewrite <- Htokens. now apply evaluateTokens_of_sum.
  - repeat split; vm_compute; reflexivity.
Qed.

Lemma evaluateTokens_respects_precedence_witness :
  sum_shape (Bin "+" (Num "2") (Bin "*" (Num "3") (Num "4"))) = true
  /\ tokens_of (Bin "+" (Num "2") (Bin "*" (Num "3") (Num "4")))
     = ["2"; "+"; "3"; "*"; "4"]
  /\ evaluateTokens ["2"; "+"; "3"; "*"; "4"]
     = result_of (Bin "+" (Num "2") (Bin "*" (Num "3") (Num "4"))).
Proof.
  split; [reflexivity|]. split; [reflexivity|].
  apply (evaluateTokens_respects_precedence
           ["2"; "+"; "3"; "*"; "4"]
           (Bin "+" (Num "2") (Bin "*" (Num "3") (Num "4"))));
    reflexivity.
Defined.

(** ** Division by zero *)

Lemma drain_cons (top : string) (output : list float) (ops : list string) :
  drain output (top :: ops) = (applyOp top output ≫= fun o => drain o ops).
Proof. reflexivity. Qed.

Lemma unwind_cons (t top : string) (output : list float) (ops : list string) :
  unwind t output (top :: ops)
  = if prec_ge (precedence top) (precedence t)
    then applyOp top output ≫= fun o => unwind t o ops
    else Done (output, top :: ops).
Proof. reflexivity. Qed.

(** What an operator applies when it is read, the final loop would have
    applied too. *)
Lemma unwind_before_drain (t : string) (ops : list string) :
  forall (output result : list float),
    drain output ops = Done result ->
    exists output' ops',
      unwind t output ops = Done (output', ops')
      /\ drain output' ops' = Done result.
Proof.
  induction ops as [|top ops IH]; intros output result Hdrain.
  - exists output, []. split; [reflexivity | exact Hdrain].
  - rewrite unwind_cons. destruct (prec_ge _ _).
    + rewrite drain_cons in Hdrain.
      destruct (applyOp top output) as [o|err]; [|discriminate].
      rewrite bind_Done in *. apply IH. exact Hdrain.
    + exists output, (top :: ops). split; [reflexivity | exact Hdrain].
Qed.

Lemma applyOp_operands (op : string) (output result : list float) :
  applyOp op output = Done result ->
  exists b a rest,
    output = b :: a :: rest /\ isFinite a = true /\ isFinite b = true.
Proof.
  unfold applyOp. destruct output as [|b [|a rest]]; try discriminate.
  intros H. exists b, a, rest.
  destruct (isFinite a), (isFinite b); try discriminate H.
  repeat split.
Qed.

(** When the final loop ends with one finite value, the top of [output]
    is finite. *)
Lemma drain_top_finite (ops : list string) (output : list float) (v : float) :
  drain output ops = Done [v] -> isFinite v = true ->
  exists a rest, output = a :: rest /\ isFinite a = true.
Proof.
  intros Hdrain Hv. destruct ops as [|top ops].
  - simpl in Hdrain. injection Hdrain as ->. exists v, []. split; [reflexivity|exact Hv].
  - rewrite drain_cons in Hdrain.
    destruct (applyOp top output) as [o|err] eqn:Happ; [|discriminate].
    destruct (applyOp_operands _ _ _ Happ) as (b & a & rest & -> & _ & Hb).
    exists b, (a :: rest). split; [reflexivity | exact Hb].
Qed.

Lemma strict_eq_zero_finite (x : float) :
  strict_eq x pos_zero = true -> isFinite x = true.
Proof. destruct x as [[]|[]| |[] m e]; try reflexivity; discriminate. Qed.

Lemma zero_token_not_operator (z : string) :
  strict_eq (Number z) pos_zero = true -> is_operator z = false.
Proof.
  intros Hz. destruct (is_operator z) eqn:Hop; [|reflexivity].
  unfold is_operator in Hop.
  repeat (apply orb_true_iff in Hop as [Hop|Hop]);
    apply String.eqb_eq in Hop; subst z; discriminate.
Qed.

Lemma evaluateTokens_done (tokens : list string) (v : float) :
  evaluateTokens tokens = Done v ->
  exists output ops,
    scan tokens ([], []) = Done (output, ops)
    /\ drain output ops = Done [v] /\ isFinite v = true.
Proof.
  rewrite evaluateTokens_finish.
  destruct (scan tokens ([], [])) as [[output ops]|err]; [|discriminate].
  rewrite bind_Done. unfold finish.
  destruct (drain output ops) as [[|v' [|]]|err] eqn:Hd; try discriminate.
  rewrite bind_Done. destruct (isFinite v') eqn:Hv; [|discriminate].
  simpl. intros [= ->]. exists output, ops.
  split; [reflexivity|]. split; [exact Hd | exact Hv].
Qed.

(** After tokens that evaluate, a division by a zero token fails as such,
    at the end of the tokens or at the next operator. *)
Lemma division_by_zero_after (P : list string) (z : string) (post : list string)
    (v : float) :
  evaluateTokens P = Done v ->
  strict_eq (Number z) pos_zero = true ->
  at_operator post = true ->
  evaluateTokens (P ++ "/" :: z :: post) = Fail DivisionByZero.
Proof.
  intros HP Hz Hpost.
  destruct (evaluateTokens_done P v HP) as (output & ops & Hscan & Hdrain & Hv).
  destruct (unwind_before_drain "/" ops output [v] Hdrain)
    as (output' & ops' & Hunwind & Hdrain').
  destruct (drain_top_finite ops' output' v Hdrain' Hv) as (a & rest & -> & Ha).
  rewrite evaluateTokens_finish, scan_app, Hscan, bind_Done.
  rewrite scan_cons. unfold scan_token at 1.
  change (is_operator "/") with true. cbv iota.
  rewrite Hunwind, !bind_Done, scan_cons. unfold scan_token at 1.
  rewrite (zero_token_not_operator z Hz), (strict_eq_zero_finite _ Hz).
  simpl negb. cbv iota. rewrite bind_Done.
  rewrite absorb by (now apply yields_multiplicative).
  unfold apply_binary. rewrite Ha, (strict_eq_zero_finite _ Hz), Hz.
  reflexivity.
Qed.

Lemma commitCurrent_input (s : Session) : currentInput (commitCurrent s) = "".
Proof.
  unfold commitCurrent. destruct (String.eqb_spec (currentInput s) "") as [E|E];
    simpl; [exact E | reflexivity].
Qed.

(** Whatever the failure, [equals] sets [isError] and clears [lastResult];
    the tokens stay as they were evaluated. *)
Lemma equals_failure (c : Calc) (err : error) :
  isError (vars c) = false ->
  finalTokens (vars c) <> [] ->
  evaluateTokens (finalTokens (vars c)) = Fail err ->
  vars (equals c)
  = {| expressionTokens := finalTokens (vars c); currentInput := "";
       lastResult := None; isError := true |}.
Proof.
  intros Hok Hne Hev.
  assert (Hlen : (alen (finalTokens (vars c)) =? 0) = false).
  { destruct (alen (finalTokens (vars c)) =? 0) eqn:E; [|reflexivity].
    apply alen_zero in E. contradiction. }
  unfold equals. rewrite Hok. unfold finalTokens in *.
  destruct (is_operator_at _); simpl expressionTokens in *;
    rewrite Hlen, Hev; updates; rewrite commitCurrent_input; reflexivity.
Qed.


(** ** Percentage *)

Lemma aget_app_r (pre l : list string) (i : Z) :
  0 <= i -> aget (pre ++ l) (alen pre + i) = aget l i.
Proof.
  intros Hi. unfold aget, alen.
  destruct (Z.ltb_spec (Z.of_nat (length pre) + i) 0) as [H|_]; [lia|].
  destruct (Z.ltb_spec i 0) as [H|_]; [lia|].
  rewrite Z2Nat.inj_add, Nat2Z.id by lia.
  rewrite lookup_app_r by lia. f_equal. lia.
Qed.

Lemma alen_app (a b : list string) : alen (a ++ b) = alen a + alen b.
Proof. unfold alen. rewrite length_app. lia. Qed.

(** The reads of [applyPercent] on an array that ends with [a; op]. *)
Lemma reads_two_back (pre : list string) (a op : string) :
  let tokens := pre ++ [a; op] in
  (2 <=? alen tokens) = true
  /\ aget tokens (alen tokens - 1) = Some op
  /\ aget tokens (alen tokens - 2) = Some a.
Proof.
  simpl. rewrite alen_app. change (alen [a; op]) with 2.
  assert (H0 : 0 <= alen pre) by (unfold alen; lia).
  repeat split.
  - apply Z.leb_le. lia.
  - replace (alen pre + 2 - 1) with (alen pre + 1) by lia.
    now rewrite aget_app_r.
  - replace (alen pre + 2 - 2) with (alen pre + 0) by lia.
    now rewrite aget_app_r.
Qed.

(** The same on an array that ends with [a; op; b]. *)
Lemma reads_three_back (pre : list string) (a op b : string) :
  let tokens := (pre ++ [a; op]) ++ [b] in
  (3 <=? alen tokens) = true
  /\ aget tokens (alen tokens - 2) = Some op
  /\ aget tokens (alen tokens - 3) = Some a.
Proof.
  simpl. rewrite <- app_assoc. simpl app. rewrite alen_app.
  change (alen [a; op; b]) with 3.
  assert (H0 : 0 <= alen pre) by (unfold alen; lia).
  repeat split.
  - apply Z.leb_le. lia.
  - replace (alen pre + 3 - 2) with (alen pre + 1) by lia.
    now rewrite aget_app_r.
  - replace (alen pre + 3 - 3) with (alen pre + 0) by lia.
    now rewrite aget_app_r.
Qed.

Lemma percent_of_additive (A B : float) (op : string) :
  additive op = true -> percent_of (Some (A, op)) B = fmul A (fdiv B hundred).
Proof. unfold percent_of, additive. intros ->. reflexivity. Qed.

Lemma percent_of_multiplicative (A B : float) (op : string) :
  multiplicative op = true -> percent_of (Some (A, op)) B = fdiv B hundred.
Proof.
  unfold percent_of, multiplicative. intros H.
  apply orb_true_iff in H as [H|H]; apply String.eqb_eq in H; subst op;
    reflexivity.
Qed.

(** The context [applyPercent] computes for an operand at the end of the
    array ([k = 2], pending operand) or one before the end ([k = 3]). *)
Lemma context_governed (a op : string) :
  isFinite (parseFloat a) = true -> is_operator op = true ->
  governing (Some op) (Some a) = Some (parseFloat a, op).
Proof. unfold governing. simpl. intros -> ->. reflexivity. Qed.

Lemma context_multiplicative (a op : string) (B : float) :
  multiplicative op = true ->
  percent_of (governing (Some op) (Some a)) B = fdiv B hundred.
Proof.
  intros Hop. unfold governing. simpl.
  destruct (isFinite (parseFloat a) && is_operator op); [|reflexivity].
  now apply percent_of_multiplicative.
Qed.

Lemma context_ungoverned (a op : string) :
  isFinite (parseFloat a) = false \/ is_operator op = false ->
  governing (Some op) (Some a) = None.
Proof.
  unfold governing. simpl. intros [-> | ->]; [reflexivity|].
  now rewrite andb_false_r.
Qed.

Lemma short_array (a : list string) (k : Z) :
  (Z.of_nat (length a) < k) -> (k <=? alen a) = false.
Proof. intros H. apply Z.leb_gt. exact H. Qed.

(** [applyPercent] on a pending operand, with the context as read. *)
Lemma applyPercent_pending (c : Calc) :
  let s := vars c in
  let tokens := expressionTokens s in
  isError s = false ->
  currentInput s <> "" ->
  isFinite (parseFloat (currentInput s)) = true ->
  vars (applyPercent c)
  = with_input
      (roundSmart
         (percent_of
            (if 2 <=? alen tokens
             then governing (aget tokens (alen tokens - 1))
                            (aget tokens (alen tokens - 2))
             else None)
            (parseFloat (currentInput s)))) s.
Proof.
  intros s tokens Hok Hin HB. unfold applyPercent. fold s. rewrite Hok.
  destruct (String.eqb_spec (currentInput s) "") as [E|_]; [contradiction|].
  simpl negb. cbv iota. rewrite HB. reflexivity.
Qed.

(** [applyPercent] on the last committed token, with the context as read. *)
Lemma applyPercent_committed (c : Calc) (before : list string) (b : string) :
  let s := vars c in
  let tokens := expressionTokens s in
  isError s = false ->
  currentInput s = "" ->
  tokens = before ++ [b] ->
  is_operator b = false ->
  isFinite (parseFloat b) = true ->
  vars (applyPercent c)
  = with_tokens
      (before ++
       [roundSmart
          (percent_of
             (if 3 <=? alen tokens
              then governing (aget tokens (alen tokens - 2))
                             (aget tokens (alen tokens - 3))
              else None)
             (parseFloat b))]) s.
Proof.
  intros s tokens Hok Hin Htok Hb HB. unfold applyPercent. fold s. rewrite Hok.
  rewrite Hin. simpl negb. cbv iota. fold tokens.
  destruct (alen tokens =? 0) eqn:E.
  { apply alen_zero in E. rewrite Htok in E. destruct before; discriminate. }
  simpl negb. cbv iota.
  assert (Hlast : aget tokens (alen tokens - 1) = Some b)
    by (rewrite Htok; apply aget_last).
  rewrite Hlast, Hb. simpl negb. cbv iota. rewrite HB. simpl negb. cbv iota.
  unfold updateDisplay, set_vars. simpl vars. f_equal.
  rewrite Htok at 1. rewrite Htok at 1. apply aset_last.
Qed.

(** C2 (amended).  The operand [B] of a percentage is the pending number
    or, when there is none, the last committed token if it is not an
    operator.  When [B] reads as a finite number: with a finite number [A]
    and [+] or [-] before it, [B] is replaced by the text
    [roundSmart (A * (B / 100))]; with [*] or [/] before it, or with no
    [A], by the text [roundSmart (B / 100)].  When [B] does not read as a
    finite number the percentage changes nothing.  200 + 10 % leaves 20
    pending, and 50 % leaves 0.5. *)
Theorem percent_rewrites_operand (c : Calc) :
  let s := vars c in
  isError s = false ->
  (* the pending number is the operand *)
  (currentInput s <> "" ->
   isFinite (parseFloat (currentInput s)) = true ->
   let B := parseFloat (currentInput s) in
   (forall pre a op,
       expressionTokens s = pre ++ [a; op] ->
       isFinite (parseFloat a) = true -> additive op = true ->
       vars (applyPercent c)
       = with_input (roundSmart (fmul (parseFloat a) (fdiv B hundred))) s)
   /\ (forall pre a op,
       expressionTokens s = pre ++ [a; op] -> multiplicative op = true ->
       vars (applyPercent c) = with_input (roundSmart (fdiv B hundred)) s)
   /\ (ungoverned (expressionTokens s) ->
       vars (applyPercent c) = with_input (roundSmart (fdiv B hundred)) s))
  (* the last committed token is the operand *)
  /\ (forall before b,
       currentInput s = "" ->
       expressionTokens s = before ++ [b] ->
       is_operator b = false ->
       isFinite (parseFloat b) = true ->
       let B := parseFloat b in
       (forall pre a op,
           before = pre ++ [a; op] ->
           isFinite (parseFloat a) = true -> additive op = true ->
           vars (applyPercent c)
           = with_tokens
               (before ++ [roundSmart (fmul (parseFloat a) (fdiv B hundred))]) s)
       /\ (forall pre a op,
           before = pre ++ [a; op] -> multiplicative op = true ->
           vars (applyPercent c)
           = with_tokens (before ++ [roundSmart (fdiv B hundred)]) s)
       /\ (ungoverned before ->
           vars (applyPercent c)
           = with_tokens (before ++ [roundSmart (fdiv B hundred)]) s))
  /\ vars (applyPercent after_200_plus_10)
     = {| expressionTokens := ["200"; "+"]; currentInput := "20";
          lastResult := None; isError := false |}
  /\ vars (applyPercent after_50)
     = {| expressionTokens := []; currentInput := "0.5";
          lastResult := None; isError := false |}
  (* an operand that does not read as a finite number is left alone *)
  /\ (currentInput s <> "" ->
      isFinite (parseFloat (currentInput s)) = false ->
      applyPercent c = c)
  /\ (forall before b,
        currentInput s = "" ->
        expressionTokens s = before ++ [b] ->
        is_operator b = false ->
        isFinite (parseFloat b) = false ->
        applyPercent c = c).
Proof.
  intros s Hok.
  split; [|split; [|split; [vm_compute; reflexivity|
                            split; [vm_compute; reflexivity|split]]]].
  3:{ intros Hin HB. unfold applyPercent. fold s. rewrite Hok.
      destruct (String.eqb_spec (currentInput s) "") as [E|_]; [contradiction|].
      cbn [negb]. now rewrite HB. }
  3:{ intros before b Hin Htok Hb HB. unfold applyPercent. fold s.
      rewrite Hok, Hin, Htok. cbn [String.eqb negb].
      destruct (alen (before ++ [b]) =? 0) eqn:Hlen.
      { apply alen_zero in Hlen. destruct before; discriminate. }
      cbn [negb]. now rewrite aget_last, Hb, HB. }
  - intros Hin HB B.
    pose proof (applyPercent_pending c Hok Hin HB) as Hpct.
    fold s in Hpct. fold B in Hpct. rewrite Hpct. clear Hpct.
    split; [|split].
    + intros pre a op Htok Ha Hop. rewrite Htok.
      destruct (reads_two_back pre a op) as (-> & -> & ->).
      rewrite (context_governed a op Ha (additive_operator op Hop)).
      now rewrite percent_of_additive.
    + intros pre a op Htok Hop. rewrite Htok.
      destruct (reads_two_back pre a op) as (-> & -> & ->).
      now rewrite context_multiplicative.
    + intros [Hshort | (pre & a & op & Htok & Hno)].
      * rewrite short_array by lia. reflexivity.
      * rewrite Htok. destruct (reads_two_back pre a op) as (-> & -> & ->).
        now rewrite context_ungoverned.
  - intros before b Hin Htok Hb HB B.
    pose proof (applyPercent_committed c before b Hok Hin Htok Hb HB) as Hpct.
    fold s in Hpct. fold B in Hpct. rewrite Hpct. clear Hpct.
    split; [|split].
    + intros pre a op Hbefore Ha Hop. rewrite Htok, Hbefore.
      destruct (reads_three_back pre a op b) as (-> & -> & ->).
      rewrite (context_governed a op Ha (additive_operator op Hop)).
      now rewrite percent_of_additive.
    + intros pre a op Hbefore Hop. rewrite Htok, Hbefore.
      destruct (reads_three_back pre a op b) as (-> & -> & ->).
      now rewrite context_multiplicative.
    + intros [Hshort | (pre & a & op & Hbefore & Hno)].
      * rewrite short_array; [reflexivity|].
        rewrite Htok, length_app. simpl. lia.
      * rewrite Htok, Hbefore.
        destruct (reads_three_back pre a op b) as (-> & -> & ->).
        now rewrite context_ungoverned.
Qed.

Lemma percent_rewrites_operand_witness :
  isError (vars after_200_plus_10) = false
  /\ currentInput (vars after_200_plus_10) <> ""
  /\ isFinite (parseFloat (currentInput (vars after_200_plus_10))) = true
  /\ expressionTokens (vars after_200_plus_10) = [] ++ ["200"; "+"]
  /\ vars (applyPercent after_200_plus_10)
     = with_input
         (roundSmart (fmul (parseFloat "200") (fdiv (parseFloat "10") hundred)))
         (vars after_200_plus_10).
Proof.
  assert (Hin : currentInput (vars after_200_plus_10) <> "")
    by (vm_compute; discriminate).
  assert (HB : isFinite (parseFloat (currentInput (vars after_200_plus_10))) = true)
    by (vm_compute; reflexivity).
  split; [reflexivity|]. split; [exact Hin|]. split; [exact HB|].
  split; [reflexivity|].
  destruct (percent_rewrites_operand after_200_plus_10 eq_refl) as [Hpending _].
  destruct (Hpending Hin HB) as [Hgoverned _].
  apply (Hgoverned [] "200" "+"); reflexivity.
Defined.

(** C2, where it fails.  A lone "-" pending is an operand with no number
    before it, and the percentage leaves it as it is; the pending number
    0.00000000001 is replaced by "0", which is not the hundredth of it. *)
Lemma percent_does_not_write_the_hundredth :
  currentInput (vars after_lone_minus) = "-"
  /\ expressionTokens (vars after_lone_minus) = []
  /\ applyPercent after_lone_minus = after_lone_minus
  /\ currentInput (vars after_tiny_number) = "0.00000000001"
  /\ expressionTokens (vars after_tiny_number) = []
  /\ currentInput (vars (applyPercent after_tiny_number)) = "0"
  /\ strict_eq (Number "0") (fdiv (parseFloat "0.00000000001") hundred) = false
  /\ strict_eq (fdiv (parseFloat "0.00000000001") hundred) pos_zero = false.
Proof. repeat split; vm_compute; reflexivity. Qed.

(** ** roundSmart *)

(** *** The regular expression on digit strings *)

Lemma digit_not_point (c : ascii) : is_digit c = true -> Ascii.eqb c "." = false.
Proof.
  destruct c as [[] [] [] [] [] [] [] []]; intros H; try reflexivity;
    discriminate H.
Qed.

Lemma all_digits_no_point (s : string) :
  all_digits s = true -> includes s "." = false.
Proof.
  induction s as [|c r IH]; [reflexivity|]. simpl. intros H.
  apply andb_true_iff in H as [Hc Hr].
  now rewrite (digit_not_point c Hc), (IH Hr).
Qed.

Lemma includes_app (s1 s2 : string) (c : ascii) :
  includes (s1 +:+ s2) c = includes s1 c || includes s2 c.
Proof.
  induction s1 as [|a r IH]; [reflexivity|]. simpl.
  now rewrite IH, orb_assoc.
Qed.

Lemma zeros_only_cons (c : ascii) (r : string) :
  zeros_only (String c r)
  = Ascii.eqb c "0" && match r with
                       | EmptyString => true
                       | String _ _ => zeros_only r
                       end.
Proof. reflexivity. Qed.

(** A string with a point in it is not made of zeros. *)
Lemma zeros_only_no_point (s : string) :
  includes s "." = true -> zeros_only s = false.
Proof.
  induction s as [|c r IH]; [discriminate|].
  rewrite zeros_only_cons. simpl includes. intros H.
  destruct (Ascii.eqb_spec c "0") as [->|_]; [|reflexivity].
  simpl in H. destruct r as [|c' r']; [discriminate|].
  simpl andb. now apply IH.
Qed.

Lemma zeros_only_strip (s : string) :
  zeros_only s = true -> strip_zeros_end s = "".
Proof.
  induction s as [|c r IH]; [discriminate|].
  rewrite zeros_only_cons. intros H. apply andb_true_iff in H as [Hc Hr].
  simpl. destruct r as [|c' r'].
  - simpl. now rewrite Hc.
  - rewrite (IH Hr). now rewrite Hc.
Qed.

Lemma strip_zeros_end_empty (s : string) :
  strip_zeros_end s = "" -> s = "" \/ zeros_only s = true.
Proof.
  induction s as [|c r IH]; [now left|]. right.
  simpl in H. destruct (strip_zeros_end r) eqn:E; [|discriminate].
  destruct (Ascii.eqb c "0") eqn:Hc; [|discriminate].
  rewrite zeros_only_cons, Hc. simpl.
  destruct r as [|c' r']; [reflexivity|].
  destruct (IH eq_refl) as [E'|E']; [discriminate | exact E'].
Qed.

(** Without the optional point, the replacement strips the zeros. *)
Lemma replace_without_point (s : string) :
  includes s "." = false -> replace_dot_zeros_end s = strip_zeros_end s.
Proof.
  induction s as [|c r IH]; [reflexivity|]. intros H.
  simpl in H. apply orb_false_iff in H as [Hc Hr].
  change (replace_dot_zeros_end (String c r))
    with (if dot_zeros (String c r) then ""
          else String c (replace_dot_zeros_end r)).
  unfold dot_zeros. rewrite Hc.
  destruct (zeros_only (String c r)) eqn:Hz.
  - now rewrite (zeros_only_strip _ Hz).
  - rewrite (IH Hr). simpl.
    destruct (strip_zeros_end r) eqn:E; [|reflexivity].
    destruct (Ascii.eqb c "0") eqn:Hc0; [|reflexivity].
    rewrite zeros_only_cons, Hc0 in Hz. simpl in Hz.
    destruct r as [|c' r']; [discriminate|].
    destruct (strip_zeros_end_empty _ E) as [E'|E']; [discriminate|].
    rewrite E' in Hz. discriminate.
Qed.

(** Before the point, no match can start. *)
Lemma replace_before_point (p s : string) :
  includes p "." = false -> includes s "." = true ->
  replace_dot_zeros_end (p +:+ s) = p +:+ replace_dot_zeros_end s.
Proof.
  induction p as [|c r IH]; [reflexivity|]. intros Hp Hs.
  simpl in Hp. apply orb_false_iff in Hp as [Hc Hr].
  change (String c r +:+ s) with (String c (r +:+ s)).
  change (replace_dot_zeros_end (String c (r +:+ s)))
    with (if dot_zeros (String c (r +:+ s)) then ""
          else String c (replace_dot_zeros_end (r +:+ s))).
  unfold dot_zeros. rewrite Hc.
  rewrite zeros_only_no_point.
  - now rewrite (IH Hr Hs).
  - simpl. now rewrite includes_app, Hs, !orb_true_r.
Qed.

Lemma replace_at_point (f : string) :
  replace_dot_zeros_end (String "." f)
  = if zeros_only f then "" else String "." (replace_dot_zeros_end f).
Proof. reflexivity. Qed.

(** *** The same in words *)

Lemma strip_zeros_end_point (f : string) :
  strip_zeros_end (String "." f) = String "." (strip_zeros_end f).
Proof. simpl. destruct (strip_zeros_end f); reflexivity. Qed.

Lemma strip_zeros_end_app (p s : string) :
  strip_zeros_end s <> "" ->
  strip_zeros_end (p +:+ s) = p +:+ strip_zeros_end s.
Proof.
  intros Hs. induction p as [|c r IH]; [reflexivity|].
  change (String c r +:+ s) with (String c (r +:+ s)).
  change (String c r +:+ strip_zeros_end s)
    with (String c (r +:+ strip_zeros_end s)).
  simpl strip_zeros_end. rewrite IH.
  destruct (r +:+ strip_zeros_end s) eqn:E; [|reflexivity].
  destruct r; simpl in E; [contradiction | discriminate].
Qed.

Lemma strip_point_end_point (p : string) : strip_point_end (p +:+ ".") = p.
Proof.
  induction p as [|c r IH]; [reflexivity|].
  change (String c r +:+ ".") with (String c (r +:+ ".")).
  simpl. rewrite IH. destruct (r +:+ ".") eqn:E; [|reflexivity].
  destruct r; discriminate.
Qed.

Lemma strip_point_end_digits (d : string) :
  all_digits d = true -> strip_point_end d = d.
Proof.
  induction d as [|c r IH]; [reflexivity|]. simpl. intros H.
  apply andb_true_iff in H as [Hc Hr]. rewrite (IH Hr).
  destruct r; [|reflexivity]. now rewrite (digit_not_point c Hc).
Qed.

Lemma strip_point_end_app (p d : string) :
  d <> "" -> all_digits d = true -> strip_point_end (p +:+ d) = p +:+ d.
Proof.
  intros Hd Hall. induction p as [|c r IH].
  - now apply strip_point_end_digits.
  - change (String c r +:+ d) with (String c (r +:+ d)).
    simpl strip_point_end. rewrite IH.
    destruct (r +:+ d) eqn:E; [|reflexivity].
    destruct r; simpl in E; [contradiction | discriminate].
Qed.

Lemma all_digits_strip (d : string) :
  all_digits d = true -> all_digits (strip_zeros_end d) = true.
Proof.
  induction d as [|c r IH]; [reflexivity|]. simpl. intros H.
  apply andb_true_iff in H as [Hc Hr]. specialize (IH Hr).
  destruct (strip_zeros_end r) eqn:E.
  - destruct (Ascii.eqb c "0"); [reflexivity|]. simpl. now rewrite Hc.
  - simpl in *. now rewrite Hc, IH.
Qed.

Lemma append_assoc (a b c : string) : (a +:+ b) +:+ c = a +:+ (b +:+ c).
Proof.
  induction a as [|x a' IH]; [reflexivity|].
  change (String x ((a' +:+ b) +:+ c) = String x (a' +:+ (b +:+ c))).
  f_equal. exact IH.
Qed.

Lemma append_nil_r (a : string) : a +:+ "" = a.
Proof.
  induction a as [|x a' IH]; [reflexivity|].
  change (String x (a' +:+ "") = String x a'). f_equal. exact IH.
Qed.

(** On digits, a point and at least one more digit, with or without a
    sign in front, the replacement does what the words say. *)
Lemma replace_on_fixed_notation (sign int frac : string) :
  includes sign "." = false ->
  all_digits int = true -> all_digits frac = true -> frac <> "" ->
  replace_dot_zeros_end (sign +:+ int +:+ "." +:+ frac)
  = drop_trailing_zeros_and_point (sign +:+ int +:+ "." +:+ frac).
Proof.
  intros Hsign Hint Hfrac Hne.
  assert (Hp : includes (sign +:+ int) "." = false)
    by now rewrite includes_app, Hsign, (all_digits_no_point int Hint).
  rewrite <- (append_assoc sign int).
  unfold drop_trailing_zeros_and_point.
  rewrite includes_app. simpl includes at 2. rewrite orb_true_r.
  change ("." +:+ frac) with (String "." frac).
  rewrite replace_before_point by (try exact Hp; reflexivity).
  rewrite replace_at_point.
  rewrite (replace_without_point frac (all_digits_no_point frac Hfrac)).
  rewrite strip_zeros_end_app
    by (rewrite strip_zeros_end_point; discriminate).
  rewrite strip_zeros_end_point.
  destruct (zeros_only frac) eqn:Hz.
  - rewrite (zeros_only_strip frac Hz).
    change (String "." "") with ".".
    rewrite strip_point_end_point. apply append_nil_r.
  - assert (Hs : strip_zeros_end frac <> "").
    { intros E. destruct (strip_zeros_end_empty frac E) as [E'|E'];
        [contradiction | rewrite E' in Hz; discriminate]. }
    change (String "." (strip_zeros_end frac))
      with ("." +:+ strip_zeros_end frac).
    rewrite <- append_assoc. symmetry.
    apply strip_point_end_app; [exact Hs | now apply all_digits_strip].
Qed.

(** *** The digits [toFixed] writes *)

Lemma all_digits_app (a b : string) :
  all_digits (a +:+ b) = all_digits a && all_digits b.
Proof.
  induction a as [|c r IH]; [reflexivity|].
  change (String c r +:+ b) with (String c (r +:+ b)). simpl.
  now rewrite IH, andb_assoc.
Qed.

Lemma length_append (a b : string) :
  String.length (a +:+ b) = (String.length a + String.length b)%nat.
Proof.
  induction a as [|c r IH]; [reflexivity|].
  change (String c r +:+ b) with (String c (r +:+ b)). simpl. now rewrite IH.
Qed.

Lemma all_digits_of_uint (u : Decimal.uint) :
  all_digits (NilEmpty.string_of_uint u) = true.
Proof. induction u; simpl; try reflexivity; exact IHu. Qed.

Lemma digits_all_digits (n : Z) : all_digits (digits n) = true.
Proof.
  unfold digits, NilZero.string_of_uint.
  destruct (N.to_uint (Z.to_N n)) eqn:E; try reflexivity;
    rewrite <- E; apply all_digits_of_uint.
Qed.

Lemma zeros_nat_digits (n : nat) :
  all_digits (zeros_nat n) = true /\ String.length (zeros_nat n) = n.
Proof. induction n as [|n [IH1 IH2]]; [now split|]. simpl. now rewrite IH1, IH2. Qed.

Lemma all_digits_substring (s : string) :
  all_digits s = true ->
  forall n m, all_digits (String.substring n m s) = true.
Proof.
  induction s as [|c r IH]; intros H n m.
  - destruct n, m; reflexivity.
  - simpl in H. apply andb_true_iff in H as [Hc Hr].
    destruct n as [|n]; [destruct m as [|m]|]; simpl; try reflexivity.
    + now rewrite Hc, (IH Hr).
    + now apply IH.
Qed.

Lemma length_substring (s : string) :
  forall n m, (n + m <= String.length s)%nat ->
    String.length (String.substring n m s) = m.
Proof.
  induction s as [|c r IH]; intros n m H; simpl in H.
  - assert (n = 0%nat) by lia. assert (m = 0%nat) by lia. now subst.
  - destruct n as [|n]; [destruct m as [|m]|]; simpl; try reflexivity.
    + rewrite IH by lia. reflexivity.
    + apply IH. lia.
Qed.

Lemma len_length (s : string) : len s = Z.of_nat (String.length s).
Proof. reflexivity. Qed.

(** Steps 11.a to 11.c write digits, a point and [f] digits. *)
Lemma fixed_digits_shape (f a b : Z) :
  0 < f ->
  exists int frac,
    fixed_digits f a b = int +:+ "." +:+ frac
    /\ all_digits int = true /\ int <> ""
    /\ all_digits frac = true /\ len frac = f.
Proof.
  intros Hf. unfold fixed_digits.
  destruct (Z.eqb_spec f 0) as [E|_]; [lia|].
  set (n := round_half_up (a * 10 ^ f) b).
  set (m := if len (digits n) <=? f
            then zeros (f + 1 - len (digits n)) +:+ digits n
            else digits n).
  assert (Hm : all_digits m = true /\ f + 1 <= len m).
  { unfold m. destruct (Z.leb_spec (len (digits n)) f) as [Hle|Hgt].
    - destruct (zeros_nat_digits (Z.to_nat (f + 1 - len (digits n)))) as [Hz Hl].
      unfold zeros. rewrite all_digits_app, Hz, digits_all_digits.
      split; [reflexivity|].
      rewrite len_length, length_append, Hl, Nat2Z.inj_add, Z2Nat.id;
        rewrite <- ?len_length; lia.
    - split; [apply digits_all_digits | lia]. }
  destruct Hm as [Hall Hlen].
  exists (sub 0 (len m - f) m), (sub (len m - f) f m).
  split; [reflexivity|]. unfold sub.
  assert (Hint : String.length (String.substring (Z.to_nat 0) (Z.to_nat (len m - f)) m)
                 = Z.to_nat (len m - f)).
  { apply length_substring. rewrite len_length in *. simpl. lia. }
  assert (Hfrac : String.length (String.substring (Z.to_nat (len m - f)) (Z.to_nat f) m)
                  = Z.to_nat f).
  { apply length_substring. rewrite len_length in *. lia. }
  repeat split.
  - now apply all_digits_substring.
  - intros E. rewrite E in Hint. simpl in Hint. lia.
  - now apply all_digits_substring.
  - rewrite len_length, Hfrac. lia.
Qed.

Lemma toFixed_below_1e21 (x : float) (f : Z) :
  isFinite x = true -> below_1e21 x = true ->
  toFixed x f
  = minus_if (fst (fst (real_of x)))
    +:+ fixed_digits f (snd (fst (real_of x))) (snd (real_of x)).
Proof.
  intros Hfin Hlt. unfold toFixed, below_1e21 in *. rewrite Hfin. simpl negb.
  cbv iota. destruct (real_of x) as [[neg a] b]. simpl.
  apply Z.ltb_lt in Hlt.
  destruct (Z.leb_spec (b * 10 ^ 21) a) as [H|_]; [lia | reflexivity].
Qed.

(** What [roundSmart] does: when the number rounded to 12 significant
    digits is below 10^21 in magnitude, it writes it with 12 decimals
    (an optional sign, digits, a point, 12 digits) and removes the zeros at
    the end of the fraction and a point left at the end.  [roundSmart] of 5
    is "5" and of 0.1 + 0.2 is "0.3". *)
Theorem roundSmart_twelve_decimals (x : float) :
  let num := Number (toPrecision x 12) in
  isFinite num = true ->
  below_1e21 num = true ->
  (exists sign int frac,
      toFixed num 12 = sign +:+ int +:+ "." +:+ frac
      /\ (sign = "" \/ sign = "-")
      /\ all_digits int = true /\ int <> ""
      /\ all_digits frac = true /\ String.length frac = 12%nat)
  /\ roundSmart x = drop_trailing_zeros_and_point (toFixed num 12)
  /\ roundSmart (of_Z 5) = "5"
  /\ roundSmart (fadd (Number "0.1") (Number "0.2")) = "0.3".
Proof.
  intros num Hfin Hlt.
  destruct (fixed_digits_shape 12 (snd (fst (real_of num))) (snd (real_of num)))
    as (int & frac & Hshape & Hint & Hne & Hfrac & Hlen); [lia|].
  pose proof (toFixed_below_1e21 num 12 Hfin Hlt) as Hfixed.
  rewrite Hshape in Hfixed.
  assert (Hlen' : String.length frac = 12%nat) by (rewrite len_length in Hlen; lia).
  split; [|split; [|split; vm_compute; reflexivity]].
  - exists (minus_if (fst (fst (real_of num)))), int, frac.
    split; [exact Hfixed|]. repeat split; try assumption.
    destruct (fst (fst (real_of num))); [now right | now left].
  - unfold roundSmart, roundSmart_digits.
    change (Z.min maxDigits_default 15) with 12. fold num.
    rewrite Hfin. simpl negb. cbv iota. rewrite Hfixed.
    apply replace_on_fixed_notation; try assumption.
    + destruct (fst (fst (real_of num))); reflexivity.
    + intros E. rewrite E in Hlen'. discriminate.
Qed.

Lemma roundSmart_twelve_decimals_witness :
  isFinite (Number (toPrecision (Number "100000.1") 12)) = true
  /\ below_1e21 (Number (toPrecision (Number "100000.1") 12)) = true
  /\ roundSmart (Number "100000.1")
     = drop_trailing_zeros_and_point
         (toFixed (Number (toPrecision (Number "100000.1") 12)) 12).
Proof.
  split; [vm_compute; reflexivity|]. split; [vm_compute; reflexivity|].
  apply (roundSmart_twelve_decimals (Number "100000.1"));
    vm_compute; reflexivity.
Defined.

(** C9, a defect of the code.  100000.1 is finite, and its rounding to 12
    significant digits, which [roundSmart] computes first, is 100000.1;
    [toFixed] then writes the double with 12 decimals, and [roundSmart]
    returns 18 significant digits, the last ones being the binary noise
    of the nearest double.  100000.1 = shows them. *)
Lemma roundSmart_more_than_twelve_digits :
  isFinite (Number "100000.1") = true
  /\ valid (Number "100000.1") = true
  /\ toPrecision (Number "100000.1") 12 = "100000.100000"
  /\ roundSmart (Number "100000.1") = "100000.100000000006"
  /\ significant_digits (roundSmart (Number "100000.1")) = 18%nat
  /\ ~ (significant_digits (roundSmart (Number "100000.1")) <= 12)%nat
  /\ lastResult (vars after_100000_1_equals) = Some (Number "100000.1")
  /\ resText (screen after_100000_1_equals) = "100000.100000000006".
Proof.
  assert (H : roundSmart (Number "100000.1") = "100000.100000000006")
    by (vm_compute; reflexivity).
  split; [reflexivity|]. split; [reflexivity|].
  split; [vm_compute; reflexivity|]. split; [exact H|].
  rewrite H. split; [reflexivity|]. split; [vm_compute; lia|].
  split; vm_compute; reflexivity.
Qed.

(** ** What the evaluator reads and writes *)

Section OnTheHeap.

Variable w0 : Heap.World.

(** The address of [output]; [ops] is at the next one. *)
#[local] Abbreviation o := (length (Heap.arrays w0)).

Lemma content_output (out : list float) (stack : list string) :
  Heap.content (Heap.during w0 out stack) o = map Heap.VNum (rev out).
Proof.
  unfold Heap.content, Heap.during. simpl.
  now rewrite list_lookup_middle.
Qed.

Lemma content_ops (out : list float) (stack : list string) :
  Heap.content (Heap.during w0 out stack) (S o) = map Heap.VStr (rev stack).
Proof.
  unfold Heap.content, Heap.during. simpl.
  rewrite lookup_app_r by lia.
  replace (S (length (Heap.arrays w0)) - length (Heap.arrays w0))%nat
    with 1%nat by lia.
  reflexivity.
Qed.

Lemma content_old (out : list float) (stack : list string) (a : nat) :
  (a < o)%nat ->
  Heap.content (Heap.during w0 out stack) a = Heap.content w0 a.
Proof.
  intros H. unfold Heap.content, Heap.during. simpl.
  now rewrite lookup_app_l.
Qed.

Lemma length_output (out : list float) (stack : list string) :
  Heap.array_length o (Heap.during w0 out stack)
  = (Done (Z.of_nat (length out)), Heap.during w0 out stack).
Proof.
  unfold Heap.array_length. rewrite content_output.
  now rewrite length_map, length_rev.
Qed.

Lemma length_ops (out : list float) (stack : list string) :
  Heap.array_length (S o) (Heap.during w0 out stack)
  = (Done (Z.of_nat (length stack)), Heap.during w0 out stack).
Proof.
  unfold Heap.array_length. rewrite content_ops.
  now rewrite length_map, length_rev.
Qed.

Lemma alter_output (f : list Heap.jsval -> list Heap.jsval) (a b : list Heap.jsval) :
  alter f o (Heap.arrays w0 ++ [a; b]) = Heap.arrays w0 ++ [f a; b].
Proof.
  replace (length (Heap.arrays w0)) with (length (Heap.arrays w0) + 0)%nat by lia.
  now rewrite alter_app_r.
Qed.

Lemma alter_ops (f : list Heap.jsval -> list Heap.jsval) (a b : list Heap.jsval) :
  alter f (S o) (Heap.arrays w0 ++ [a; b]) = Heap.arrays w0 ++ [a; f b].
Proof.
  replace (S (length (Heap.arrays w0))) with (length (Heap.arrays w0) + 1)%nat by lia.
  now rewrite alter_app_r.
Qed.

Lemma pop_output (b : float) (out : list float) (stack : list string) :
  Heap.array_pop o (Heap.during w0 (b :: out) stack)
  = (Done (Heap.VNum b), Heap.during w0 out stack).
Proof.
  unfold Heap.array_pop. rewrite content_output. simpl rev.
  rewrite map_app. change (map Heap.VNum [b]) with [Heap.VNum b].
  rewrite last_snoc. unfold Heap.during at 1. simpl Heap.arrays.
  rewrite alter_output. simpl rev. rewrite map_app.
  change (map Heap.VNum [b]) with [Heap.VNum b].
  now rewrite removelast_last.
Qed.

Lemma pop_ops (t : string) (out : list float) (stack : list string) :
  Heap.array_pop (S o) (Heap.during w0 out (t :: stack))
  = (Done (Heap.VStr t), Heap.during w0 out stack).
Proof.
  unfold Heap.array_pop. rewrite content_ops. simpl rev.
  rewrite map_app. change (map Heap.VStr [t]) with [Heap.VStr t].
  rewrite last_snoc. unfold Heap.during at 1. simpl Heap.arrays.
  rewrite alter_ops. simpl rev. rewrite map_app.
  change (map Heap.VStr [t]) with [Heap.VStr t].
  now rewrite removelast_last.
Qed.

Lemma push_output (v : float) (out : list float) (stack : list string) :
  Heap.array_push o (Heap.VNum v) (Heap.during w0 out stack)
  = (Done tt, Heap.during w0 (v :: out) stack).
Proof.
  unfold Heap.array_push. unfold Heap.during at 1. simpl Heap.arrays.
  rewrite alter_output. unfold Heap.during. simpl rev. now rewrite map_app.
Qed.

Lemma push_ops (t : string) (out : list float) (stack : list string) :
  Heap.array_push (S o) (Heap.VStr t) (Heap.during w0 out stack)
  = (Done tt, Heap.during w0 out (t :: stack)).
Proof.
  unfold Heap.array_push. unfold Heap.during at 1. simpl Heap.arrays.
  rewrite alter_ops. unfold Heap.during. simpl rev. now rewrite map_app.
Qed.

Lemma top_of_ops (t : string) (out : list float) (stack : list string) :
  Heap.array_get (S o) (Z.of_nat (length (t :: stack)) - 1)
    (Heap.during w0 out (t :: stack))
  = (Done (Heap.VStr t), Heap.during w0 out (t :: stack)).
Proof.
  unfold Heap.array_get. rewrite content_ops.
  destruct (Z.ltb_spec (Z.of_nat (length (t :: stack)) - 1) 0) as [H|_];
    [simpl in H; lia|].
  simpl rev. rewrite map_app. simpl map.
  replace (Z.to_nat (Z.of_nat (length (t :: stack)) - 1))
    with (length (map Heap.VStr (rev stack)))
    by (rewrite length_map, length_rev; simpl; lia).
  now rewrite list_lookup_middle.
Qed.

Lemma bottom_of_output (v : float) (stack : list string) :
  Heap.array_get o 0 (Heap.during w0 [v] stack)
  = (Done (Heap.VNum v), Heap.during w0 [v] stack).
Proof. unfold Heap.array_get. now rewrite content_output. Qed.

Lemma tracks_bind (m : Heap.M unit) (k : unit -> Heap.M unit) (w : Heap.World)
    (p : res (list float * list string))
    (f : list float * list string -> res (list float * list string)) :
  Heap.tracks w0 (m w) p ->
  (forall out stack,
      Heap.tracks w0 (k tt (Heap.during w0 out stack)) (f (out, stack))) ->
  Heap.tracks w0 (Heap.bindM m k w) (p ≫= f).
Proof.
  intros Hm Hk. unfold Heap.bindM. destruct p as [[out stack]|e]; simpl in Hm.
  - rewrite Hm, bind_Done. apply Hk.
  - destruct Hm as (out & stack & ->). rewrite bind_Fail.
    exists out, stack. reflexivity.
Qed.

Lemma tracks_fail (e : error) (out : list float) (stack : list string) :
  Heap.tracks w0 (Heap.fail e (Heap.during w0 out stack)) (Fail e).
Proof. exists out, stack. reflexivity. Qed.

Lemma applyOp_tracks (op : string) (out : list float) (stack : list string) :
  Heap.tracks w0 (Heap.applyOp o (Heap.VStr op) (Heap.during w0 out stack))
    (applyOp op out ≫= fun out' => Done (out', stack)).
Proof.
  unfold Heap.applyOp, applyOp.
  unfold Heap.bindM at 1. rewrite length_output.
  destruct out as [|b [|a rest]]; try apply tracks_fail.
  destruct (Z.ltb_spec (Z.of_nat (length (b :: a :: rest))) 2) as [H|_];
    [simpl in H; lia|].
  unfold Heap.bindM at 1. rewrite pop_output.
  unfold Heap.bindM at 1. rewrite pop_output.
  cbv zeta. change (Heap.to_number (Heap.VNum a)) with a.
  change (Heap.to_number (Heap.VNum b)) with b.
  change (Heap.is_string (Heap.VStr op)) with (String.eqb op).
  destruct (negb (isFinite a) || negb (isFinite b)); [apply tracks_fail|].
  destruct (String.eqb op "+"); [rewrite push_output; reflexivity|].
  destruct (String.eqb op "-"); [rewrite push_output; reflexivity|].
  destruct (String.eqb op "*"); [rewrite push_output; reflexivity|].
  destruct (String.eqb op "/"); [|apply tracks_fail].
  destruct (strict_eq b pos_zero); [apply tracks_fail|].
  rewrite push_output. reflexivity.
Qed.

Lemma tracks_done (out : list float) (stack : list string) :
  Heap.tracks w0 (Heap.ret tt (Heap.during w0 out stack)) (Done (out, stack)).
Proof. reflexivity. Qed.

(** An application followed by [k] does what [f] does after the
    application on the stack, when [k] does what [f] does. *)
Lemma applyOp_then (op : string) (out : list float) (stack : list string)
    (k : unit -> Heap.M unit)
    (f : list float -> res (list float * list string)) :
  (forall out', Heap.tracks w0 (k tt (Heap.during w0 out' stack)) (f out')) ->
  Heap.tracks w0
    (Heap.bindM (Heap.applyOp o (Heap.VStr op)) k (Heap.during w0 out stack))
    (applyOp op out ≫= f).
Proof.
  intros Hk. pose proof (applyOp_tracks op out stack) as Happ.
  unfold Heap.bindM. destruct (applyOp op out) as [out'|e]; simpl in Happ.
  - rewrite Happ, bind_Done. apply Hk.
  - destruct Happ as (out' & stack' & ->). rewrite bind_Fail.
    exists out', stack'. reflexivity.
Qed.

(** The loop run when the operator [t] is read. *)
Lemma unwind_tracks (t : string) (stack : list string) :
  forall (turns : nat) (out : list float),
    (length stack <= turns)%nat ->
    Heap.tracks w0
      (Heap.unwind turns o (S o) (Heap.VStr t) (Heap.during w0 out stack))
      (unwind t out stack).
Proof.
  induction stack as [|top stack IH]; intros turns out Hturns.
  - destruct turns as [|turns]; [apply tracks_done|].
    simpl Heap.unwind. unfold Heap.bindM at 1. rewrite length_ops.
    apply tracks_done.
  - destruct turns as [|turns]; [simpl in Hturns; lia|].
    simpl Heap.unwind. unfold Heap.bindM at 1. rewrite length_ops.
    destruct (Z.eqb_spec (Z.of_nat (length (top :: stack))) 0) as [H|_];
      [simpl in H; lia|].
    unfold Heap.bindM at 1. rewrite top_of_ops.
    rewrite unwind_cons.
    change (Heap.precedence_val (Heap.VStr top)) with (precedence top).
    change (Heap.precedence_val (Heap.VStr t)) with (precedence t).
    destruct (prec_ge (precedence top) (precedence t)); [|apply tracks_done].
    unfold Heap.bindM at 1. rewrite pop_ops.
    apply applyOp_then. intros out'. apply IH. simpl in Hturns. lia.
Qed.

(** The final loop. *)
Lemma drain_tracks (stack : list string) :
  forall (turns : nat) (out : list float),
    (length stack <= turns)%nat ->
    Heap.tracks w0
      (Heap.drain turns o (S o) (Heap.during w0 out stack))
      (drain out stack ≫= fun out' => Done (out', [])).
Proof.
  induction stack as [|top stack IH]; intros turns out Hturns.
  - destruct turns as [|turns]; [apply tracks_done|].
    simpl Heap.drain. unfold Heap.bindM at 1. rewrite length_ops.
    apply tracks_done.
  - destruct turns as [|turns]; [simpl in Hturns; lia|].
    simpl Heap.drain. unfold Heap.bindM at 1. rewrite length_ops.
    destruct (Z.eqb_spec (Z.of_nat (length (top :: stack))) 0) as [H|_];
      [simpl in H; lia|].
    unfold Heap.bindM at 1. rewrite pop_ops.
    rewrite drain_cons, bind_bind.
    apply applyOp_then. intros out'. apply IH. simpl in Hturns. lia.
Qed.

(** The array passed to the evaluator: at the address [tokens], with the
    strings [toks]. *)
Variable tokens : nat.
Variable toks : list string.
Hypothesis Htokens : Heap.arrays w0 !! tokens = Some (map Heap.VStr toks).

Lemma content_tokens (out : list float) (stack : list string) :
  Heap.content (Heap.during w0 out stack) tokens = map Heap.VStr toks.
Proof.
  rewrite content_old by (apply lookup_lt_Some in Htokens; exact Htokens).
  unfold Heap.content. now rewrite Htokens.
Qed.

Lemma length_tokens (out : list float) (stack : list string) :
  Heap.array_length tokens (Heap.during w0 out stack)
  = (Done (Z.of_nat (length toks)), Heap.during w0 out stack).
Proof.
  unfold Heap.array_length. rewrite content_tokens. now rewrite length_map.
Qed.

Lemma get_token (pre rest : list string) (t : string)
    (out : list float) (stack : list string) :
  toks = pre ++ t :: rest ->
  Heap.array_get tokens (Z.of_nat (length pre)) (Heap.during w0 out stack)
  = (Done (Heap.VStr t), Heap.during w0 out stack).
Proof.
  intros E. unfold Heap.array_get. rewrite content_tokens.
  destruct (Z.ltb_spec (Z.of_nat (length pre)) 0) as [H|_]; [lia|].
  rewrite Nat2Z.id, E, map_app. simpl map.
  replace (length pre) with (length (map Heap.VStr pre)) by apply length_map.
  now rewrite list_lookup_middle.
Qed.

(** One turn of the [for] loop, after the read of [tokens[i]]. *)
Lemma scan_token_tracks (t : string) (out : list float) (stack : list string) :
  Heap.tracks w0
    ((if Heap.is_operator_val (Heap.VStr t) then
        Heap.bindM (Heap.array_length (S o)) (fun k =>
        Heap.bindM (Heap.unwind (Z.to_nat k) o (S o) (Heap.VStr t)) (fun _ =>
        Heap.array_push (S o) (Heap.VStr t)))
      else
        if negb (isFinite (Heap.to_number (Heap.VStr t)))
        then Heap.fail InvalidNumber
        else Heap.array_push o (Heap.VNum (Heap.to_number (Heap.VStr t))))
       (Heap.during w0 out stack))
    (scan_token t (out, stack)).
Proof.
  unfold scan_token.
  change (Heap.is_operator_val (Heap.VStr t)) with (is_operator t).
  change (Heap.to_number (Heap.VStr t)) with (Number t).
  destruct (is_operator t).
  - unfold Heap.bindM at 1. rewrite length_ops.
    replace (unwind t out stack ≫= _)
      with (unwind t out stack ≫= fun st => Done (fst st, t :: snd st))
      by (destruct (unwind t out stack) as [[]|]; reflexivity).
    apply tracks_bind.
    + apply unwind_tracks. rewrite Nat2Z.id. lia.
    + intros out' stack'. simpl. now rewrite push_ops.
  - destruct (negb (isFinite (Number t))); [apply tracks_fail|].
    simpl. now rewrite push_output.
Qed.

(** The [for] loop from the index [length pre]. *)
Lemma scan_tracks (rest : list string) :
  forall (pre : list string) (turns : nat) (out : list float)
         (stack : list string),
    toks = pre ++ rest ->
    (length rest <= turns)%nat ->
    Heap.tracks w0
      (Heap.scan turns tokens o (S o) (Z.of_nat (length pre))
         (Heap.during w0 out stack))
      (scan rest (out, stack)).
Proof.
  induction rest as [|t rest IH]; intros pre turns out stack E Hturns.
  - destruct turns as [|turns]; [apply tracks_done|].
    simpl Heap.scan. unfold Heap.bindM at 1. rewrite length_tokens.
    rewrite E, app_nil_r, Z.ltb_irrefl. apply tracks_done.
  - destruct turns as [|turns]; [simpl in Hturns; lia|].
    simpl Heap.scan. unfold Heap.bindM at 1. rewrite length_tokens.
    destruct (Z.ltb_spec (Z.of_nat (length pre)) (Z.of_nat (length toks)))
      as [_|H]; [|rewrite E, length_app in H; simpl in H; lia].
    unfold Heap.bindM at 1. rewrite (get_token pre rest t out stack E).
    rewrite scan_cons. apply tracks_bind; [apply scan_token_tracks|].
    intros out' stack'.
    replace (Z.of_nat (length pre) + 1) with (Z.of_nat (length (pre ++ [t])))
      by (rewrite length_app; simpl; lia).
    apply IH; [now rewrite <- app_assoc | simpl in Hturns; lia].
Qed.

Lemma first_arrays :
  Heap.with_arrays ((Heap.arrays w0 ++ [[]]) ++ [[]]) (Heap.with_arrays (Heap.arrays w0 ++ [[]]) w0)
  = Heap.during w0 [] [].
Proof. unfold Heap.during, Heap.with_arrays. simpl. now rewrite <- app_assoc. Qed.

(** The run of the evaluator: its result is the one computed on the
    strings of the array, and the world after it is the world before it
    with two more arrays. *)
Lemma evaluateTokens_run :
  exists out stack,
    Heap.evaluateTokens tokens w0
    = (evaluateTokens toks, Heap.during w0 out stack).
Proof.
  unfold Heap.evaluateTokens.
  unfold Heap.bindM at 1. unfold Heap.new_array at 1.
  unfold Heap.bindM at 1. unfold Heap.new_array at 1.
  simpl Heap.arrays. rewrite first_arrays.
  replace (length (Heap.arrays w0 ++ [[]])) with (S o)
    by (rewrite length_app; simpl; lia).
  unfold Heap.bindM at 1. rewrite length_tokens.
  pose proof (scan_tracks toks [] (Z.to_nat (Z.of_nat (length toks))) [] []
                eq_refl) as Hscan.
  rewrite Nat2Z.id in *. specialize (Hscan (Nat.le_refl _)).
  simpl length in Hscan. change (Z.of_nat 0) with 0 in Hscan.
  rewrite evaluateTokens_finish. unfold Heap.bindM at 1.
  destruct (scan toks ([], [])) as [[out stack]|e]; simpl in Hscan.
  - rewrite Hscan, bind_Done. unfold finish.
    unfold Heap.bindM at 1. rewrite length_ops.
    pose proof (drain_tracks stack (Z.to_nat (Z.of_nat (length stack))) out)
      as Hdrain.
    rewrite Nat2Z.id in *. specialize (Hdrain (Nat.le_refl _)).
    unfold Heap.bindM at 1.
    destruct (drain out stack) as [out'|e]; simpl in Hdrain.
    + rewrite Hdrain, bind_Done. unfold Heap.bindM at 1. rewrite length_output.
      destruct out' as [|v [|v' out']].
      * exists [], []. reflexivity.
      * change (negb (Z.of_nat (length [v]) =? 1)) with false. cbv iota.
        unfold Heap.bindM at 1. rewrite bottom_of_output.
        change (Heap.is_finite_number (Heap.VNum v)) with (isFinite v).
        exists [v], []. destruct (isFinite v); reflexivity.
      * exists (v :: v' :: out'), [].
        destruct (Z.eqb_spec (Z.of_nat (length (v :: v' :: out'))) 1) as [H|_];
          [simpl in H; lia | reflexivity].
    + destruct Hdrain as (out' & stack' & ->). rewrite bind_Fail.
      exists out', stack'. reflexivity.
  - destruct Hscan as (out & stack & ->). rewrite bind_Fail.
    exists out, stack. reflexivity.
Qed.

End OnTheHeap.

(** C10.  [evaluateTokens], run on any world with an array of strings at
    the address it is given, returns what the strings alone determine
    (two calls on arrays with the same strings return the same), leaves
    every array of the world as it was, the one it was given included,
    and leaves the four variables as they were. *)
Theorem evaluateTokens_is_pure (w : Heap.World) (tokens : nat)
    (toks : list string) :
  Heap.arrays w !! tokens = Some (map Heap.VStr toks) ->
  let after := snd (Heap.evaluateTokens tokens w) in
  fst (Heap.evaluateTokens tokens w) = evaluateTokens toks
  /\ (forall w' tokens',
        Heap.arrays w' !! tokens' = Some (map Heap.VStr toks) ->
        fst (Heap.evaluateTokens tokens' w') = fst (Heap.evaluateTokens tokens w))
  /\ (forall a, (a < length (Heap.arrays w))%nat ->
        Heap.arrays after !! a = Heap.arrays w !! a)
  /\ Heap.arrays after !! tokens = Some (map Heap.VStr toks)
  /\ Heap.ref_expressionTokens after = Heap.ref_expressionTokens w
  /\ Heap.var_currentInput after = Heap.var_currentInput w
  /\ Heap.var_lastResult after = Heap.var_lastResult w
  /\ Heap.var_isError after = Heap.var_isError w.
Proof.
  intros Htokens after.
  destruct (evaluateTokens_run w tokens toks Htokens) as (out & stack & Hrun).
  assert (Hold : forall a, (a < length (Heap.arrays w))%nat ->
                   Heap.arrays after !! a = Heap.arrays w !! a).
  { intros a Ha. unfold after. rewrite Hrun. simpl. now rewrite lookup_app_l. }
  split; [now rewrite Hrun|]. split.
  - intros w' tokens' Htokens'.
    destruct (evaluateTokens_run w' tokens' toks Htokens') as (out' & stack' & Hrun').
    now rewrite Hrun, Hrun'.
  - split; [exact Hold|]. split.
    + rewrite Hold; [exact Htokens|]. now apply lookup_lt_Some in Htokens.
    + unfold after. rewrite Hrun. repeat split.
Qed.

Lemma evaluateTokens_is_pure_witness :
  let w := Heap.world_of (vars after_twelve_plus_three) in
  Heap.arrays w !! 0%nat = Some (map Heap.VStr ["12"; "+"])
  /\ fst (Heap.evaluateTokens 0 w) = evaluateTokens ["12"; "+"]
  /\ Heap.arrays (snd (Heap.evaluateTokens 0 w)) !! 0%nat
     = Some (map Heap.VStr ["12"; "+"])
  /\ Heap.var_currentInput (snd (Heap.evaluateTokens 0 w)) = "3".
Proof.
  intros w. split; [reflexivity|].
  destruct (evaluateTokens_is_pure w 0 ["12"; "+"] eq_refl)
    as (Hresult & _ & _ & Harray & _ & Hinput & _).
  split; [exact Hresult|]. split; [exact Harray|]. exact Hinput.
Defined.

(** ** Further properties of the input operations *)

(** An operator pressed when the last committed token is an operator and
    nothing is pending replaces that token; after a number it is
    appended. *)
Lemma pushOperator_overwrites (c : Calc) (pre : list string) (last op : string) :
  isError (vars c) = false ->
  op <> "%" ->
  currentInput (vars c) = "" ->
  expressionTokens (vars c) = pre ++ [last] ->
  vars (pushOperator op c)
  = with_tokens (if is_operator last then pre ++ [op] else pre ++ [last; op])
      (vars c).
Proof.
  intros Hok Hop Hin Htok. unfold pushOperator. rewrite Hok.
  destruct (String.eqb_spec op "%") as [E|_]; [contradiction|].
  destruct (alen (expressionTokens (vars c)) =? 0) eqn:Hlen.
  { apply alen_zero in Hlen. rewrite Htok in Hlen. destruct pre; discriminate. }
  simpl andb. cbv iota.
  unfold commitCurrent. rewrite Hin. simpl negb. cbv iota.
  rewrite Htok, aget_last. simpl is_operator_at.
  destruct (is_operator last).
  - rewrite aset_last. reflexivity.
  - rewrite <- app_assoc. reflexivity.
Qed.

(** [backspace] with nothing pending: the last committed token goes; it
    comes back as the pending number, less its last code unit, when it
    starts with a digit or has a dot.  An operator never does. *)
Lemma backspace_on_committed (c : Calc) (pre : list string) (last : string) :
  isError (vars c) = false ->
  currentInput (vars c) = "" ->
  expressionTokens (vars c) = pre ++ [last] ->
  vars (backspace c)
  = with_tokens pre
      (with_input (if test_digit_start_or_dot last then slice_0_m1 last else "")
         (vars c))
  /\ (is_operator last = true -> test_digit_start_or_dot last = false).
Proof.
  intros Hok Hin Htok. split.
  - unfold backspace. rewrite Hok, Hin. simpl truthy. cbv iota.
    destruct (alen (expressionTokens (vars c)) =? 0) eqn:Hlen.
    { apply alen_zero in Hlen. rewrite Htok in Hlen. destruct pre; discriminate. }
    simpl negb. cbv iota. rewrite Htok, aget_last, apop_snoc.
    destruct (test_digit_start_or_dot last); updates; [reflexivity|].
    unfold with_tokens, with_input. simpl. now rewrite Hin.
  - unfold is_operator. intros H.
    repeat (apply orb_true_iff in H as [H|H]);
      apply String.eqb_eq in H; subst last; reflexivity.
Qed.

(** At 10^21 and above [toFixed] answers in exponent notation, and the
    replacement takes the zeros of the exponent: 1e30 is written as
    1e+3, which reads back as 1000. *)
Lemma roundSmart_exponent_zeros :
  toFixed (Number "1e30") 12 = "1e+30"
  /\ roundSmart (Number "1e30") = "1e+3"
  /\ Number "1e+3" = of_Z 1000.
Proof. repeat split; vm_compute; reflexivity. Qed.

Lemma infix_sequences_are_sums_witness :
  infix ["8"; "-"; "3"; "-"; "2"] = true
  /\ exists e,
       parse ["8"; "-"; "3"; "-"; "2"] = Some e
       /\ sum_shape e = true
       /\ tokens_of e = ["8"; "-"; "3"; "-"; "2"]
       /\ evaluateTokens ["8"; "-"; "3"; "-"; "2"] = result_of e.
Proof.
  split; [reflexivity|].
  apply (infix_sequences_are_sums ["8"; "-"; "3"; "-"; "2"]). reflexivity.
Defined.

Lemma pushOperator_overwrites_witness :
  let c := run [EvDigit "3"; EvOperator "+"] initial in
  isError (vars c) = false
  /\ currentInput (vars c) = ""
  /\ expressionTokens (vars c) = ["3"] ++ ["+"]
  /\ vars (pushOperator "-" c) = with_tokens ["3"; "-"] (vars c).
Proof.
  intros c. split; [reflexivity|]. split; [reflexivity|]. split; [reflexivity|].
  apply (pushOperator_overwrites c ["3"] "+" "-");
    try reflexivity; discriminate.
Defined.

Lemma backspace_on_committed_witness :
  isError (vars after_12_plus_75) = false
  /\ currentInput (vars after_12_plus_75) = ""
  /\ expressionTokens (vars after_12_plus_75) = ["12"; "+"] ++ ["75"]
  /\ test_digit_start_or_dot "75" = true
  /\ vars (backspace after_12_plus_75)
     = with_tokens ["12"; "+"] (with_input "7" (vars after_12_plus_75))
  /\ expressionTokens (vars (run negative_token_events initial)) = [] ++ ["-5"]
  /\ test_digit_start_or_dot "-5" = false
  /\ slice_0_m1 "-5" = "-"
  /\ vars (backspace (run negative_token_events initial))
     = with_tokens [] (with_input "" (vars (run negative_token_events initial))).
Proof.
  pose proof (proj1 (backspace_on_committed after_12_plus_75 ["12"; "+"] "75"
                       eq_refl eq_refl eq_refl)) as H.
  pose proof (proj1 (backspace_on_committed (run negative_token_events initial)
                       [] "-5" eq_refl eq_refl eq_refl)) as H'.
  split; [reflexivity|]. split; [reflexivity|]. split; [reflexivity|].
  split; [reflexivity|]. split; [exact H|].
  split; [reflexivity|]. split; [reflexivity|]. split; [reflexivity|].
  exact H'.
Defined.

(** ** Keys and buttons *)

Lemma digit_not_operator (d : ascii) :
  is_digit d = true ->
  is_operator (string_of_char d) || String.eqb (string_of_char d) "%" = false.
Proof.
  destruct d as [[] [] [] [] [] [] [] []]; intros H; try reflexivity;
    discriminate H.
Qed.

(** A key does what the button of the same event does. *)
Lemma keys_as_buttons (c : Calc) :
  (forall d, is_digit d = true ->
     handleKey (string_of_char d) c = handle (EvDigit d) c)
  /\ handleKey "." c = handle EvDot c
  /\ (forall op, is_operator op = true ->
        handleKey op c = handle (EvOperator op) c)
  /\ handleKey "%" c = handle EvPercent c
  /\ handleKey "Enter" c = handle EvEquals c
  /\ handleKey "=" c = handle EvEquals c
  /\ handleKey "Escape" c = handle EvClearAll c
  /\ handleKey "Backspace" c = handle EvBackspace c.
Proof.
  split; [|split; [reflexivity|split; [|split; [|repeat split]]]].
  - intros d Hd. unfold handleKey, handle, click. simpl test_digit.
    rewrite Hd, (digit_not_operator d Hd). reflexivity.
  - intros op Hop. unfold is_operator in Hop.
    repeat (apply orb_true_iff in Hop as [Hop|Hop]);
      apply String.eqb_eq in Hop; subst op; reflexivity.
  - unfold handleKey, handle, click, pushOperator, applyPercent. simpl.
    destruct (isError (vars c)); reflexivity.
Qed.

(** ** The display *)

Lemma updateDisplay_twice (c : Calc) :
  updateDisplay (updateDisplay c) = updateDisplay c.
Proof. reflexivity. Qed.

Lemma operations_update_the_display (c : Calc) :
  updateDisplay c = c ->
  (forall d, updateDisplay (appendDigit d c) = appendDigit d c)
  /\ updateDisplay (appendDot c) = appendDot c
  /\ updateDisplay (negate c) = negate c
  /\ updateDisplay (applyPercent c) = applyPercent c
  /\ (forall op, updateDisplay (pushOperator op c) = pushOperator op c)
  /\ updateDisplay (equals c) = equals c
  /\ updateDisplay (clearEntry c) = clearEntry c
  /\ updateDisplay (backspace c) = backspace c
  /\ updateDisplay (clearAll c) = clearAll c.
Proof.
  intros H.
  assert (Hpct : updateDisplay (applyPercent c) = applyPercent c).
  { unfold applyPercent.
    destruct (isError (vars c)); [exact H|].
    destruct (negb (String.eqb (currentInput (vars c)) "")).
    - destruct (negb _); [exact H | reflexivity].
    - destruct (negb _); [|exact H].
      destruct (aget _ _); [|exact H].
      destruct (negb (is_operator s)); [|exact H].
      destruct (negb _); [exact H | reflexivity]. }
  repeat split; try exact Hpct; try reflexivity.
  - intros d. unfold appendDigit. destruct (isError _); [exact H | reflexivity].
  - unfold appendDot. destruct (isError _); [exact H|].
    destruct (negb _); [reflexivity | exact H].
  - unfold negate. destruct (isError _); [exact H | reflexivity].
  - intros op. unfold pushOperator. destruct (isError _); [exact H|].
    destruct (String.eqb op "%"); [exact Hpct|].
    destruct (_ && _); [|reflexivity].
    destruct (String.eqb op "-"); [reflexivity | exact H].
  - unfold equals. destruct (isError _); [exact H|].
    destruct (alen _ =? 0); [reflexivity|].
    destruct (evaluateTokens _); reflexivity.
  - unfold clearEntry. destruct (isError _); [exact H | reflexivity].
  - unfold backspace. destruct (isError _); [exact H | reflexivity].
Qed.

Lemma react_updates_the_display (i : input) (c : Calc) :
  updateDisplay c = c -> updateDisplay (react i c) = react i c.
Proof.
  intros H.
  destruct (operations_update_the_display c H)
    as (Hdigit & Hdot & Hneg & Hpct & Hop & Heq & Hce & Hbs & Hac).
  destruct i as [action val|k]; simpl.
  - unfold click.
    repeat match goal with
           | |- context [if ?b then _ else _] => destruct b
           end; try assumption; try apply Hop; try apply Hdigit.
    destruct val as [v|]; [|exact H].
    destruct (_ || _); [apply Hop | apply Hdigit].
  - unfold handleKey.
    repeat match goal with
           | |- context [if ?b then _ else _] => destruct b
           end; try assumption; try apply Hop; try apply Hdigit.
Qed.

Lemma reach_snoc (inputs : list input) (i : input) :
  reach (inputs ++ [i]) = react i (reach inputs).
Proof. unfold reach. rewrite fold_left_app. reflexivity. Qed.

Lemma reach_shown (inputs : list input) :
  updateDisplay (reach inputs) = reach inputs.
Proof.
  induction inputs as [|i inputs IH] using rev_ind; [reflexivity|].
  rewrite reach_snoc. apply react_updates_the_display. exact IH.
Qed.

(** The display is never stale: after any clicks and keys, the two nodes
    hold what [updateDisplay] writes for the variables as they are; every
    operation keeps it so. *)
Theorem display_shows_the_variables (inputs : list input) :
  let c := reach inputs in
  screen c = screen (updateDisplay c)
  /\ exprText (screen c) = join " " (expressionTokens (vars c))
  /\ resErrorClass (screen c) = isError (vars c)
  /\ forall i, updateDisplay (react i c) = react i c.
Proof.
  intros c. pose proof (reach_shown inputs) as H. fold c in H.
  split; [now rewrite H|]. split; [now rewrite <- H|].
  split; [now rewrite <- H|].
  intros i. now apply react_updates_the_display.
Qed.

(** ** Entering the error state *)

Lemma commitCurrent_lastResult (s : Session) :
  lastResult (commitCurrent s) = lastResult s.
Proof. unfold commitCurrent. destruct (negb _); reflexivity. Qed.

(** No operation but [equals] sets [isError]. *)
Lemma operations_keep_isError (c : Calc) :
  isError (vars c) = false ->
  (forall d, isError (vars (appendDigit d c)) = false)
  /\ isError (vars (appendDot c)) = false
  /\ isError (vars (negate c)) = false
  /\ isError (vars (applyPercent c)) = false
  /\ (forall op, isError (vars (pushOperator op c)) = false)
  /\ isError (vars (clearEntry c)) = false
  /\ isError (vars (backspace c)) = false
  /\ isError (vars (clearAll c)) = false.
Proof.
  intros H.
  assert (Hpct : isError (vars (applyPercent c)) = false).
  { unfold applyPercent. rewrite H.
    destruct (negb (String.eqb (currentInput (vars c)) "")).
    - destruct (negb _); [exact H | exact H].
    - destruct (negb _); [|exact H].
      destruct (aget _ _); [|exact H].
      destruct (negb (is_operator s)); [|exact H].
      destruct (negb _); exact H. }
  repeat split; try exact Hpct.
  - intros d. unfold appendDigit. rewrite H.
    destruct (_ && _); exact H.
  - unfold appendDot. rewrite H. destruct (negb _); exact H.
  - unfold negate. rewrite H. destruct (truthy _).
    + destruct (startsWith _ _); exact H.
    + destruct (lastResult _); exact H.
  - intros op. unfold pushOperator. rewrite H.
    destruct (String.eqb op "%"); [exact Hpct|].
    destruct (_ && _).
    + destruct (String.eqb op "-"); exact H.
    + simpl. rewrite commitCurrent_isError. exact H.
  - unfold clearEntry. rewrite H. exact H.
  - unfold backspace. rewrite H. destruct (truthy _); [exact H|].
    destruct (negb _); [|exact H].
    destruct (aget _ _); [|exact H].
    destruct (test_digit_start_or_dot _); exact H.
Qed.

(** [equals] sets [isError] with [lastResult] cleared, and not otherwise. *)
Lemma equals_error (c : Calc) :
  isError (vars c) = false ->
  isError (vars (equals c)) = true ->
  lastResult (vars (equals c)) = None.
Proof.
  intros H. unfold equals. rewrite H.
  destruct (alen _ =? 0).
  - simpl. destruct (is_operator_at _); simpl;
      rewrite commitCurrent_isError, H; discriminate.
  - destruct (evaluateTokens _); [|reflexivity].
    simpl. destruct (is_operator_at _); simpl;
      rewrite commitCurrent_isError, H; discriminate.
Qed.

Lemma react_cases (i : input) (c : Calc) :
  calls_equals i = true /\ react i c = equals c
  \/ calls_equals i = false
     /\ (react i c = c
         \/ (exists d, react i c = appendDigit d c)
         \/ react i c = appendDot c
         \/ react i c = negate c
         \/ react i c = applyPercent c
         \/ (exists op, react i c = pushOperator op c)
         \/ react i c = clearEntry c
         \/ react i c = backspace c
         \/ react i c = clearAll c).
Proof.
  destruct i as [action val|k]; simpl.
  - unfold click. destruct action as [a|].
    + destruct (String.eqb_spec a "ac") as [->|_]; [right; split; [reflexivity|tauto]|].
      destruct (String.eqb_spec a "clear") as [->|_]; [right; split; [reflexivity|tauto]|].
      destruct (String.eqb_spec a "backspace") as [->|_]; [right; split; [reflexivity|tauto]|].
      destruct (String.eqb_spec a "dot") as [->|_]; [right; split; [reflexivity|tauto]|].
      destruct (String.eqb_spec a "negate") as [->|_]; [right; split; [reflexivity|tauto]|].
      destruct (String.eqb_spec a "equals") as [->|_]; [left; split; reflexivity|].
      right. split; [reflexivity|]. destruct val as [v|]; [|tauto].
      destruct (_ || _); [do 5 right; left; eexists; reflexivity|].
      right; left; eexists; reflexivity.
    + right. split; [reflexivity|]. destruct val as [v|]; [|tauto].
      destruct (_ || _); [do 5 right; left; eexists; reflexivity|].
      right; left; eexists; reflexivity.
  - unfold handleKey. destruct (test_digit k) eqn:Hd.
    { right. split.
      - destruct (String.eqb_spec k "Enter") as [->|_]; [discriminate|].
        destruct (String.eqb_spec k "=") as [->|_]; [discriminate|]. reflexivity.
      - right; left; eexists; reflexivity. }
    destruct (String.eqb_spec k ".") as [->|_]; [right; split; [reflexivity|tauto]|].
    destruct (String.eqb_spec k "+") as [->|_];
      [right; split; [reflexivity|do 5 right; left; eexists; reflexivity]|].
    destruct (String.eqb_spec k "-") as [->|_];
      [right; split; [reflexivity|do 5 right; left; eexists; reflexivity]|].
    destruct (String.eqb_spec k "*") as [->|_];
      [right; split; [reflexivity|do 5 right; left; eexists; reflexivity]|].
    destruct (String.eqb_spec k "/") as [->|_];
      [right; split; [reflexivity|do 5 right; left; eexists; reflexivity]|].
    destruct (String.eqb_spec k "%") as [->|_]; [right; split; [reflexivity|tauto]|].
    destruct (String.eqb k "Enter" || String.eqb k "=") eqn:E;
      [left; split; reflexivity|].
    right. split; [reflexivity|].
    destruct (String.eqb k "Escape"); [tauto|].
    destruct (String.eqb k "Backspace"); tauto.
Qed.

Lemma react_keeps_isError (i : input) (c : Calc) :
  isError (vars c) = false -> calls_equals i = false ->
  isError (vars (react i c)) = false.
Proof.
  intros H Hi.
  destruct (operations_keep_isError c H)
    as (Hdigit & Hdot & Hneg & Hpct & Hop & Hce & Hbs & Hac).
  destruct (react_cases i c) as [[E _]|[_ Hc]]; [congruence|].
  destruct Hc as [E|[[d E]|[E|[E|[E|[[op E]|[E|[E|E]]]]]]]]; rewrite E; auto.
Qed.

Lemma react_in_error (i : input) (c : Calc) :
  isError (vars c) = true ->
  react i c = c \/ isError (vars (react i c)) = false.
Proof.
  intros H.
  assert (Hdigit : forall d, appendDigit d c = c)
    by (intros d; unfold appendDigit; rewrite H; reflexivity).
  assert (Hop : forall op, pushOperator op c = c)
    by (intros op; unfold pushOperator; rewrite H; reflexivity).
  assert (Hdot : appendDot c = c) by (unfold appendDot; now rewrite H).
  assert (Hneg : negate c = c) by (unfold negate; now rewrite H).
  assert (Hpct : applyPercent c = c) by (unfold applyPercent; now rewrite H).
  assert (Heq : equals c = c) by (unfold equals; now rewrite H).
  assert (Hce : clearEntry c = c) by (unfold clearEntry; now rewrite H).
  assert (Hbs : backspace c = c) by (unfold backspace; now rewrite H).
  destruct (react_cases i c) as [[_ E]|[_ Hc]]; [left; congruence|].
  destruct Hc as [E|[[d E]|[E|[E|[E|[[op E]|[E|[E|E]]]]]]]]; rewrite E; auto.
Qed.

Lemma reach_error (inputs : list input) :
  isError (vars (reach inputs)) = true ->
  lastResult (vars (reach inputs)) = None.
Proof.
  induction inputs as [|i inputs IH] using rev_ind; [discriminate|].
  rewrite reach_snoc. intros H.
  destruct (isError (vars (reach inputs))) eqn:Herr.
  - destruct (react_in_error i _ Herr) as [E|E]; [|congruence].
    rewrite E. now apply IH.
  - destruct (calls_equals i) eqn:Hi.
    + destruct (react_cases i (reach inputs)) as [[_ E]|[E _]]; [|congruence].
      rewrite E in *. now apply equals_error.
    + rewrite (react_keeps_isError i _ Herr Hi) in H. discriminate.
Qed.

(** In the error state, however it was reached, [lastResult] is [null]
    and the display shows "Error" with the [error] class set. *)
Theorem error_state_shows_Error (inputs : list input) :
  isError (vars (reach inputs)) = true ->
  lastResult (vars (reach inputs)) = None
  /\ resText (screen (reach inputs)) = "Error"
  /\ resErrorClass (screen (reach inputs)) = true.
Proof.
  intros H. split; [now apply reach_error|].
  rewrite <- (reach_shown inputs). simpl. rewrite H. now split.
Qed.

Lemma error_state_shows_Error_witness :
  let inputs := [Typed "6"; Pressed None (Some "/"); Typed "0"; Typed "Enter"] in
  isError (vars (reach inputs)) = true
  /\ lastResult (vars (reach inputs)) = None
  /\ resText (screen (reach inputs)) = "Error".
Proof.
  intros inputs. split; [reflexivity|].
  destruct (error_state_shows_Error inputs eq_refl) as (H1 & H2 & _).
  split; assumption.
Defined.

(** Only [equals] enters the error state: when an input of any kind sets
    [isError], that input called [equals], and the evaluator failed on the
    tokens [equals] gave it. *)
Theorem only_equals_fails (i : input) (c : Calc) :
  isError (vars c) = false ->
  isError (vars (react i c)) = true ->
  calls_equals i = true
  /\ react i c = equals c
  /\ exists err, evaluateTokens (finalTokens (vars c)) = Fail err.
Proof.
  intros H Herr.
  destruct (calls_equals i) eqn:Hi.
  - destruct (react_cases i c) as [[_ E]|[E _]]; [|congruence].
    split; [reflexivity|]. split; [exact E|].
    rewrite E in Herr. unfold equals in Herr. rewrite H in Herr.
    unfold finalTokens.
    destruct (is_operator_at _); simpl in *.
    + destruct (alen _ =? 0).
      { simpl in Herr. rewrite commitCurrent_isError, H in Herr. discriminate. }
      destruct (evaluateTokens _) as [v|err]; [|now exists err].
      simpl in Herr. rewrite commitCurrent_isError, H in Herr. discriminate.
    + destruct (alen _ =? 0).
      { simpl in Herr. rewrite commitCurrent_isError, H in Herr. discriminate. }
      destruct (evaluateTokens _) as [v|err]; [|now exists err].
      simpl in Herr. rewrite commitCurrent_isError, H in Herr. discriminate.
  - rewrite (react_keeps_isError i c H Hi) in Herr. discriminate.
Qed.

Lemma only_equals_fails_witness :
  let c := run [EvDigit "6"; EvOperator "/"; EvDigit "0"] initial in
  isError (vars c) = false
  /\ isError (vars (react (Typed "=") c)) = true
  /\ react (Typed "=") c = equals c.
Proof.
  intros c. split; [reflexivity|]. split; [reflexivity|].
  exact (proj1 (proj2 (only_equals_fails (Typed "=") c eq_refl eq_refl))).
Defined.

(** ** negate *)

Lemma fneg_fneg (x : float) : fneg (fneg x) = x.
Proof. destruct x as [[]|[]| |[] m e]; reflexivity. Qed.

Lemma string_cons_cons_neq (a b : ascii) (s : string) : s <> String a (String b s).
Proof.
  intros E. apply (f_equal String.length) in E. simpl in E. lia.
Qed.

Lemma negate_vars (c : Calc) :
  isError (vars c) = false ->
  vars (negate c)
  = if truthy (currentInput (vars c)) then
      if startsWith (currentInput (vars c)) "-"
      then with_input (slice_1 (currentInput (vars c))) (vars c)
      else with_input ("-" +:+ currentInput (vars c)) (vars c)
    else match lastResult (vars c) with
         | Some r => with_result (Some (fneg r)) (vars c)
         | None => vars c
         end.
Proof. intros H. unfold negate. rewrite H. reflexivity. Qed.

Lemma negate_isError (c : Calc) :
  isError (vars c) = false -> isError (vars (negate c)) = false.
Proof.
  intros H. rewrite (negate_vars c H).
  destruct (truthy _); [destruct (startsWith _ _); exact H|].
  destruct (lastResult _); exact H.
Qed.

Lemma startsWith_minus (a : ascii) (r : string) :
  startsWith (String a r) "-" = Ascii.eqb "-" a.
Proof.
  unfold startsWith. cbn [strip_prefix].
  destruct (Ascii.eqb "-" a); reflexivity.
Qed.

Lemma startsWith_minus_minus (a : ascii) (r : string) :
  startsWith (String a r) "--" = Ascii.eqb "-" a && startsWith r "-".
Proof.
  unfold startsWith. cbn [strip_prefix].
  destruct (Ascii.eqb "-" a); [|reflexivity].
  destruct r as [|b r']; [reflexivity|]. cbn [strip_prefix].
  destruct (Ascii.eqb "-" b); reflexivity.
Qed.

(** The sign toggle pressed twice gives back the variables it started
    from, except on a pending number that is a lone "-" or starts with
    "--": there the second press does not undo the first. *)
Theorem negate_twice (c : Calc) :
  isError (vars c) = false ->
  vars (negate (negate c)) = vars c
  <-> currentInput (vars c) <> "-"
      /\ startsWith (currentInput (vars c)) "--" = false.
Proof.
  intros H.
  rewrite (negate_vars (negate c) (negate_isError c H)), (negate_vars c H).
  destruct c as [[tokens input result err] scr].
  cbn [vars isError currentInput lastResult] in *. subst err.
  destruct input as [|a r].
  - cbn [truthy]. split; [intros _; split; [discriminate|reflexivity]|intros _].
    destruct result as [x|]; cbn; [now rewrite fneg_fneg | reflexivity].
  - cbn [truthy]. rewrite startsWith_minus, startsWith_minus_minus.
    destruct (Ascii.eqb_spec "-" a) as [<-|Ha].
    + cbn [slice_1 with_input currentInput lastResult expressionTokens isError andb].
      destruct r as [|b r'].
      * cbn [truthy]. split; [|intros [E _]; now elim E].
        destruct result as [x|]; cbn; discriminate.
      * cbn [truthy]. rewrite startsWith_minus.
        destruct (Ascii.eqb_spec "-" b) as [<-|Hb].
        -- cbn [slice_1 with_input currentInput lastResult expressionTokens isError].
           split; [|intros [_ E]; discriminate].
           intros [= E]. now apply string_cons_cons_neq in E.
        -- cbn [with_input currentInput lastResult expressionTokens isError].
           split; [|reflexivity].
           intros _. split; [discriminate | reflexivity].
    + cbn [with_input currentInput lastResult expressionTokens isError andb].
      change ("-" +:+ String a r) with (String "-" (String a r)).
      rewrite startsWith_minus. cbn.
      split; [|reflexivity]. intros _. split; [|reflexivity].
      intros [= E]. now elim Ha.
Qed.

Lemma negate_twice_witness :
  let c := run [EvDigit "1"; EvDot; EvDigit "5"] initial in
  isError (vars c) = false
  /\ currentInput (vars c) = "1.5"
  /\ vars (negate (negate c)) = vars c.
Proof.
  intros c. split; [reflexivity|]. split; [reflexivity|].
  apply (negate_twice c); [reflexivity|]. split; [discriminate | reflexivity].
Defined.

(** ** Typing a number *)

Lemma run_cons (e : event) (es : list event) (c : Calc) :
  run (e :: es) c = run es (handle e c).
Proof. reflexivity. Qed.

Lemma run_app (es1 es2 : list event) (c : Calc) :
  run (es1 ++ es2) c = run es2 (run es1 c).
Proof. unfold run. apply fold_left_app. Qed.

Lemma handle_digit (d : ascii) (c : Calc) :
  is_digit d = true -> handle (EvDigit d) c = appendDigit (string_of_char d) c.
Proof.
  intros Hd. unfold handle, click. cbn [String.eqb].
  now rewrite (digit_not_operator d Hd).
Qed.

Lemma with_input_same (s : Session) : with_input (currentInput s) s = s.
Proof. destruct s; reflexivity. Qed.

Lemma appendDigit_vars (d : string) (c : Calc) :
  isError (vars c) = false ->
  vars (appendDigit d c)
  = with_input (if String.eqb (currentInput (vars c)) "0" && negb (String.eqb d ".")
                then d else currentInput (vars c) +:+ d) (vars c).
Proof.
  intros H. unfold appendDigit. rewrite H.
  destruct (_ && _); reflexivity.
Qed.

Lemma snoc_not_short (p : string) (d : ascii) :
  p <> "" -> p +:+ string_of_char d <> "" /\ p +:+ string_of_char d <> "0".
Proof.
  intros Hp. destruct p as [|a [|b r]]; [contradiction| |]; split; discriminate.
Qed.

(** Digits typed after a pending number other than "0" are appended. *)
Lemma digits_are_appended (ds : list ascii) :
  forall c,
    isError (vars c) = false ->
    currentInput (vars c) <> "" -> currentInput (vars c) <> "0" ->
    forallb is_digit ds = true ->
    vars (run (map EvDigit ds) c)
    = with_input (currentInput (vars c) +:+ string_of_list_ascii ds) (vars c).
Proof.
  induction ds as [|d ds IH]; intros c Hok Hne H0 Hds.
  - cbn [map run fold_left string_of_list_ascii].
    now rewrite append_nil_r, with_input_same.
  - cbn [forallb] in Hds. apply andb_true_iff in Hds as [Hd Hds].
    cbn [map]. rewrite run_cons, (handle_digit d c Hd).
    pose proof (appendDigit_vars (string_of_char d) c Hok) as Hv.
    destruct (String.eqb_spec (currentInput (vars c)) "0") as [E|_];
      [contradiction|]. cbn [andb] in Hv.
    destruct (snoc_not_short (currentInput (vars c)) d Hne) as [H1 H2].
    rewrite IH; rewrite ?Hv; try assumption.
    cbn [currentInput with_input string_of_list_ascii].
    rewrite append_assoc. reflexivity.
Qed.

Lemma digit_not_dot (d : ascii) :
  is_digit d = true -> String.eqb (string_of_char d) "." = false.
Proof.
  destruct d as [[] [] [] [] [] [] [] []]; intros H; try reflexivity;
    discriminate H.
Qed.

(** The first digit typed, or a digit typed on "0", is the pending
    number. *)
Lemma digit_on_zero (d : ascii) (c : Calc) :
  isError (vars c) = false ->
  currentInput (vars c) = "" \/ currentInput (vars c) = "0" ->
  is_digit d = true ->
  vars (appendDigit (string_of_char d) c)
  = with_input (string_of_char d) (vars c).
Proof.
  intros Hok Hin Hd. rewrite (appendDigit_vars _ c Hok), (digit_not_dot d Hd).
  destruct Hin as [-> | ->]; reflexivity.
Qed.

Lemma digits_on_zero (ds : list ascii) :
  forall c,
    isError (vars c) = false ->
    currentInput (vars c) = "" \/ currentInput (vars c) = "0" ->
    forallb is_digit ds = true -> ds <> [] ->
    vars (run (map EvDigit ds) c) = with_input (typed ds) (vars c).
Proof.
  induction ds as [|d ds IH]; intros c Hok Hin Hds Hne; [contradiction|].
  cbn [forallb] in Hds. apply andb_true_iff in Hds as [Hd Hds].
  cbn [map]. rewrite run_cons, (handle_digit d c Hd).
  pose proof (digit_on_zero d c Hok Hin Hd) as Hv.
  assert (Hok' : isError (vars (appendDigit (string_of_char d) c)) = false)
    by (rewrite Hv; exact Hok).
  unfold typed. cbn [string_of_list_ascii strip_zeros_start].
  destruct (Ascii.eqb_spec d "0") as [->|Hd0].
  - destruct ds as [|d' ds'].
    + cbn [map run fold_left strip_zeros_start]. exact Hv.
    + rewrite IH; try assumption; try discriminate.
      * rewrite Hv. reflexivity.
      * right. rewrite Hv. reflexivity.
  - rewrite digits_are_appended; try assumption.
    + rewrite Hv. reflexivity.
    + rewrite Hv. discriminate.
    + rewrite Hv. cbn [currentInput with_input]. intros [= E]. now elim Hd0.
Qed.

Lemma all_digits_strip_start (s : string) :
  all_digits s = true -> all_digits (strip_zeros_start s) = true.
Proof.
  induction s as [|c r IH]; [reflexivity|]. intros H. cbn [strip_zeros_start].
  destruct (Ascii.eqb c "0"); [|exact H].
  cbn [all_digits] in H. apply andb_true_iff in H as [_ H]. now apply IH.
Qed.

Lemma all_digits_of_list (ds : list ascii) :
  forallb is_digit ds = true -> all_digits (string_of_list_ascii ds) = true.
Proof.
  induction ds as [|d ds IH]; [reflexivity|]. cbn. intros H.
  apply andb_true_iff in H as [Hd H]. now rewrite Hd, IH.
Qed.

Lemma typed_integer_digits (ds : list ascii) :
  forallb is_digit ds = true ->
  all_digits (typed_integer ds) = true /\ typed_integer ds <> "".
Proof.
  intros H. destruct ds as [|d ds]; [split; [reflexivity|discriminate]|].
  unfold typed_integer, typed.
  pose proof (all_digits_strip_start _ (all_digits_of_list _ H)) as Hs.
  destruct (strip_zeros_start _); [split; [reflexivity|discriminate]|].
  split; [exact Hs | discriminate].
Qed.

Lemma appendDot_vars (c : Calc) :
  isError (vars c) = false ->
  includes (currentInput (vars c)) "." = false ->
  vars (appendDot c)
  = with_input (if truthy (currentInput (vars c))
                then currentInput (vars c) +:+ "." else "0.") (vars c).
Proof. intros H Hp. unfold appendDot. rewrite H, Hp. reflexivity. Qed.

(** Digits typed into an empty pending number give the number typed,
    without the zeros typed first; the dot and further digits are
    appended to it, after "0" when no digit came before the dot. *)
Theorem typing_a_number (c : Calc) (int frac : list ascii) :
  isError (vars c) = false ->
  currentInput (vars c) = "" ->
  forallb is_digit int = true ->
  forallb is_digit frac = true ->
  vars (run (map EvDigit int) c) = with_input (typed int) (vars c)
  /\ vars (run (map EvDigit int ++ EvDot :: map EvDigit frac) c)
     = with_input (typed_integer int +:+ "." +:+ string_of_list_ascii frac)
         (vars c).
Proof.
  intros Hok Hin Hint Hfrac.
  assert (H1 : vars (run (map EvDigit int) c) = with_input (typed int) (vars c)).
  { destruct int as [|d ds].
    - cbn. rewrite <- Hin. symmetry. apply with_input_same.
    - apply digits_on_zero; try assumption; [now left | discriminate]. }
  split; [exact H1|].
  rewrite run_app, run_cons.
  change (handle EvDot (run (map EvDigit int) c))
    with (appendDot (run (map EvDigit int) c)).
  set (c1 := run (map EvDigit int) c) in *.
  destruct (typed_integer_digits int Hint) as [Hd Hne].
  assert (Hdot : vars (appendDot c1)
                 = with_input (typed_integer int +:+ ".") (vars c)).
  { rewrite appendDot_vars; rewrite H1; try exact Hok.
    - cbn [currentInput with_input]. destruct int as [|d ds]; [reflexivity|].
      cbn [typed_integer] in *. destruct (typed (d :: ds)); [now elim Hne|].
      reflexivity.
    - cbn [currentInput with_input]. destruct int as [|d ds]; [reflexivity|].
      now apply all_digits_no_point. }
  rewrite digits_are_appended; rewrite ?Hdot; try assumption.
  - cbn [currentInput with_input]. now rewrite append_assoc.
  - cbn [currentInput with_input]. destruct (typed_integer int); [now elim Hne|].
    discriminate.
  - cbn [currentInput with_input].
    destruct (typed_integer int) as [|a [|b r]]; [now elim Hne| |]; discriminate.
Qed.

Lemma typing_a_number_witness :
  vars (run (map EvDigit ["0"; "0"; "7"; "0"]%char ++ EvDot
             :: map EvDigit ["2"; "5"]%char) initial)
  = with_input "70.25" (vars initial).
Proof.
  exact (proj2 (typing_a_number initial ["0"; "0"; "7"; "0"]%char
                  ["2"; "5"]%char eq_refl eq_refl eq_refl eq_refl)).
Defined.

(** A second dot is ignored: [appendDot] after [appendDot] changes
    nothing, whatever the state; outside the error state the pending
    number has its dot after the first. *)
Theorem appendDot_twice (c : Calc) :
  appendDot (appendDot c) = appendDot c
  /\ (isError (vars c) = false ->
      includes (currentInput (vars (appendDot c))) "." = true).
Proof.
  destruct (isError (vars c)) eqn:Hok.
  { split; [|discriminate]. unfold appendDot. now rewrite Hok, Hok. }
  destruct (includes (currentInput (vars c)) ".") eqn:Hp.
  - assert (E : appendDot c = c) by (unfold appendDot; now rewrite Hok, Hp).
    rewrite !E. split; [reflexivity | intros _; exact Hp].
  - assert (Hp' : includes (if truthy (currentInput (vars c))
                            then currentInput (vars c) +:+ "." else "0.") "."
                  = true).
    { destruct (truthy _); [|reflexivity].
      rewrite includes_app. apply orb_true_r. }
    pose proof (appendDot_vars c Hok Hp) as Hv.
    split.
    + unfold appendDot at 1. rewrite Hv.
      cbn [isError with_input currentInput]. now rewrite Hok, Hp'.
    + intros _. rewrite Hv. exact Hp'.
Qed.

(** ** Undoing *)

Lemma slice_0_m1_snoc (s : string) (d : ascii) :
  slice_0_m1 (s +:+ string_of_char d) = s.
Proof.
  induction s as [|a r IH]; [reflexivity|].
  change (String a r +:+ string_of_char d) with (String a (r +:+ string_of_char d)).
  cbn [slice_0_m1]. rewrite IH.
  destruct r; reflexivity.
Qed.

Lemma truthy_snoc (s : string) (d : ascii) :
  truthy (s +:+ string_of_char d) = true.
Proof. destruct s; reflexivity. Qed.

Lemma backspace_pending (c : Calc) :
  isError (vars c) = false ->
  truthy (currentInput (vars c)) = true ->
  backspace c
  = updateDisplay
      (set_vars (with_input (slice_0_m1 (currentInput (vars c))) (vars c)) c).
Proof. intros H Hin. unfold backspace. now rewrite H, Hin. Qed.

Lemma updateDisplay_vars (c c' : Calc) :
  vars c = vars c' -> updateDisplay c = updateDisplay c'.
Proof. intros E. unfold updateDisplay. now rewrite E. Qed.

Lemma not_at_start (s : Session) :
  expressionTokens s <> [] \/ currentInput s <> "" ->
  (alen (expressionTokens s) =? 0) && negb (truthy (currentInput s)) = false.
Proof.
  intros Hne. destruct (alen _ =? 0) eqn:Hlen; [|reflexivity].
  apply alen_zero in Hlen.
  destruct (currentInput s); [|reflexivity].
  destruct Hne as [Hne|Hne]; contradiction.
Qed.

(** An operator pressed, outside the error state and not at the very
    start, leaves the tokens [equals] would evaluate, then the operator;
    nothing is pending. *)
Lemma pushOperator_vars (op : string) (c : Calc) :
  isError (vars c) = false ->
  op <> "%" ->
  expressionTokens (vars c) <> [] \/ currentInput (vars c) <> "" ->
  vars (pushOperator op c)
  = with_input "" (with_tokens (finalTokens (vars c) ++ [op]) (vars c)).
Proof.
  intros Hok Hop Hne. unfold pushOperator. rewrite Hok.
  destruct (String.eqb_spec op "%") as [E|_]; [contradiction|].
  rewrite (not_at_start _ Hne). unfold finalTokens.
  set (s1 := commitCurrent (vars c)).
  assert (Hs1 : with_tokens (expressionTokens s1) (with_input "" (vars c)) = s1).
  { unfold s1, commitCurrent.
    destruct (String.eqb_spec (currentInput (vars c)) "") as [E|_]; cbn [negb].
    - rewrite <- E. destruct (vars c); reflexivity.
    - reflexivity. }
  cbn [vars updateDisplay set_vars].
  destruct (array_snoc_cases (expressionTokens s1)) as [E|(pre & last & E)].
  - rewrite E. cbn [alen length aget is_operator_at app].
    change (aget [] (0 - 1)) with (@None string). cbn [is_operator_at].
    rewrite <- Hs1 at 1. rewrite E. reflexivity.
  - rewrite E, aget_last. cbn [is_operator_at].
    destruct (is_operator last).
    + rewrite aset_last, apop_snoc. rewrite <- Hs1 at 1. reflexivity.
    + rewrite <- Hs1 at 1. reflexivity.
Qed.

Lemma finalTokens_committed (tokens : list string) (last : string) (s : Session) :
  finalTokens (with_input "" (with_tokens (tokens ++ [last]) s))
  = if is_operator last then tokens else tokens ++ [last].
Proof.
  unfold finalTokens, commitCurrent.
  cbn [currentInput with_input with_tokens expressionTokens String.eqb negb].
  rewrite aget_last, apop_snoc. reflexivity.
Qed.

Lemma backspace_committed (c : Calc) (pre : list string) (last : string) :
  isError (vars c) = false ->
  currentInput (vars c) = "" ->
  expressionTokens (vars c) = pre ++ [last] ->
  test_digit_start_or_dot last = false ->
  vars (backspace c) = with_tokens pre (vars c).
Proof.
  intros Hok Hin Htok Htest. unfold backspace. rewrite Hok, Hin.
  cbn [truthy].
  destruct (alen (expressionTokens (vars c)) =? 0) eqn:Hlen.
  { apply alen_zero in Hlen. rewrite Htok in Hlen. destruct pre; discriminate. }
  cbn [negb]. rewrite Htok, aget_last, apop_snoc, Htest. reflexivity.
Qed.

Lemma operator_not_digit_or_dot (op : string) :
  is_operator op = true -> test_digit_start_or_dot op = false.
Proof.
  unfold is_operator. intros H.
  repeat (apply orb_true_iff in H as [H|H]);
    apply String.eqb_eq in H; subst op; reflexivity.
Qed.

Lemma operator_not_percent (op : string) : is_operator op = true -> op <> "%".
Proof. intros H ->. discriminate H. Qed.

(** [backspace] undoes the key before it: a digit typed on a pending
    number other than "0", a dot typed on a pending number without one,
    an operator pressed when no number is pending and the last committed
    token is a number. *)
Theorem backspace_undoes_the_last_key (c : Calc) :
  isError (vars c) = false ->
  (forall d, currentInput (vars c) <> "0" ->
     backspace (appendDigit (string_of_char d) c) = updateDisplay c)
  /\ (currentInput (vars c) <> "" ->
      includes (currentInput (vars c)) "." = false ->
      backspace (appendDot c) = updateDisplay c)
  /\ (forall op pre last,
        is_operator op = true ->
        currentInput (vars c) = "" ->
        expressionTokens (vars c) = pre ++ [last] ->
        is_operator last = false ->
        backspace (pushOperator op c) = updateDisplay c).
Proof.
  intros Hok. split; [|split].
  - intros d H0.
    pose proof (appendDigit_vars (string_of_char d) c Hok) as Hv.
    destruct (String.eqb_spec (currentInput (vars c)) "0") as [E|_];
      [contradiction|]. cbn [andb] in Hv.
    rewrite backspace_pending; rewrite ?Hv; try exact Hok;
      try apply truthy_snoc.
    apply updateDisplay_vars. cbn [vars set_vars currentInput with_input].
    rewrite slice_0_m1_snoc. destruct (vars c); reflexivity.
  - intros Hne Hp.
    pose proof (appendDot_vars c Hok Hp) as Hv.
    destruct (currentInput (vars c)) as [|a r] eqn:Hin; [contradiction|].
    cbn [truthy] in Hv.
    rewrite backspace_pending; rewrite ?Hv; try exact Hok;
      try apply (truthy_snoc _ "."%char).
    apply updateDisplay_vars. cbn [vars set_vars currentInput with_input].
    rewrite (slice_0_m1_snoc _ "."%char). rewrite <- Hin.
    destruct (vars c); reflexivity.
  - intros op pre last Hop Hin Htok Hlast.
    destruct c as [[tokens input result err] scr].
    cbn [vars isError currentInput expressionTokens] in *. subst tokens input err.
    set (c := mkCalc (mkSession (pre ++ [last]) "" result false) scr).
    assert (Hv : vars (pushOperator op c)
                 = mkSession ((pre ++ [last]) ++ [op]) "" result false).
    { rewrite pushOperator_vars;
        [|reflexivity|now apply operator_not_percent
         |left; cbn; destruct pre; discriminate].
      change (vars c)
        with (with_input "" (with_tokens (pre ++ [last])
                               (mkSession [] "" result false))).
      rewrite finalTokens_committed, Hlast. reflexivity. }
    assert (Hv' : vars (backspace (pushOperator op c)) = vars c).
    { rewrite (backspace_committed _ (pre ++ [last]) op); rewrite ?Hv;
        try reflexivity.
      now apply operator_not_digit_or_dot. }
    unfold backspace in *.
    destruct (isError (vars (pushOperator op c))) eqn:E.
    { rewrite Hv in E. discriminate. }
    apply updateDisplay_vars. exact Hv'.
Qed.

Lemma backspace_undoes_the_last_key_witness :
  let c := run [EvDigit "1"; EvDigit "2"] initial in
  isError (vars c) = false
  /\ backspace (appendDigit "3" c) = updateDisplay c
  /\ backspace (appendDot c) = updateDisplay c
  /\ backspace (pushOperator "+" (run [EvOperator "*"; EvDigit "4"; EvEquals] c))
     = updateDisplay (run [EvOperator "*"; EvDigit "4"; EvEquals] c).
Proof.
  intros c. split; [reflexivity|].
  destruct (backspace_undoes_the_last_key c eq_refl) as (Hdigit & Hdot & _).
  split; [apply (Hdigit "3"%char); discriminate|].
  split; [apply Hdot; [discriminate | reflexivity]|].
  destruct (backspace_undoes_the_last_key
              (run [EvOperator "*"; EvDigit "4"; EvEquals] c) eq_refl)
    as (_ & _ & Hop).
  apply (Hop "+" [] "48"); reflexivity.
Defined.

(** ** Operators and equals *)

Lemma shown_by_vars (c c' : Calc) :
  updateDisplay c = c -> updateDisplay c' = c' -> vars c = vars c' -> c = c'.
Proof. intros H H' E. rewrite <- H, <- H'. now apply updateDisplay_vars. Qed.

Lemma pushOperator_shown (op : string) (c : Calc) :
  isError (vars c) = false ->
  op <> "%" ->
  expressionTokens (vars c) <> [] \/ currentInput (vars c) <> "" ->
  updateDisplay (pushOperator op c) = pushOperator op c.
Proof.
  intros Hok Hop Hne. unfold pushOperator. rewrite Hok.
  destruct (String.eqb_spec op "%") as [E|_]; [contradiction|].
  now rewrite (not_at_start _ Hne).
Qed.

(** Operators pressed one after the other: the last one stands.  Outside
    the error state, once a number is pending or a token committed, an
    operator and then a second one leave what the second alone leaves. *)
Theorem last_operator_wins (c : Calc) (op1 op2 : string) :
  isError (vars c) = false ->
  is_operator op1 = true ->
  is_operator op2 = true ->
  expressionTokens (vars c) <> [] \/ currentInput (vars c) <> "" ->
  pushOperator op2 (pushOperator op1 c) = pushOperator op2 c
  /\ vars (pushOperator op2 c)
     = with_input "" (with_tokens (finalTokens (vars c) ++ [op2]) (vars c)).
Proof.
  intros Hok Hop1 Hop2 Hne.
  pose proof (pushOperator_vars op1 c Hok (operator_not_percent _ Hop1) Hne) as H1.
  pose proof (pushOperator_vars op2 c Hok (operator_not_percent _ Hop2) Hne) as H2.
  split; [|exact H2].
  assert (Hok1 : isError (vars (pushOperator op1 c)) = false)
    by (rewrite H1; exact Hok).
  assert (Hne1 : expressionTokens (vars (pushOperator op1 c)) <> []
                 \/ currentInput (vars (pushOperator op1 c)) <> "").
  { left. rewrite H1. cbn [expressionTokens with_input with_tokens].
    destruct (finalTokens (vars c)); discriminate. }
  apply shown_by_vars.
  - now apply pushOperator_shown; [|apply operator_not_percent|].
  - now apply pushOperator_shown; [|apply operator_not_percent|].
  - rewrite (pushOperator_vars op2 _ Hok1 (operator_not_percent _ Hop2) Hne1).
    rewrite H1, H2, finalTokens_committed, Hop1. reflexivity.
Qed.

Lemma last_operator_wins_witness :
  let c := run [EvDigit "7"] initial in
  pushOperator "*" (pushOperator "+" c) = pushOperator "*" c
  /\ expressionTokens (vars (pushOperator "*" c)) = ["7"; "*"].
Proof.
  intros c.
  destruct (last_operator_wins c "+" "*" eq_refl eq_refl eq_refl) as [H1 H2].
  - right. discriminate.
  - split; [exact H1|]. rewrite H2. reflexivity.
Defined.

(** What [equals] leaves, from the tokens it evaluates. *)
Lemma equals_vars (c : Calc) :
  isError (vars c) = false ->
  vars (equals c)
  = match finalTokens (vars c) with
    | [] => mkSession [] "" (Some (result_or_zero (lastResult (vars c)))) false
    | _ :: _ =>
        match evaluateTokens (finalTokens (vars c)) with
        | Done v => mkSession [roundSmart v] "" (Some v) false
        | Fail _ => mkSession (finalTokens (vars c)) "" None true
        end
    end.
Proof.
  intros Hok. unfold equals. rewrite Hok. unfold finalTokens.
  set (s1 := commitCurrent (vars c)).
  assert (Hin : currentInput s1 = "") by apply commitCurrent_input.
  assert (Herr : isError s1 = false)
    by (unfold s1; now rewrite commitCurrent_isError).
  assert (Hres : lastResult s1 = lastResult (vars c))
    by apply commitCurrent_lastResult.
  unfold result_or_zero.
  destruct (is_operator_at _).
  - cbn [expressionTokens with_tokens].
    destruct (apop (expressionTokens s1)) as [|t ts] eqn:E.
    + change (alen [] =? 0) with true. cbv iota.
      unfold set_vars, with_result, with_tokens. cbn.
      now rewrite Hin, Hres, Herr.
    + change (alen (t :: ts) =? 0) with false. cbv iota.
      destruct (evaluateTokens (t :: ts));
        unfold set_vars, with_result, with_tokens, with_input, with_error; cbn;
        now rewrite ?Hin, ?Herr.
  - destruct (expressionTokens s1) as [|t ts] eqn:E.
    + change (alen [] =? 0) with true. cbv iota.
      unfold set_vars, with_result, with_tokens. cbn.
      now rewrite Hin, Hres, Herr, E.
    + change (alen (t :: ts) =? 0) with false. cbv iota.
      destruct (evaluateTokens (t :: ts));
        unfold set_vars, with_result, with_tokens, with_input, with_error; cbn;
        now rewrite ?Hin, ?Herr, ?E.
Qed.

Lemma equals_shown (c : Calc) :
  isError (vars c) = false -> updateDisplay (equals c) = equals c.
Proof.
  intros Hok. unfold equals. rewrite Hok.
  destruct (alen _ =? 0); [reflexivity|].
  destruct (evaluateTokens _); reflexivity.
Qed.

(** [equals] takes no account of an operator pressed just before it:
    in every state, an operator and then [equals] leave what [equals]
    alone leaves. *)
Theorem equals_ignores_a_trailing_operator (c : Calc) (op : string) :
  is_operator op = true ->
  equals (pushOperator op c) = equals c.
Proof.
  intros Hop. destruct (isError (vars c)) eqn:Hok.
  { unfold pushOperator. now rewrite Hok. }
  pose proof (operator_not_percent op Hop) as Hpct.
  destruct (alen (expressionTokens (vars c)) =? 0) eqn:Hlen;
    [destruct (truthy (currentInput (vars c))) eqn:Hin|].
  - (* a pending number, nothing committed *)
    assert (Hne : expressionTokens (vars c) <> [] \/ currentInput (vars c) <> "").
    { right. intros E. rewrite E in Hin. discriminate. }
    pose proof (pushOperator_vars op c Hok Hpct Hne) as Hv.
    apply shown_by_vars; try apply equals_shown; rewrite ?Hv; try exact Hok.
    rewrite !equals_vars; rewrite ?Hv; try exact Hok.
    rewrite finalTokens_committed, Hop. reflexivity.
  - (* the very start *)
    apply alen_zero in Hlen.
    destruct c as [[tokens input result err] scr].
    cbn [vars isError currentInput expressionTokens] in *. subst tokens err.
    destruct input; [|discriminate].
    unfold pushOperator. cbn [vars isError expressionTokens currentInput].
    destruct (String.eqb_spec op "%") as [E|_]; [contradiction|].
    change (alen [] =? 0) with true. cbn [truthy negb andb].
    destruct (String.eqb op "-"); [|reflexivity].
    apply shown_by_vars; try (apply equals_shown; reflexivity).
    rewrite !equals_vars by reflexivity. reflexivity.
  - assert (Hne : expressionTokens (vars c) <> [] \/ currentInput (vars c) <> "").
    { left. intros E. rewrite E in Hlen. discriminate. }
    pose proof (pushOperator_vars op c Hok Hpct Hne) as Hv.
    apply shown_by_vars; try apply equals_shown; rewrite ?Hv; try exact Hok.
    rewrite !equals_vars; rewrite ?Hv; try exact Hok.
    rewrite finalTokens_committed, Hop. reflexivity.
Qed.

Lemma equals_ignores_a_trailing_operator_witness :
  equals (pushOperator "+" after_twelve_plus_three)
  = equals after_twelve_plus_three
  /\ expressionTokens (vars (equals after_twelve_plus_three)) = ["15"].
Proof.
  split; [|reflexivity].
  apply (equals_ignores_a_trailing_operator after_twelve_plus_three "+").
  reflexivity.
Defined.

(** [equals] with nothing to evaluate (no token and no pending number, or
    a lone operator) is not a failure: the tokens are empty afterwards,
    [lastResult] is kept, or set to 0 when it was [null], and the display
    shows it. *)
Theorem equals_on_nothing (c : Calc) :
  isError (vars c) = false ->
  finalTokens (vars c) = [] ->
  vars (equals c)
  = mkSession [] "" (Some (result_or_zero (lastResult (vars c)))) false
  /\ resText (screen (equals c))
     = roundSmart (result_or_zero (lastResult (vars c)))
  /\ exprText (screen (equals c)) = "".
Proof.
  intros Hok Hfin.
  assert (Hv : vars (equals c)
               = mkSession [] "" (Some (result_or_zero (lastResult (vars c))))
                   false)
    by (now rewrite equals_vars, Hfin).
  split; [exact Hv|].
  rewrite <- (equals_shown c Hok). cbn [screen updateDisplay resText exprText].
  rewrite Hv. split; reflexivity.
Qed.

Lemma equals_on_nothing_witness :
  let c := run [EvOperator "-"] initial in
  isError (vars c) = false
  /\ currentInput (vars c) = "-"
  /\ finalTokens (vars c) = []
  /\ vars (equals c) = mkSession [] "" (Some pos_zero) false.
Proof.
  intros c. split; [reflexivity|]. split; [reflexivity|]. split; [reflexivity|].
  exact (proj1 (equals_on_nothing c eq_refl eq_refl)).
Defined.

Lemma finalTokens_with_result (r : option float) (s : Session) :
  finalTokens (with_result r s) = finalTokens s.
Proof.
  unfold finalTokens, commitCurrent.
  cbn [currentInput with_result].
  destruct (negb (String.eqb (currentInput s) "")); reflexivity.
Qed.

(** The sign toggle on a result is for the display only: with no number
    pending it negates [lastResult], which the display then shows, and
    leaves the tokens as they are, so that [equals] after it returns
    what it would have returned without it. *)
Theorem negate_on_a_result_is_not_evaluated (c : Calc) (r : float) :
  isError (vars c) = false ->
  currentInput (vars c) = "" ->
  lastResult (vars c) = Some r ->
  finalTokens (vars c) <> [] ->
  vars (negate c) = with_result (Some (fneg r)) (vars c)
  /\ resText (screen (negate c)) = roundSmart (fneg r)
  /\ equals (negate c) = equals c.
Proof.
  intros Hok Hin Hres Hfin.
  assert (Hv : vars (negate c) = with_result (Some (fneg r)) (vars c))
    by (rewrite (negate_vars c Hok), Hin, Hres; reflexivity).
  split; [exact Hv|]. split.
  - unfold negate. rewrite Hok, Hin, Hres.
    cbn [truthy screen updateDisplay vars set_vars resText with_result
         isError currentInput lastResult].
    now rewrite Hok, Hin.
  - pose proof (negate_isError c Hok) as Hok'.
    apply shown_by_vars; try now apply equals_shown.
    rewrite (equals_vars _ Hok'), (equals_vars _ Hok), Hv.
    rewrite finalTokens_with_result.
    destruct (finalTokens (vars c)); [contradiction | reflexivity].
Qed.

Lemma negate_on_a_result_is_not_evaluated_witness :
  let c := run [EvDigit "5"; EvEquals] initial in
  resText (screen (negate c)) = "-5"
  /\ expressionTokens
       (vars (run [EvNegate; EvOperator "+"; EvDigit "3"; EvEquals] c))
     = ["8"]
  /\ equals (negate c) = equals c.
Proof.
  intros c.
  destruct (negate_on_a_result_is_not_evaluated c (of_Z 5))
    as (_ & H1 & H2); try (vm_compute; reflexivity).
  { vm_compute. discriminate. }
  split; [rewrite H1; vm_compute; reflexivity|].
  split; [vm_compute; reflexivity | exact H2].
Defined.

(** ** What the evaluator accepts *)

Lemma applyOp_length (op : string) (output result : list float) :
  applyOp op output = Done result -> length output = S (length result).
Proof.
  destruct output as [|b [|a rest]]; try discriminate.
  rewrite applyOp_binary.
  destruct (apply_binary op a b) as [v|e]; [|discriminate].
  rewrite bind_Done. intros [= <-]. reflexivity.
Qed.

Lemma unwind_length (t : string) (ops : list string) :
  forall output output' ops',
    unwind t output ops = Done (output', ops') ->
    (length output' + length ops = length output + length ops')%nat.
Proof.
  induction ops as [|top ops IH]; intros output output' ops' H.
  - cbn in H. injection H as <- <-. reflexivity.
  - rewrite unwind_cons in H.
    destruct (prec_ge _ _).
    + destruct (applyOp top output) as [o|e] eqn:Happ; [|discriminate].
      rewrite bind_Done in H. apply IH in H.
      apply applyOp_length in Happ. cbn [length]. lia.
    + injection H as <- <-. reflexivity.
Qed.

Lemma drain_length (ops : list string) :
  forall output result,
    drain output ops = Done result ->
    (length result + length ops = length output)%nat.
Proof.
  induction ops as [|top ops IH]; intros output result H.
  - cbn in H. injection H as <-. cbn. lia.
  - rewrite drain_cons in H.
    destruct (applyOp top output) as [o|e] eqn:Happ; [|discriminate].
    rewrite bind_Done in H. apply IH in H.
    apply applyOp_length in Happ. cbn [length]. lia.
Qed.

Lemma count_cons (t : string) (tokens : list string) :
  count_operators (t :: tokens)
  = ((if is_operator t then 1 else 0) + count_operators tokens)%nat
  /\ count_numbers (t :: tokens)
     = ((if is_operator t then 0 else 1) + count_numbers tokens)%nat.
Proof.
  unfold count_operators, count_numbers. cbn [List.filter].
  destruct (is_operator t); split; reflexivity.
Qed.

(** Through the [for] loop a number adds one value, and an operator
    takes one value for every operator it takes from [ops]. *)
Lemma scan_length (tokens : list string) :
  forall output ops output' ops',
    scan tokens (output, ops) = Done (output', ops') ->
    (length output' + count_operators tokens + length ops
     = length output + count_numbers tokens + length ops')%nat
    /\ well_read tokens = true.
Proof.
  induction tokens as [|t tokens IH]; intros output ops output' ops' H.
  - cbn in H. injection H as <- <-. split; [cbn; lia | reflexivity].
  - rewrite scan_cons in H. destruct (count_cons t tokens) as [Ho Hn].
    rewrite Ho, Hn. unfold well_read. cbn [forallb]. fold (well_read tokens).
    unfold scan_token in H. destruct (is_operator t).
    + destruct (unwind t output ops) as [[o1 ops1]|e] eqn:Hu; [|discriminate].
      rewrite !bind_Done in H. apply IH in H as [H Hw].
      apply unwind_length in Hu. cbn [length] in H.
      split; [lia | exact Hw].
    + destruct (isFinite (Number t)); [|discriminate].
      cbn [negb] in H. rewrite bind_Done in H. apply IH in H as [H Hw].
      cbn [length] in H. split; [lia | exact Hw].
Qed.

(** When [evaluateTokens] returns a value, the value is finite, the
    tokens hold one number more than operators, and every number token
    reads as a finite number. *)
Theorem evaluateTokens_success (tokens : list string) (v : float) :
  evaluateTokens tokens = Done v ->
  isFinite v = true
  /\ count_numbers tokens = S (count_operators tokens)
  /\ well_read tokens = true.
Proof.
  intros H.
  destruct (evaluateTokens_done tokens v H) as (output & ops & Hs & Hd & Hv).
  apply scan_length in Hs as [Hs Hw]. apply drain_length in Hd.
  cbn [length] in *. split; [exact Hv|]. split; [lia | exact Hw].
Qed.

Lemma evaluateTokens_success_witness :
  evaluateTokens ["2"; "+"; "3"; "*"; "4"] = Done (of_Z 14)
  /\ count_numbers ["2"; "+"; "3"; "*"; "4"]
     = S (count_operators ["2"; "+"; "3"; "*"; "4"]).
Proof.
  assert (H : evaluateTokens ["2"; "+"; "3"; "*"; "4"] = Done (of_Z 14))
    by (vm_compute; reflexivity).
  split; [exact H|].
  exact (proj1 (proj2 (evaluateTokens_success _ _ H))).
Defined.

Lemma applyOp_known (op : string) (output : list float) :
  is_operator op = true -> applyOp op output <> Fail UnknownOperator.
Proof.
  intros Hop. unfold is_operator in Hop. unfold applyOp.
  destruct output as [|b [|a rest]]; try congruence.
  destruct (negb (isFinite a) || negb (isFinite b)); [congruence|].
  repeat (apply orb_true_iff in Hop as [Hop|Hop]);
    apply String.eqb_eq in Hop; subst op; cbn [String.eqb Ascii.eqb Bool.eqb];
    try congruence.
  destruct (strict_eq b pos_zero); congruence.
Qed.

Lemma unwind_known (t : string) (ops : list string) :
  forall output,
    forallb is_operator ops = true ->
    unwind t output ops <> Fail UnknownOperator
    /\ forall output' ops',
         unwind t output ops = Done (output', ops') ->
         forallb is_operator ops' = true.
Proof.
  induction ops as [|top ops IH]; intros output Hops.
  - cbn [unwind]. split; [congruence|]. intros o' ops' [= <- <-]. reflexivity.
  - cbn [forallb] in Hops. apply andb_true_iff in Hops as [Htop Hops].
    rewrite unwind_cons. destruct (prec_ge _ _).
    + destruct (applyOp top output) as [o|e] eqn:Happ.
      * rewrite bind_Done. now apply IH.
      * rewrite bind_Fail. split; [|congruence].
        intros [= ->]. now apply (applyOp_known top output).
    + split; [congruence|]. intros o' ops' [= <- <-].
      cbn [forallb]. now rewrite Htop, Hops.
Qed.

Lemma scan_known (tokens : list string) :
  forall output ops,
    forallb is_operator ops = true ->
    scan tokens (output, ops) <> Fail UnknownOperator
    /\ forall output' ops',
         scan tokens (output, ops) = Done (output', ops') ->
         forallb is_operator ops' = true.
Proof.
  induction tokens as [|t tokens IH]; intros output ops Hops.
  - cbn [scan]. split; [congruence|]. intros o' ops' [= <- <-]. exact Hops.
  - rewrite scan_cons. unfold scan_token.
    destruct (is_operator t) eqn:Ht.
    + destruct (unwind_known t ops output Hops) as [Hne Hdone].
      destruct (unwind t output ops) as [[o1 ops1]|e].
      * rewrite !bind_Done. apply IH. cbn [forallb].
        now rewrite Ht, (Hdone o1 ops1 eq_refl).
      * rewrite !bind_Fail. split; [|congruence].
        intros [= ->]. now apply Hne.
    + destruct (negb _).
      * rewrite bind_Fail. split; congruence.
      * rewrite bind_Done. now apply IH.
Qed.

Lemma drain_known (ops : list string) :
  forall output,
    forallb is_operator ops = true -> drain output ops <> Fail UnknownOperator.
Proof.
  induction ops as [|top ops IH]; intros output Hops; [cbn; congruence|].
  cbn [forallb] in Hops. apply andb_true_iff in Hops as [Htop Hops].
  rewrite drain_cons.
  destruct (applyOp top output) as [o|e] eqn:Happ.
  - rewrite bind_Done. now apply IH.
  - rewrite bind_Fail. intros [= ->]. now apply (applyOp_known top output).
Qed.

Lemma evaluateTokens_known (tokens : list string) :
  evaluateTokens tokens <> Fail UnknownOperator.
Proof.
  rewrite evaluateTokens_finish.
  destruct (scan_known tokens [] [] eq_refl) as [Hne Hdone].
  destruct (scan tokens ([], [])) as [[output ops]|e].
  - rewrite bind_Done. unfold finish.
    pose proof (drain_known ops output (Hdone output ops eq_refl)) as Hd.
    destruct (drain output ops) as [[|v [|]]|e].
    + cbn. congruence.
    + rewrite bind_Done. destruct (negb _); congruence.
    + cbn. congruence.
    + rewrite bind_Fail. intros [= ->]. now apply Hd.
  - rewrite bind_Fail. intros [= ->]. now apply Hne.
Qed.

(** A failure of [evaluateTokens] is one of four; the fifth the code
    has, for an unknown operator, is never returned: only the four
    operators are put on [ops], and [applyOp] knows the four. *)
Theorem evaluateTokens_failures (tokens : list string) (err : error) :
  evaluateTokens tokens = Fail err ->
  err = MalformedExpression \/ err = InvalidNumber
  \/ err = DivisionByZero \/ err = Overflow.
Proof.
  intros H. pose proof (evaluateTokens_known tokens) as Hk.
  destruct err; tauto.
Qed.

Lemma evaluateTokens_failures_witness :
  evaluateTokens ["7"; "*"] = Fail MalformedExpression
  /\ (MalformedExpression = MalformedExpression
      \/ MalformedExpression = InvalidNumber
      \/ MalformedExpression = DivisionByZero
      \/ MalformedExpression = Overflow).
Proof.
  split; [reflexivity|].
  apply (evaluateTokens_failures ["7"; "*"]). reflexivity.
Defined.

(** *** Infix sequences are not malformed *)

Lemma applyOp_malformed (op : string) (output : list float) :
  (2 <= length output)%nat -> applyOp op output <> Fail MalformedExpression.
Proof.
  destruct output as [|b [|a rest]]; cbn [length]; try lia. intros _.
  rewrite applyOp_binary. unfold apply_binary.
  repeat (match goal with |- context [if ?b then _ else _] => destruct b end;
          try (cbn; congruence)).
Qed.

Lemma unwind_balanced (t : string) (ops : list string) :
  forall output,
    length output = S (length ops) ->
    unwind t output ops <> Fail MalformedExpression
    /\ forall output' ops',
         unwind t output ops = Done (output', ops') ->
         length output' = S (length ops').
Proof.
  induction ops as [|top ops IH]; intros output Hlen.
  - cbn [unwind]. split; [congruence|]. intros o' ops' [= <- <-]. exact Hlen.
  - rewrite unwind_cons. destruct (prec_ge _ _).
    + cbn [length] in Hlen.
      destruct (applyOp top output) as [o|e] eqn:Happ.
      * rewrite bind_Done. apply IH.
        apply applyOp_length in Happ. lia.
      * rewrite bind_Fail. split; [|congruence].
        intros [= ->]. apply (applyOp_malformed top output); [lia | exact Happ].
    + split; [congruence|]. intros o' ops' [= <- <-]. exact Hlen.
Qed.

Lemma scan_balanced (rest : list string) :
  forall output ops,
    operator_number_pairs rest = true ->
    length output = S (length ops) ->
    scan rest (output, ops) <> Fail MalformedExpression
    /\ forall output' ops',
         scan rest (output, ops) = Done (output', ops') ->
         length output' = S (length ops').
Proof.
  assert (H : forall n rest, (length rest <= n)%nat ->
              forall output ops,
                operator_number_pairs rest = true ->
                length output = S (length ops) ->
                scan rest (output, ops) <> Fail MalformedExpression
                /\ forall output' ops',
                     scan rest (output, ops) = Done (output', ops') ->
                     length output' = S (length ops'));
    [|exact (H (length rest) rest (Nat.le_refl _))].
  clear rest. induction n as [|n IHn]; intros rest Hn output ops Hpairs Hlen;
    (destruct rest as [|op [|t rest']]; [| discriminate Hpairs |]);
    try (cbn [length] in Hn; lia).
  - cbn [scan]. split; [congruence|]. intros o' ops' [= <- <-]. exact Hlen.
  - cbn [scan]. split; [congruence|]. intros o' ops' [= <- <-]. exact Hlen.
  - cbn [operator_number_pairs] in Hpairs.
    apply andb_true_iff in Hpairs as [Hpairs Hrest].
    apply andb_true_iff in Hpairs as [Hop Ht]. apply negb_true_iff in Ht.
    destruct (unwind_balanced op ops output Hlen) as [Hne Hdone].
    destruct (unwind op output ops) as [[o1 ops1]|e] eqn:Hu.
    + destruct (isFinite (Number t)) eqn:Hfin.
      * assert (E : scan (op :: t :: rest') (output, ops)
                    = scan rest' (Number t :: o1, op :: ops1)).
        { rewrite scan_cons. unfold scan_token at 1. rewrite Hop, Hu.
          rewrite !bind_Done, scan_cons. unfold scan_token.
          now rewrite Ht, Hfin. }
        rewrite E. apply IHn; [cbn [length] in Hn; lia | exact Hrest|].
        cbn [length]. now rewrite (Hdone o1 ops1 eq_refl).
      * assert (E : scan (op :: t :: rest') (output, ops) = Fail InvalidNumber).
        { rewrite scan_cons. unfold scan_token at 1. rewrite Hop, Hu.
          rewrite !bind_Done, scan_cons. unfold scan_token.
          now rewrite Ht, Hfin. }
        rewrite E. split; congruence.
    + assert (E : scan (op :: t :: rest') (output, ops) = Fail e).
      { rewrite scan_cons. unfold scan_token. now rewrite Hop, Hu. }
      rewrite E. split; [|congruence]. intros [= ->]. now apply Hne.
Qed.

Lemma drain_balanced (ops : list string) :
  forall output,
    length output = S (length ops) ->
    drain output ops <> Fail MalformedExpression
    /\ forall result, drain output ops = Done result -> length result = 1%nat.
Proof.
  induction ops as [|top ops IH]; intros output Hlen.
  - cbn [drain]. split; [congruence|]. intros r [= <-]. exact Hlen.
  - rewrite drain_cons. cbn [length] in Hlen.
    destruct (applyOp top output) as [o|e] eqn:Happ.
    + rewrite bind_Done. apply IH. apply applyOp_length in Happ. lia.
    + rewrite bind_Fail. split; [|congruence].
      intros [= ->]. apply (applyOp_malformed top output); [lia | exact Happ].
Qed.

(** A sequence of the form number (operator number)* is never refused
    as malformed: when [evaluateTokens] fails on it, a number token does
    not read as a finite number, a division is by zero, or a result is
    not finite. *)
Theorem infix_is_not_malformed (tokens : list string) (err : error) :
  infix tokens = true ->
  evaluateTokens tokens = Fail err ->
  err = InvalidNumber \/ err = DivisionByZero \/ err = Overflow.
Proof.
  intros Hinfix H.
  assert (Hm : evaluateTokens tokens <> Fail MalformedExpression).
  { destruct tokens as [|t rest]; [discriminate Hinfix|].
    cbn [infix] in Hinfix. apply andb_true_iff in Hinfix as [Ht Hrest].
    apply negb_true_iff in Ht.
    rewrite evaluateTokens_finish, scan_cons. unfold scan_token at 1.
    rewrite Ht. destruct (negb (isFinite (Number t))).
    { rewrite !bind_Fail. congruence. }
    rewrite bind_Done.
    destruct (scan_balanced rest [Number t] [] Hrest eq_refl) as [Hne Hdone].
    destruct (scan rest ([Number t], [])) as [[output ops]|e].
    - rewrite bind_Done. unfold finish.
      destruct (drain_balanced ops output (Hdone output ops eq_refl))
        as [Hd Hone].
      destruct (drain output ops) as [r|e].
      + rewrite bind_Done. specialize (Hone r eq_refl).
        destruct r as [|v [|]]; try discriminate Hone.
        destruct (negb (isFinite v)); congruence.
      + rewrite bind_Fail. intros [= ->]. now apply Hd.
    - rewrite bind_Fail. intros [= ->]. now apply Hne. }
  pose proof (evaluateTokens_known tokens) as Hk.
  destruct err; try tauto; congruence.
Qed.

Lemma infix_is_not_malformed_witness :
  evaluateTokens ["1e308"; "*"; "10"; "-"; "5"] = Fail InvalidNumber
  /\ (InvalidNumber = InvalidNumber \/ InvalidNumber = DivisionByZero
      \/ InvalidNumber = Overflow).
Proof.
  assert (H : evaluateTokens ["1e308"; "*"; "10"; "-"; "5"] = Fail InvalidNumber)
    by (vm_compute; reflexivity).
  split; [exact H|].
  exact (infix_is_not_malformed ["1e308"; "*"; "10"; "-"; "5"] InvalidNumber
           eq_refl H).
Defined.

(** ** A number typed after a committed number *)

Lemma digits_not_operator (s : string) :
  all_digits s = true -> s <> "" -> is_operator s = false.
Proof.
  destruct s as [|c r]; [contradiction|]. cbn [all_digits]. intros H _.
  apply andb_true_iff in H as [Hc _].
  destruct c as [[] [] [] [] [] [] [] []]; try discriminate Hc; reflexivity.
Qed.

Lemma typed_digits (ds : list ascii) :
  forallb is_digit ds = true -> ds <> [] ->
  all_digits (typed ds) = true /\ typed ds <> "".
Proof.
  intros H Hne. destruct ds as [|d ds]; [contradiction|].
  exact (typed_integer_digits (d :: ds) H).
Qed.

Lemma count_app (a b : list string) :
  count_operators (a ++ b) = (count_operators a + count_operators b)%nat
  /\ count_numbers (a ++ b) = (count_numbers a + count_numbers b)%nat.
Proof.
  unfold count_operators, count_numbers.
  rewrite !List.filter_app, !length_app. split; reflexivity.
Qed.

Lemma evaluateTokens_counts (tokens : list string) (v : float) :
  evaluateTokens tokens = Done v ->
  count_numbers tokens = S (count_operators tokens).
Proof.
  intros H.
  destruct (evaluateTokens_done tokens v H) as (output & ops & Hs & Hd & Hv).
  apply scan_length in Hs as [Hs _]. apply drain_length in Hd.
  cbn [length] in *. lia.
Qed.

(** A number typed when the committed tokens already hold one number
    more than operators (after a result, say) is committed as one number
    too many, and [equals] then fails: digits and [equals] from there
    end in the error state. *)
Theorem number_after_a_number_fails (c : Calc) (pre : list string) (r : string)
    (ds : list ascii) :
  isError (vars c) = false ->
  currentInput (vars c) = "" ->
  expressionTokens (vars c) = pre ++ [r] ->
  count_numbers (pre ++ [r]) = S (count_operators (pre ++ [r])) ->
  forallb is_digit ds = true ->
  ds <> [] ->
  vars (run (map EvDigit ds ++ [EvEquals]) c)
  = mkSession (pre ++ [r; typed ds]) "" None true.
Proof.
  intros Hok Hin Htok Hcount Hds Hne.
  rewrite run_app.
  pose proof (digits_on_zero ds c Hok (or_introl Hin) Hds Hne) as Hv.
  destruct (typed_digits ds Hds Hne) as [Hall Hty].
  set (c1 := run (map EvDigit ds) c) in *.
  change (run [EvEquals] c1) with (equals c1).
  assert (Hok1 : isError (vars c1) = false) by (rewrite Hv; exact Hok).
  assert (Hfin : finalTokens (vars c1) = (pre ++ [r]) ++ [typed ds]).
  { rewrite Hv. unfold finalTokens, commitCurrent.
    cbn [currentInput with_input expressionTokens with_tokens].
    destruct (String.eqb_spec (typed ds) "") as [E|_]; [contradiction|].
    cbn [negb expressionTokens with_input with_tokens].
    rewrite Htok, aget_last. cbn [is_operator_at].
    now rewrite (digits_not_operator _ Hall Hty). }
  rewrite (equals_vars c1 Hok1), Hfin.
  destruct ((pre ++ [r]) ++ [typed ds]) as [|t ts] eqn:E.
  { destruct pre; discriminate. }
  rewrite <- E.
  destruct (evaluateTokens ((pre ++ [r]) ++ [typed ds])) as [v|err] eqn:Hev.
  - apply evaluateTokens_counts in Hev.
    destruct (count_app (pre ++ [r]) [typed ds]) as [Ho Hn].
    rewrite Ho, Hn in Hev.
    destruct (count_cons (typed ds) []) as [Ho1 Hn1].
    rewrite Ho1, Hn1, (digits_not_operator _ Hall Hty) in Hev.
    cbn in Hev. lia.
  - now rewrite <- app_assoc.
Qed.

Lemma number_after_a_number_fails_witness :
  let c := run [EvDigit "5"; EvEquals] initial in
  vars c = mkSession ["5"] "" (Some (of_Z 5)) false
  /\ vars (run [EvDigit "7"; EvEquals] c) = mkSession ["5"; "7"] "" None true.
Proof.
  intros c. split; [reflexivity|].
  apply (number_after_a_number_fails c [] "5" ["7"%char]);
    try reflexivity. discriminate.
Defined.

(** ** clearEntry *)

Lemma typing_changes_the_input (e : event) (c : Calc) :
  types e = true ->
  isError (vars (handle e c)) = isError (vars c)
  /\ exists p, vars (handle e c) = with_input p (vars c).
Proof.
  intros He. destruct (isError (vars c)) eqn:Hok.
  - destruct e as [d| | | | | | | |]; try discriminate He.
    + rewrite (handle_digit d c He). unfold appendDigit. rewrite Hok.
      split; [exact Hok|]. exists (currentInput (vars c)).
      symmetry. apply with_input_same.
    + change (handle EvDot c) with (appendDot c). unfold appendDot.
      rewrite Hok. split; [exact Hok|]. exists (currentInput (vars c)).
      symmetry. apply with_input_same.
  - destruct e as [d| | | | | | | |]; try discriminate He.
    + rewrite (handle_digit d c He), (appendDigit_vars _ c Hok).
      split; [exact Hok|]. eexists. reflexivity.
    + change (handle EvDot c) with (appendDot c). unfold appendDot.
      rewrite Hok. destruct (negb _).
      * split; [exact Hok|]. eexists. reflexivity.
      * split; [exact Hok|]. exists (currentInput (vars c)).
        symmetry. apply with_input_same.
Qed.

Lemma clearEntry_by_vars (c c' : Calc) (p : string) :
  isError (vars c') = isError (vars c) ->
  vars c' = with_input p (vars c) ->
  isError (vars c) = false ->
  clearEntry c' = clearEntry c.
Proof.
  intros He Hv Hok. unfold clearEntry. rewrite He, Hok.
  apply updateDisplay_vars. cbn [vars set_vars]. rewrite Hv. reflexivity.
Qed.

(** [clearEntry] discards what was typed and nothing else: after digits
    and dots, in any number, it leaves what it would have left before
    them. *)
Theorem clearEntry_discards_typing (es : list event) (c : Calc) :
  forallb types es = true ->
  isError (vars c) = false ->
  clearEntry (run es c) = clearEntry c
  /\ expressionTokens (vars (clearEntry (run es c))) = expressionTokens (vars c)
  /\ lastResult (vars (clearEntry (run es c))) = lastResult (vars c)
  /\ currentInput (vars (clearEntry (run es c))) = "".
Proof.
  intros Hes Hok.
  assert (H : clearEntry (run es c) = clearEntry c).
  { revert c Hok. induction es as [|e es IH]; intros c Hok; [reflexivity|].
    cbn [forallb] in Hes. apply andb_true_iff in Hes as [He Hes].
    rewrite run_cons.
    destruct (typing_changes_the_input e c He) as [Herr [p Hv]].
    rewrite (IH Hes) by (rewrite Herr; exact Hok).
    now apply (clearEntry_by_vars c (handle e c) p). }
  split; [exact H|]. rewrite H. unfold clearEntry. rewrite Hok.
  repeat split.
Qed.

Lemma clearEntry_discards_typing_witness :
  clearEntry (run [EvDigit "4"; EvDot; EvDigit "2"] after_twelve_plus_three)
  = clearEntry after_twelve_plus_three
  /\ expressionTokens
       (vars (clearEntry (run [EvDigit "4"; EvDot; EvDigit "2"]
                            after_twelve_plus_three)))
     = ["12"; "+"].
Proof.
  destruct (clearEntry_discards_typing [EvDigit "4"; EvDot; EvDigit "2"]
              after_twelve_plus_three eq_refl eq_refl) as (H1 & H2 & _).
  split; [exact H1|]. rewrite H2. reflexivity.
Defined.

(** ** What the percentage leaves alone *)

Lemma aset_last_length (a : list string) (v : string) :
  length (aset a (alen a - 1) v) = length a
  /\ removelast (aset a (alen a - 1) v) = removelast a.
Proof.
  destruct (array_snoc_cases a) as [->|(pre & x & ->)]; [split; reflexivity|].
  rewrite aset_last, !removelast_last, !length_app. split; reflexivity.
Qed.

(** [applyPercent] writes the operand and nothing else: [lastResult],
    [isError], the number of tokens and every token but the last stay;
    with a pending number no token changes; with none, the pending
    number stays empty.  It does nothing at all when there is no operand
    (no token, or an operator last) or when the operand does not read as
    a finite number. *)
Theorem applyPercent_frame (c : Calc) :
  let s := vars c in
  let s' := vars (applyPercent c) in
  lastResult s' = lastResult s
  /\ isError s' = isError s
  /\ length (expressionTokens s') = length (expressionTokens s)
  /\ removelast (expressionTokens s') = removelast (expressionTokens s)
  /\ (currentInput s <> "" -> expressionTokens s' = expressionTokens s)
  /\ (currentInput s = "" -> currentInput s' = "")
  /\ (currentInput s = "" -> expressionTokens s = [] -> applyPercent c = c)
  /\ (currentInput s = "" ->
      is_operator_at (aget (expressionTokens s) (alen (expressionTokens s) - 1))
      = true ->
      applyPercent c = c)
  /\ (currentInput s <> "" -> isFinite (parseFloat (currentInput s)) = false ->
      applyPercent c = c).
Proof.
  intros s s'. subst s s'. unfold applyPercent.
  destruct (isError (vars c)) eqn:Hok; [repeat split; auto|].
  destruct (String.eqb_spec (currentInput (vars c)) "") as [Hin|Hin]; cbn [negb].
  - destruct (alen (expressionTokens (vars c)) =? 0) eqn:Hlen; cbn [negb];
      [repeat split; auto|].
    destruct (aget _ _) as [last|] eqn:Hlast; [|repeat split; auto].
    destruct (is_operator last) eqn:Hop; cbn [negb]; [repeat split; auto|].
    destruct (isFinite (parseFloat last)) eqn:HB; cbn [negb];
      [|repeat split; auto; try contradiction;
        cbn [is_operator_at]; congruence].
    cbn [vars updateDisplay set_vars expressionTokens with_tokens lastResult
         isError currentInput].
    destruct (aset_last_length (expressionTokens (vars c))
                (roundSmart
                   (percent_of
                      (if 3 <=? alen (expressionTokens (vars c))
                       then governing
                              (aget (expressionTokens (vars c))
                                 (alen (expressionTokens (vars c)) - 2))
                              (aget (expressionTokens (vars c))
                                 (alen (expressionTokens (vars c)) - 3))
                       else None) (parseFloat last)))) as [Hl Hr].
    repeat split; auto; try contradiction.
    + intros _ E. rewrite E in Hlen. discriminate.
    + cbn [is_operator_at]. congruence.
  - destruct (isFinite (parseFloat (currentInput (vars c)))) eqn:HB; cbn [negb];
      [|repeat split; auto; contradiction].
    cbn [vars updateDisplay set_vars expressionTokens with_input lastResult
         isError currentInput].
    repeat split; auto; try contradiction; congruence.
Qed.

(** ** More on roundSmart *)

Lemma strip_zeros_end_twice (s : string) :
  strip_zeros_end (strip_zeros_end s) = strip_zeros_end s.
Proof.
  induction s as [|c r IH]; [reflexivity|]. cbn [strip_zeros_end].
  destruct (strip_zeros_end r) as [|a b] eqn:E.
  - destruct (Ascii.eqb c "0") eqn:Hc; [reflexivity|].
    cbn [strip_zeros_end]. now rewrite Hc.
  - cbn [strip_zeros_end] in *. now rewrite IH.
Qed.

Lemma strip_zeros_end_length (s : string) :
  (String.length (strip_zeros_end s) <= String.length s)%nat.
Proof.
  induction s as [|c r IH]; [reflexivity|]. cbn [strip_zeros_end].
  destruct (strip_zeros_end r) as [|a b].
  - destruct (Ascii.eqb c "0"); cbn; lia.
  - cbn [String.length] in *. lia.
Qed.

(** When the number rounded to 12 significant digits is below 10^21 in
    magnitude, [roundSmart] returns a plain decimal numeral: an optional
    "-", at least one digit, and then either nothing or a point and one
    to twelve digits, the last of which is not a zero. *)
Theorem roundSmart_writes_a_numeral (x : float) :
  let num := Number (toPrecision x 12) in
  isFinite num = true ->
  below_1e21 num = true ->
  exists sign int frac,
    roundSmart x = numeral sign int frac
    /\ (sign = "" \/ sign = "-")
    /\ all_digits int = true /\ int <> ""
    /\ all_digits frac = true
    /\ (String.length frac <= 12)%nat
    /\ strip_zeros_end frac = frac.
Proof.
  intros num Hfin Hlt.
  destruct (fixed_digits_shape 12 (snd (fst (real_of num))) (snd (real_of num)))
    as (int & frac & Hshape & Hint & Hne & Hfrac & Hlen); [lia|].
  pose proof (toFixed_below_1e21 num 12 Hfin Hlt) as Hfixed.
  rewrite Hshape in Hfixed.
  assert (Hlen' : String.length frac = 12%nat) by (rewrite len_length in Hlen; lia).
  set (sign := minus_if (fst (fst (real_of num)))) in *.
  assert (Hsign : sign = "" \/ sign = "-")
    by (unfold sign; destruct (fst (fst (real_of num))); [now right | now left]).
  exists sign, int, (strip_zeros_end frac).
  split; [|split; [exact Hsign|]; split; [exact Hint|]; split; [exact Hne|];
           split; [now apply all_digits_strip|];
           split; [pose proof (strip_zeros_end_length frac); lia
                  |apply strip_zeros_end_twice]].
  unfold roundSmart, roundSmart_digits.
  change (Z.min maxDigits_default 15) with 12. fold num.
  rewrite Hfin. cbn [negb]. rewrite Hfixed. unfold numeral.
  assert (Hp : includes (sign +:+ int) "." = false).
  { rewrite includes_app, (all_digits_no_point int Hint).
    destruct Hsign as [-> | ->]; reflexivity. }
  rewrite <- (append_assoc sign int), <- (append_assoc sign int).
  change ("." +:+ frac) with (String "." frac).
  rewrite replace_before_point by (try exact Hp; reflexivity).
  rewrite replace_at_point.
  rewrite (replace_without_point frac (all_digits_no_point frac Hfrac)).
  destruct (zeros_only frac) eqn:Hz.
  - now rewrite (zeros_only_strip frac Hz).
  - destruct (strip_zeros_end frac) eqn:E; [|reflexivity].
    destruct (strip_zeros_end_empty frac E) as [E'|E'].
    + rewrite E' in Hlen'. discriminate.
    + rewrite E' in Hz. discriminate.
Qed.

Lemma roundSmart_writes_a_numeral_witness :
  let x := fdiv (of_Z 1) (of_Z 3) in
  roundSmart x = "0.333333333333"
  /\ exists sign int frac,
       roundSmart x = numeral sign int frac
       /\ all_digits int = true /\ (String.length frac <= 12)%nat.
Proof.
  intros x. split; [vm_compute; reflexivity|].
  destruct (roundSmart_writes_a_numeral x) as (sign & int & frac & H);
    [vm_compute; reflexivity | vm_compute; reflexivity|].
  exists sign, int, frac. tauto.
Defined.

(** At 10^21 and above [toFixed] answers with the exponent notation of
    [toString]; when that has no point in it, the replacement removes
    the zeros at its end, which are digits of the exponent: 1e30 is
    written as "1e+3". *)
Theorem roundSmart_strips_the_exponent (x : float) :
  let num := Number (toPrecision x 12) in
  isFinite num = true ->
  includes (toFixed num 12) "." = false ->
  roundSmart x = strip_zeros_end (toFixed num 12).
Proof.
  intros num Hfin Hp. unfold roundSmart, roundSmart_digits.
  change (Z.min maxDigits_default 15) with 12. fold num.
  rewrite Hfin. cbn [negb]. now apply replace_without_point.
Qed.

Lemma roundSmart_strips_the_exponent_witness :
  toFixed (Number (toPrecision (Number "1e30") 12)) 12 = "1e+30"
  /\ roundSmart (Number "1e30") = "1e+3".
Proof.
  split; [vm_compute; reflexivity|].
  rewrite (roundSmart_strips_the_exponent (Number "1e30"));
    vm_compute; reflexivity.
Defined.

(** A number that is not finite is written by [toString]: "NaN",
    "Infinity" or "-Infinity"; none of them reads back as a finite
    number, so [evaluateTokens] refuses it as a token. *)
Theorem roundSmart_not_finite (x : float) :
  isFinite x = false ->
  roundSmart x = toString x
  /\ (roundSmart x = "NaN" \/ roundSmart x = "Infinity"
      \/ roundSmart x = "-Infinity")
  /\ isFinite (Number (roundSmart x)) = false
  /\ evaluateTokens [roundSmart x] = Fail InvalidNumber.
Proof.
  intros H. destruct x as [[]|[]| |[] m e]; try discriminate H;
    (split; [vm_compute; reflexivity|]);
    (split; [vm_compute; tauto|]); split; vm_compute; reflexivity.
Qed.

Lemma roundSmart_not_finite_witness :
  let x := fmul (Number "1e200") (Number "1e200") in
  isFinite x = false /\ roundSmart x = "Infinity".
Proof.
  intros x. split; [reflexivity|].
  destruct (roundSmart_not_finite x eq_refl) as (H & _).
  rewrite H. vm_compute. reflexivity.
Defined.

(** ** Keys taken for digits *)

(** [handleKey] takes every key whose name has a digit in it for a digit
    key and appends the whole name: the key F5 after 12 leaves the
    pending number "12F5", which [evaluateTokens] refuses. *)
Theorem handleKey_appends_names_with_a_digit (k : string) (c : Calc) :
  test_digit k = true ->
  isError (vars c) = false ->
  currentInput (vars c) <> "0" ->
  handleKey k c = appendDigit k c
  /\ vars (handleKey k c) = with_input (currentInput (vars c) +:+ k) (vars c).
Proof.
  intros Hk Hok H0.
  assert (E : handleKey k c = appendDigit k c)
    by (unfold handleKey; now rewrite Hk).
  split; [exact E|]. rewrite E, (appendDigit_vars k c Hok).
  destruct (String.eqb_spec (currentInput (vars c)) "0") as [E0|_];
    [contradiction | reflexivity].
Qed.

Lemma handleKey_appends_names_with_a_digit_witness :
  let c := run [EvDigit "1"; EvDigit "2"] initial in
  currentInput (vars (handleKey "F5" c)) = "12F5"
  /\ isError (vars (handleKey "Enter" (handleKey "F5" c))) = true.
Proof.
  intros c. split; [|vm_compute; reflexivity].
  destruct (handleKey_appends_names_with_a_digit "F5" c eq_refl eq_refl)
    as [_ H]; [discriminate|].
  rewrite H. reflexivity.
Defined.

(** ** Division by zero, on every infix sequence *)

Lemma applyOp_overflow (op : string) (output : list float) :
  applyOp op output <> Fail Overflow.
Proof.
  unfold applyOp. destruct output as [|b [|a rest]]; try congruence.
  repeat (match goal with |- context [if ?b then _ else _] => destruct b end;
          try congruence).
Qed.

Lemma unwind_overflow (t : string) (ops : list string) :
  forall output, unwind t output ops <> Fail Overflow.
Proof.
  induction ops as [|top ops IH]; intros output; [cbn; congruence|].
  rewrite unwind_cons. destruct (prec_ge _ _); [|congruence].
  destruct (applyOp top output) as [o|e] eqn:Happ.
  - rewrite bind_Done. apply IH.
  - rewrite bind_Fail. intros [= ->]. now apply (applyOp_overflow top output).
Qed.

Lemma scan_overflow (tokens : list string) :
  forall st, scan tokens st <> Fail Overflow.
Proof.
  induction tokens as [|t tokens IH]; intros [output ops]; [cbn; congruence|].
  rewrite scan_cons. unfold scan_token. destruct (is_operator t).
  - pose proof (unwind_overflow t ops output) as Hu.
    destruct (unwind t output ops) as [[o1 ops1]|e].
    + rewrite !bind_Done. apply IH.
    + rewrite !bind_Fail. intros [= ->]. now apply Hu.
  - destruct (negb _); [rewrite bind_Fail; congruence|].
    rewrite bind_Done. apply IH.
Qed.

Lemma arithmetic_failure (e : error) :
  e <> MalformedExpression -> e <> UnknownOperator -> e <> Overflow ->
  e = DivisionByZero \/ e = InvalidNumber.
Proof. destruct e; tauto. Qed.

(** Where an operator stands in an infix sequence: after a number and
    pairs, before a number and pairs. *)
Lemma pairs_split (op z : string) (post : list string) :
  is_operator op = true ->
  forall pre,
    operator_number_pairs (pre ++ op :: z :: post) = true ->
    operator_number_pairs pre = true
    /\ is_operator z = false
    /\ operator_number_pairs post = true.
Proof.
  intros Hop.
  assert (H : forall n pre, (length pre <= n)%nat ->
              operator_number_pairs (pre ++ op :: z :: post) = true ->
              operator_number_pairs pre = true
              /\ is_operator z = false
              /\ operator_number_pairs post = true);
    [|intros pre; exact (H (length pre) pre (Nat.le_refl _))].
  induction n as [|n IHn]; intros pre Hn Hpairs;
    destruct pre as [|x [|y pre']]; cbn [length] in Hn; try lia.
  - cbn [app operator_number_pairs] in Hpairs.
    apply andb_true_iff in Hpairs as [Hpairs Hpost].
    apply andb_true_iff in Hpairs as [_ Hz]. apply negb_true_iff in Hz.
    now split.
  - cbn [app operator_number_pairs] in Hpairs.
    apply andb_true_iff in Hpairs as [Hpairs Hpost].
    apply andb_true_iff in Hpairs as [_ Hz]. apply negb_true_iff in Hz.
    now split.
  - cbn [app operator_number_pairs] in Hpairs. rewrite Hop in Hpairs.
    rewrite andb_false_r in Hpairs. discriminate.
  - cbn [app operator_number_pairs] in Hpairs.
    apply andb_true_iff in Hpairs as [Hxy Hrest].
    destruct (IHn pre') as (H1 & H2 & H3); [lia | exact Hrest|].
    cbn [operator_number_pairs]. now rewrite Hxy, H1.
Qed.

Lemma infix_split (pre post : list string) (op z : string) :
  is_operator op = true ->
  infix (pre ++ op :: z :: post) = true ->
  infix pre = true
  /\ is_operator z = false
  /\ operator_number_pairs post = true.
Proof.
  intros Hop H. destruct pre as [|t pre].
  - cbn [app infix] in H. rewrite Hop in H. discriminate.
  - cbn [app infix] in *. apply andb_true_iff in H as [Ht Hpairs].
    destruct (pairs_split op z post Hop pre Hpairs) as (H1 & H2 & H3).
    now rewrite Ht, H1.
Qed.

Lemma pairs_at_operator (post : list string) :
  operator_number_pairs post = true -> at_operator post = true.
Proof.
  destruct post as [|op [|t post]]; try reflexivity; try discriminate.
  cbn. intros H. apply andb_true_iff in H as [H _].
  now apply andb_true_iff in H as [H _].
Qed.

(** Reading an infix sequence: a failure of the arithmetic, or the
    stacks with one value more than operators. *)
Lemma scan_infix (tokens : list string) :
  infix tokens = true ->
  (exists e, scan tokens ([], []) = Fail e
             /\ (e = DivisionByZero \/ e = InvalidNumber))
  \/ (exists output ops,
        scan tokens ([], []) = Done (output, ops)
        /\ length output = S (length ops)
        /\ forallb is_operator ops = true).
Proof.
  destruct tokens as [|t rest]; [discriminate|]. cbn [infix]. intros H.
  apply andb_true_iff in H as [Ht Hrest]. apply negb_true_iff in Ht.
  destruct (isFinite (Number t)) eqn:Hfin.
  2:{ left. exists InvalidNumber. split; [|now right].
      rewrite scan_cons. unfold scan_token. now rewrite Ht, Hfin. }
  assert (E : scan (t :: rest) ([], []) = scan rest ([Number t], [])).
  { rewrite scan_cons. unfold scan_token. now rewrite Ht, Hfin. }
  rewrite E. clear E.
  destruct (scan_balanced rest [Number t] [] Hrest eq_refl) as [Hm Hlen].
  destruct (scan_known rest [Number t] [] eq_refl) as [Hk Hops].
  pose proof (scan_overflow rest ([Number t], [])) as Ho.
  destruct (scan rest ([Number t], [])) as [[output ops]|e].
  - right. exists output, ops. split; [reflexivity|].
    split; [exact (Hlen output ops eq_refl) | exact (Hops output ops eq_refl)].
  - left. exists e. split; [reflexivity|].
    apply arithmetic_failure; congruence.
Qed.

Lemma value_of_division_by_zero (l : expr) (z : string) :
  strict_eq (Number z) pos_zero = true ->
  value (Bin "/" l (Num z)) = (a ← value l; divided_by_zero a).
Proof.
  intros Hz. cbn [value]. rewrite (strict_eq_zero_finite _ Hz).
  destruct (value l) as [a|e]; [|reflexivity].
  rewrite !bind_Done. unfold apply_binary, divided_by_zero.
  rewrite (strict_eq_zero_finite _ Hz), Hz.
  destruct (isFinite a); reflexivity.
Qed.

Lemma divided_by_zero_fails (a : float) :
  exists e, divided_by_zero a = Fail e
            /\ (e = DivisionByZero \/ e = InvalidNumber).
Proof.
  unfold divided_by_zero. destruct (isFinite a); eexists; split;
    try reflexivity; tauto.
Qed.

Lemma apply_division_by_zero (a : float) (z : string) :
  strict_eq (Number z) pos_zero = true ->
  apply_binary "/" a (Number z) = divided_by_zero a.
Proof.
  intros Hz. unfold apply_binary, divided_by_zero.
  rewrite (strict_eq_zero_finite _ Hz), Hz.
  destruct (isFinite a); reflexivity.
Qed.

(** An infix sequence with a division by a zero token fails, in the
    arithmetic. *)
Lemma division_by_zero_fails (pre post : list string) (z : string) :
  infix (pre ++ "/" :: z :: post) = true ->
  strict_eq (Number z) pos_zero = true ->
  exists e,
    evaluateTokens (pre ++ "/" :: z :: post) = Fail e
    /\ (e = DivisionByZero \/ e = InvalidNumber).
Proof.
  intros Hinfix Hz.
  destruct (infix_split pre post "/" z eq_refl Hinfix) as (Hpre & Hnum & Hpost).
  rewrite evaluateTokens_finish, scan_app.
  destruct (scan_infix pre Hpre)
    as [(e & -> & He) | (output & ops & -> & Hlen & Hops)].
  { exists e. split; [reflexivity | exact He]. }
  rewrite bind_Done, scan_cons. unfold scan_token at 1.
  change (is_operator "/") with true. cbv iota.
  destruct (unwind_balanced "/" ops output Hlen) as [Hm Hbal].
  destruct (unwind_known "/" ops output Hops) as [Hk _].
  pose proof (unwind_overflow "/" ops output) as Ho.
  destruct (unwind "/" output ops) as [[o1 ops1]|e].
  - rewrite !bind_Done, scan_cons. unfold scan_token at 1.
    rewrite Hnum, (strict_eq_zero_finite _ Hz). cbn [negb]. rewrite bind_Done.
    specialize (Hbal o1 ops1 eq_refl).
    destruct o1 as [|a o1]; [discriminate Hbal|].
    rewrite absorb
      by (apply yields_multiplicative; [reflexivity|now apply pairs_at_operator]).
    rewrite (apply_division_by_zero a z Hz).
    destruct (divided_by_zero_fails a) as (e & -> & He).
    exists e. split; [reflexivity | exact He].
  - exists e. split; [reflexivity|]. apply arithmetic_failure; congruence.
Qed.

(** Reading [operator number] pairs after a sum and a term leaves a sum
    and a term again. *)
Lemma pairs_end_in_a_term (rest : list string) :
  forall sum term,
    parser_state sum term ->
    operator_number_pairs rest = true ->
    exists sum' term',
      parser_state sum' term'
      /\ tokens_of (close_sum sum term) ++ rest
         = tokens_of (close_sum sum' term').
Proof.
  induction rest as [rest IH] using (induction_ltof1 _ (@length string)).
  unfold ltof in IH. intros sum term Hstate Hpairs.
  destruct rest as [|op [|t rest]]; try discriminate Hpairs.
  - exists sum, term. split; [exact Hstate | apply app_nil_r].
  - cbn [operator_number_pairs] in Hpairs.
    apply andb_true_iff in Hpairs as [Hpairs Hrest].
    apply andb_true_iff in Hpairs as [Hop Ht]. apply negb_true_iff in Ht.
    destruct Hstate as [Hterm Hsum]. rewrite operator_cases in Hop.
    destruct (multiplicative op) eqn:Hmul.
    + destruct (IH rest) with (sum := sum) (term := Bin op term (Num t))
        as (sum' & term' & Hstate' & Htokens); [cbn; lia| |exact Hrest|].
      * split; [|exact Hsum]. cbn [term_shape]. now rewrite Hmul, Hterm, Ht.
      * exists sum', term'. split; [exact Hstate'|]. rewrite <- Htokens.
        destruct sum as [[e' op']|]; cbn [close_sum tokens_of];
          repeat (rewrite <- app_assoc; cbn [app]); reflexivity.
    + rewrite orb_false_r in Hop.
      destruct (IH rest) with (sum := Some (close_sum sum term, op))
                              (term := Num t)
        as (sum' & term' & Hstate' & Htokens); [cbn; lia| |exact Hrest|].
      * split; [cbn [term_shape]; now rewrite Ht|].
        split; [apply close_sum_shape; now split | exact Hop].
      * exists sum', term'. split; [exact Hstate'|]. rewrite <- Htokens.
        cbn [close_sum tokens_of].
        repeat (rewrite <- app_assoc; cbn [app]). reflexivity.
Qed.

(** An infix sequence ends in a term of the grammar, which comes first
    or after a sum and a [+] or [-]. *)
Lemma infix_ends_in_a_term (tokens : list string) :
  infix tokens = true ->
  (exists L, term_shape L = true /\ tokens = tokens_of L)
  \/ (exists S op L,
        sum_shape S = true /\ additive op = true /\ term_shape L = true
        /\ tokens = tokens_of S ++ op :: tokens_of L).
Proof.
  destruct tokens as [|t rest]; [discriminate|]. cbn [infix]. intros H.
  apply andb_true_iff in H as [Ht Hrest].
  destruct (pairs_end_in_a_term rest None (Num t))
    as (sum & L & [HL Hsum] & Htokens); [now split | exact Hrest|].
  cbn [close_sum tokens_of app] in Htokens.
  destruct sum as [[S op]|]; cbn [close_sum tokens_of] in Htokens.
  - right. exists S, op, L. destruct Hsum as [HS Hop]. now repeat split.
  - left. exists L. now split.
Qed.



(** ** The number roundSmart writes *)

Lemma digits_value_app (v : ascii -> Z) (s1 s2 : string) :
  forall acc,
    digits_value 10 v acc (s1 +:+ s2)
    = digits_value 10 v (digits_value 10 v acc s1) s2.
Proof.
  induction s1 as [|c r IH]; intros acc; [reflexivity|].
  change (String c r +:+ s2) with (String c (r +:+ s2)).
  cbn [digits_value]. apply IH.
Qed.

Lemma digits_value_zeros (v : ascii -> Z) (k : nat) :
  v "0"%char = 0 ->
  forall acc, digits_value 10 v acc (zeros_nat k) = acc * 10 ^ Z.of_nat k.
Proof.
  intros Hv. induction k as [|k IH]; intros acc.
  - cbn. lia.
  - cbn [zeros_nat digits_value]. rewrite IH, Hv, Nat2Z.inj_succ, Z.pow_succ_r by lia.
    lia.
Qed.

Lemma value_of_uint_acc (d : Decimal.uint) :
  forall acc,
    digits_value 10 digit_val (Z.pos acc) (NilEmpty.string_of_uint d)
    = Z.pos (Pos.of_uint_acc d acc).
Proof.
  induction d; intros acc; cbn [NilEmpty.string_of_uint digits_value Pos.of_uint_acc];
    [reflexivity|..];
    match goal with
    | |- digits_value _ _ ?x _ = Z.pos (Pos.of_uint_acc _ ?p) =>
        replace x with (Z.pos p) by (vm_compute digit_val; lia)
    end; apply IHd.
Qed.

Lemma value_of_uint (d : Decimal.uint) :
  decimal_value (NilEmpty.string_of_uint d) = Z.of_N (Pos.of_uint d).
Proof.
  unfold decimal_value.
  induction d; cbn [NilEmpty.string_of_uint digits_value Pos.of_uint];
    [reflexivity|exact IHd|..];
    match goal with
    | |- digits_value _ _ ?x _ = Z.of_N (N.pos (Pos.of_uint_acc _ ?p)) =>
        replace x with (Z.pos p) by (vm_compute; reflexivity)
    end; apply value_of_uint_acc.
Qed.

Lemma decimal_value_digits (n : Z) : 0 <= n -> decimal_value (digits n) = n.
Proof.
  intros Hn. unfold digits, NilZero.string_of_uint.
  assert (H : decimal_value (NilEmpty.string_of_uint (N.to_uint (Z.to_N n))) = n).
  { rewrite value_of_uint. change Pos.of_uint with N.of_uint.
    rewrite DecimalN.Unsigned.of_to. lia. }
  destruct (N.to_uint (Z.to_N n)); exact H.
Qed.

Lemma substring_split (m : string) :
  forall k f,
    (k + f = String.length m)%nat ->
    String.substring 0 k m +:+ String.substring k f m = m.
Proof.
  induction m as [|c r IH]; intros k f H; cbn [String.length] in H.
  - destruct k, f; try lia. reflexivity.
  - destruct k as [|k].
    + cbn [String.substring]. destruct f as [|f]; [lia|].
      cbn [String.substring].
      change ("" +:+ String c (String.substring 0 f r))
        with (String c ("" +:+ String.substring 0 f r)).
      f_equal. specialize (IH 0%nat f). cbn [String.substring] in IH.
      rewrite <- (IH ltac:(lia)) at 2.
      destruct r; reflexivity.
    + cbn [String.substring].
      change (String c (String.substring 0 k r) +:+ String.substring k f r)
        with (String c (String.substring 0 k r +:+ String.substring k f r)).
      f_equal. apply IH. lia.
Qed.

(** A string is what is left without its zeros at the end, and them. *)
Lemma strip_zeros_end_zeros (s : string) :
  s = strip_zeros_end s
      +:+ zeros_nat (String.length s - String.length (strip_zeros_end s)).
Proof.
  induction s as [|c r IH]; [reflexivity|]. cbn [strip_zeros_end].
  pose proof (strip_zeros_end_length r) as Hlen.
  destruct (strip_zeros_end r) as [|a b] eqn:E.
  - cbn [String.length] in *. rewrite Nat.sub_0_r in IH. cbn in IH.
    destruct (Ascii.eqb_spec c "0") as [->|_].
    + cbn [String.length]. rewrite Nat.sub_0_r. cbn [zeros_nat].
      now rewrite IH at 1.
    + cbn [String.length]. replace (S (String.length r) - 1)%nat
        with (String.length r) by lia.
      change (String c "" +:+ zeros_nat (String.length r))
        with (String c (zeros_nat (String.length r))).
      now rewrite IH at 1.
  - cbn [String.length] in *.
    replace (S (String.length r) - S (S (String.length b)))%nat
      with (String.length r - S (String.length b))%nat by lia.
    change (String c (String a b) +:+ zeros_nat (String.length r - S (String.length b)))
      with (String c (String a b
                      +:+ zeros_nat (String.length r - S (String.length b)))).
    now rewrite IH at 1.
Qed.

Lemma real_of_fraction (x : float) :
  0 <= snd (fst (real_of x)) /\ 0 < snd (real_of x).
Proof.
  destruct x as [s|s| |s m [|e|e]]; cbn [real_of fst snd]; split; lia.
Qed.

Lemma round_half_up_nonneg (a b : Z) : 0 <= a -> 0 < b -> 0 <= round_half_up a b.
Proof. intros Ha Hb. unfold round_half_up. apply Z.div_pos; lia. Qed.

(** Steps 11.a to 11.c write the digits of the rounded integer. *)
Lemma fixed_digits_value (f a b : Z) :
  0 < f -> 0 <= a -> 0 < b ->
  exists int frac,
    fixed_digits f a b = int +:+ "." +:+ frac
    /\ all_digits int = true /\ int <> ""
    /\ all_digits frac = true /\ len frac = f
    /\ decimal_value (int +:+ frac) = round_half_up (a * 10 ^ f) b.
Proof.
  intros Hf Ha Hb. unfold fixed_digits.
  destruct (Z.eqb_spec f 0) as [E|_]; [lia|].
  set (n := round_half_up (a * 10 ^ f) b).
  assert (Hn : 0 <= n).
  { apply round_half_up_nonneg; [|exact Hb]. apply Z.mul_nonneg_nonneg; lia. }
  set (m := if len (digits n) <=? f
            then zeros (f + 1 - len (digits n)) +:+ digits n
            else digits n).
  assert (Hm : all_digits m = true /\ f + 1 <= len m /\ decimal_value m = n).
  { unfold m. destruct (Z.leb_spec (len (digits n)) f) as [Hle|Hgt].
    - destruct (zeros_nat_digits (Z.to_nat (f + 1 - len (digits n)))) as [Hz Hl].
      unfold zeros. rewrite all_digits_app, Hz, digits_all_digits.
      split; [reflexivity|]. split.
      + rewrite len_length, length_append, Hl, Nat2Z.inj_add, Z2Nat.id;
          rewrite <- ?len_length; lia.
      + unfold decimal_value. rewrite digits_value_app.
        rewrite digits_value_zeros by reflexivity.
        now apply decimal_value_digits.
    - split; [apply digits_all_digits|]. split; [lia|].
      now apply decimal_value_digits. }
  destruct Hm as (Hall & Hlen & Hval).
  exists (sub 0 (len m - f) m), (sub (len m - f) f m).
  split; [reflexivity|]. unfold sub.
  assert (Hint : String.length (String.substring (Z.to_nat 0) (Z.to_nat (len m - f)) m)
                 = Z.to_nat (len m - f)).
  { apply length_substring. rewrite len_length in *. simpl. lia. }
  assert (Hfrac : String.length (String.substring (Z.to_nat (len m - f)) (Z.to_nat f) m)
                  = Z.to_nat f).
  { apply length_substring. rewrite len_length in *. lia. }
  repeat split.
  - now apply all_digits_substring.
  - intros E. rewrite E in Hint. simpl in Hint. lia.
  - now apply all_digits_substring.
  - rewrite len_length, Hfrac. lia.
  - change (Z.to_nat 0) with 0%nat.
    rewrite substring_split; [exact Hval|]. rewrite len_length in *. lia.
Qed.


